(** * nanoclaw: the LLM router (src/llm-router.ts) and the Ollama client
      (src/ollama-client.ts)

    A shallow embedding of the message classifier, the dispatcher and the
    backend call, together with the part of the JavaScript runtime they rest
    on: strings, a backtracking regular-expression matcher that follows the
    ECMAScript matcher semantics, and the [String.prototype] methods used by
    the router ([replace], [split], [trim], [toLowerCase], [includes]), and
    the timer that aborts a backend call.  The calls of the logger are left
    out: they change nothing the router or its callers read.

    Strings.  A JavaScript string is a sequence of UTF-16 code units.  The
    model covers the code units 0..255 (the Latin-1 range): a string is a
    [list ascii], and white space, word characters and case mappings are
    those ECMAScript defines on that range. *)

From Stdlib Require Import Ascii String Bool Arith NArith ZArith Lia List.
Import ListNotations.

Set Implicit Arguments.

Local Open Scope char_scope.
Local Open Scope nat_scope.
Local Open Scope list_scope.

(* ================================================================== *)
(** ** Characters and strings *)

Definition str := list ascii.

(** A string literal as a list of code units. *)
Definition js (s : string) : str := list_ascii_of_string s.

Definition code (c : ascii) : N := N_of_ascii c.

Definition in_range (lo hi : N) (c : ascii) : bool :=
  ((lo <=? code c) && (code c <=? hi))%N.

(** ECMAScript WhiteSpace and LineTerminator below U+0100: TAB, LF, VT, FF,
    CR, SP and NBSP.  This is the set of [\s] and of [trim]. *)
Definition isWhiteSpace (c : ascii) : bool :=
  in_range 9 13 c || (code c =? 32)%N || (code c =? 160)%N.

(** LineTerminator below U+0100: what [.] refuses. *)
Definition isLineTerminator (c : ascii) : bool :=
  (code c =? 10)%N || (code c =? 13)%N.

Definition isDigit (c : ascii) : bool := in_range 48 57 c.
Definition isLowerAZ (c : ascii) : bool := in_range 97 122 c.
Definition isUpperAZ (c : ascii) : bool := in_range 65 90 c.

(** The [\w] set: [A-Za-z0-9_]. *)
Definition isWordChar (c : ascii) : bool :=
  isLowerAZ c || isUpperAZ c || isDigit c || (code c =? 95)%N.

(** [String.prototype.toLowerCase] on one code unit of the Latin-1 range:
    A-Z, and U+00C0..U+00DE except the multiplication sign U+00D7. *)
Definition toLowerChar (c : ascii) : ascii :=
  if isUpperAZ c || (in_range 192 222 c && negb (code c =? 215)%N)
  then ascii_of_N (code c + 32) else c.

(** Canonicalize of the [i] flag without the [u] flag (upper-casing).  The
    code units U+00B5 and U+00FF, whose upper-case forms lie above U+00FF, are
    equal after canonicalization to no other code unit of the range, which
    keeping them fixed preserves. *)
Definition canonicalize (c : ascii) : ascii :=
  if isLowerAZ c || (in_range 224 254 c && negb (code c =? 247)%N)
  then ascii_of_N (code c - 32) else c.

Definition toLowerCase (s : str) : str := map toLowerChar s.

Fixpoint dropWhile (p : ascii -> bool) (s : str) : str :=
  match s with
  | [] => []
  | c :: s' => if p c then dropWhile p s' else s
  end.

Fixpoint takeWhile (p : ascii -> bool) (s : str) : str :=
  match s with
  | [] => []
  | c :: s' => if p c then c :: takeWhile p s' else []
  end.

Definition trimStart (s : str) : str := dropWhile isWhiteSpace s.
Definition trimEnd (s : str) : str := rev (dropWhile isWhiteSpace (rev s)).

(** [String.prototype.trim] *)
Definition trim (s : str) : str := trimEnd (trimStart s).

Fixpoint str_eqb (a b : str) : bool :=
  match a, b with
  | [], [] => true
  | x :: a', y :: b' => Ascii.eqb x y && str_eqb a' b'
  | _, _ => false
  end.

Fixpoint startsWith (s prefix : str) : bool :=
  match prefix, s with
  | [], _ => true
  | p :: prefix', c :: s' => Ascii.eqb p c && startsWith s' prefix'
  | _ :: _, [] => false
  end.

(** [String.prototype.includes] *)
Fixpoint includes (s needle : str) : bool :=
  startsWith s needle ||
  match s with
  | [] => false
  | _ :: s' => includes s' needle
  end.

(** [Array.prototype.includes] and [Set.prototype.has] on strings. *)
Definition array_includes (l : list str) (x : str) : bool :=
  existsb (str_eqb x) l.

(** [Array.prototype.join] *)
Fixpoint join (sep : str) (l : list str) : str :=
  match l with
  | [] => []
  | [x] => x
  | x :: l' => x ++ sep ++ join sep l'
  end.

(* ================================================================== *)
(** ** Regular expressions

    The abstract syntax of the patterns and their matcher.  A match state is
    the input split at the current index: the code units before it, nearest
    first, and those after it.  The matcher is written in continuation
    passing style like the ECMAScript one, so that the order in which the
    alternatives are tried (greedy before lazy, left before right) is the
    order of the language. *)

Inductive Re : Type :=
| Eps                                   (* the empty alternative *)
| Chr (p : ascii -> bool)               (* one code unit of a set *)
| Bol                                   (* ^ *)
| Eol                                   (* $ *)
| WordB (negated : bool)                (* \b and \B *)
| Seq (r1 r2 : Re)
| Alt (r1 r2 : Re)
| Rep (min : nat) (max : option nat) (greedy : bool) (r : Re).

Definition MatchState : Type := (str * str)%type.

Definition before (x : MatchState) : str := fst x.
Definition after (x : MatchState) : str := snd x.

Definition isWordAt (s : str) : bool :=
  match s with
  | [] => false
  | c :: _ => isWordChar c
  end.

(** IsWordChar(e-1) differs from IsWordChar(e). *)
Definition atWordBoundary (x : MatchState) : bool :=
  xorb (isWordAt (before x)) (isWordAt (after x)).

Section Matcher.
Variable A : Type.

Definition Cont : Type := MatchState -> option A.

Definition orElse (a : option A) (b : unit -> option A) : option A :=
  match a with
  | Some v => Some v
  | None => b tt
  end.

(** RepeatMatcher(m, min, max, greedy, x, c).  An iteration that is not
    required ([min] is zero) and consumes nothing fails; [fuel] bounds the
    iterations and [S (min + length (after x))] is always enough. *)
Fixpoint repeatMatcher (m : MatchState -> Cont -> option A) (fuel : nat)
    (min : nat) (max : option nat) (greedy : bool)
    (x : MatchState) (c : Cont) {struct fuel} : option A :=
  match fuel with
  | O => None
  | S fuel' =>
      match max with
      | Some O => c x
      | _ =>
          let d : Cont := fun y =>
            if (min =? 0) && (length (after y) =? length (after x))
            then None
            else repeatMatcher m fuel' (pred min) (option_map pred max)
                   greedy y c in
          if negb (min =? 0) then m x d
          else if greedy then orElse (m x d) (fun _ => c x)
          else orElse (c x) (fun _ => m x d)
      end
  end.

Fixpoint matcher (r : Re) (x : MatchState) (c : Cont) {struct r} : option A :=
  match r with
  | Eps => c x
  | Chr p =>
      match after x with
      | [] => None
      | ch :: rest => if p ch then c (ch :: before x, rest) else None
      end
  | Bol => match before x with [] => c x | _ :: _ => None end
  | Eol => match after x with [] => c x | _ :: _ => None end
  | WordB negated =>
      if xorb (atWordBoundary x) negated then c x else None
  | Seq r1 r2 => matcher r1 x (fun y => matcher r2 y c)
  | Alt r1 r2 => orElse (matcher r1 x c) (fun _ => matcher r2 x c)
  | Rep min max greedy r' =>
      repeatMatcher (matcher r') (S (min + length (after x)))
        min max greedy x c
  end.
End Matcher.

(** What a successful search reports: the text skipped before the match, the
    matched text, and the state at the end of the match. *)
Record Found : Type := mkFound {
  skipped : str;
  matched : str;
  endState : MatchState
}.

(** A match attempt at the current index (the continuation of the whole
    pattern accepts every state). *)
Definition matchAt (r : Re) (x : MatchState) : option MatchState :=
  matcher r x (fun y => Some y).

(** RegExpBuiltinExec without the sticky flag: the first index from the
    current one at which the pattern matches. *)
Fixpoint search (r : Re) (bef aft : str) {struct aft} : option Found :=
  match matchAt r (bef, aft) with
  | Some y =>
      Some (mkFound [] (firstn (length aft - length (after y)) aft) y)
  | None =>
      match aft with
      | [] => None
      | ch :: rest =>
          match search r (ch :: bef) rest with
          | Some f => Some (mkFound (ch :: skipped f) (matched f) (endState f))
          | None => None
          end
      end
  end.

(** [RegExp.prototype.test] of a pattern without the [g] and [y] flags. *)
Definition test (r : Re) (s : str) : bool :=
  match search r [] s with Some _ => true | None => false end.

(** [String.prototype.replace] with a pattern without the [g] flag and a
    replacement text without [$]: the first match is replaced. *)
Definition replace (r : Re) (replacement : str) (s : str) : str :=
  match search r [] s with
  | None => s
  | Some f => skipped f ++ replacement ++ after (endState f)
  end.

(** [String.prototype.replace] with the [g] flag: every match, from left to
    right; after an empty match the search resumes one code unit further. *)
Fixpoint replaceLoop (fuel : nat) (r : Re) (replacement : str)
    (bef aft : str) : str :=
  match fuel with
  | O => aft
  | S fuel' =>
      match search r bef aft with
      | None => aft
      | Some f =>
          let '(b, a) := endState f in
          match matched f, a with
          | [], [] => skipped f ++ replacement
          | [], ch :: a' =>
              skipped f ++ replacement ++
              ch :: replaceLoop fuel' r replacement (ch :: b) a'
          | _ :: _, _ =>
              skipped f ++ replacement ++ replaceLoop fuel' r replacement b a
          end
      end
  end.

Definition replaceAll (r : Re) (replacement : str) (s : str) : str :=
  replaceLoop (S (length s)) r replacement [] s.

(** [String.prototype.split] with a pattern that has no capture group.  The
    loop keeps the text of the piece being built ([piece], nearest first):
    at index [q] a failed match, or a match that ends where the piece
    starts, moves one code unit into the piece; any other match closes the
    piece and resumes after the match. *)
Fixpoint splitLoop (fuel : nat) (r : Re) (bef piece aft : str) : list str :=
  match fuel with
  | O => [rev piece ++ aft]
  | S fuel' =>
      match aft with
      | [] => [rev piece]
      | ch :: rest =>
          match matchAt r (bef, aft) with
          | None => splitLoop fuel' r (ch :: bef) (ch :: piece) rest
          | Some (b, a) =>
              if (length a =? length aft) && (length piece =? 0)
              then splitLoop fuel' r (ch :: bef) (ch :: piece) rest
              else rev piece :: splitLoop fuel' r b [] a
          end
      end
  end.

Definition split (r : Re) (s : str) : list str :=
  match s with
  | [] => match matchAt r ([], []) with Some _ => [] | None => [[]] end
  | _ :: _ => splitLoop (S (2 * length s)) r [] [] s
  end.

(* ================================================================== *)
(** ** The [RegExp] constructor

    [new RegExp(source)] parses the pattern text.  The parser covers a
    fragment of the pattern grammar (without flags): pattern characters, [.],
    [^], [$], [|], capturing and non-capturing groups, the quantifiers [*],
    [+] and [?] and their lazy forms, the assertions [\b] and [\B], the class
    escapes [\d \D \s \S \w \W], the control escapes [\t \n \v \f \r] and the
    escaped syntax characters.  On that fragment it answers like the
    ECMAScript parser: a regular expression, or a SyntaxError.  On anything
    else (character classes, braces, look-around, back references, named
    groups, numeric and Unicode escapes) it answers [Unsupported]: the model
    does not say what the engine does there.  Groups carry no capture, since
    the fragment has no back reference and the callers read no capture. *)

Inductive Compile : Type :=
| Compiled (r : Re)
| PatternSyntaxError
| Unsupported.

(** A group under construction: the alternatives closed so far and the terms
    of the current alternative (both latest first), and whether the latest
    term may take a quantifier. *)
Record Frame : Type := mkFrame {
  alts : list Re;
  terms : list Re;
  quantifiable : bool
}.

Definition emptyFrame : Frame := mkFrame [] [] false.

Definition seqOf (ts : list Re) : Re := fold_right Seq Eps ts.

Fixpoint altOf (a : Re) (rest : list Re) : Re :=
  match rest with
  | [] => a
  | b :: rest' => Alt a (altOf b rest')
  end.

Definition closeFrame (f : Frame) : Re :=
  match rev (seqOf (rev (terms f)) :: alts f) with
  | [] => Eps
  | a :: rest => altOf a rest
  end.

Definition pushTerm (f : Frame) (t : Re) (q : bool) : Frame :=
  mkFrame (alts f) (t :: terms f) q.

Definition nextAlternative (f : Frame) : Frame :=
  mkFrame (seqOf (rev (terms f)) :: alts f) [] false.

Definition quantify (f : Frame) (min : nat) (max : option nat)
    (greedy : bool) : option Frame :=
  if quantifiable f then
    match terms f with
    | t :: ts => Some (mkFrame (alts f) (Rep min max greedy t :: ts) false)
    | [] => None
    end
  else None.

(** SyntaxCharacter of the pattern grammar. *)
Definition isSyntaxChar (c : ascii) : bool :=
  existsb (Ascii.eqb c) (js "^$\.*+?()[]{}|").

(** The term of [\e] and whether it may take a quantifier; [None] outside
    the fragment. *)
Definition escapeTerm (e : ascii) : option (Re * bool) :=
  if (e =? "b")%char then Some (WordB false, false)
  else if (e =? "B")%char then Some (WordB true, false)
  else if (e =? "d")%char then Some (Chr isDigit, true)
  else if (e =? "D")%char then Some (Chr (fun c => negb (isDigit c)), true)
  else if (e =? "s")%char then Some (Chr isWhiteSpace, true)
  else if (e =? "S")%char then Some (Chr (fun c => negb (isWhiteSpace c)), true)
  else if (e =? "w")%char then Some (Chr isWordChar, true)
  else if (e =? "W")%char then Some (Chr (fun c => negb (isWordChar c)), true)
  else if (e =? "t")%char then Some (Chr (Ascii.eqb "009"), true)
  else if (e =? "n")%char then Some (Chr (Ascii.eqb "010"), true)
  else if (e =? "v")%char then Some (Chr (Ascii.eqb "011"), true)
  else if (e =? "f")%char then Some (Chr (Ascii.eqb "012"), true)
  else if (e =? "r")%char then Some (Chr (Ascii.eqb "013"), true)
  else if isSyntaxChar e || (e =? "/")%char then Some (Chr (Ascii.eqb e), true)
  else None.

(** The bounds of a quantifier character. *)
Definition quantifierOf (c : ascii) : option (nat * option nat) :=
  if (c =? "*")%char then Some (0, None)
  else if (c =? "+")%char then Some (1, None)
  else if (c =? "?")%char then Some (0, Some 1)
  else None.

Fixpoint parsePattern (p : str) (stack : list Frame) (cur : Frame)
    {struct p} : Compile :=
  match p with
  | [] =>
      match stack with
      | [] => Compiled (closeFrame cur)
      | _ :: _ => PatternSyntaxError             (* unterminated group *)
      end
  | c :: rest =>
      if (c =? "\")%char then
        match rest with
        | [] => PatternSyntaxError               (* \ at end of pattern *)
        | e :: rest' =>
            match escapeTerm e with
            | Some (t, q) => parsePattern rest' stack (pushTerm cur t q)
            | None => Unsupported
            end
        end
      else if (c =? "(")%char then
        match rest with
        | "?" :: rest1 =>
            match rest1 with
            | ":" :: rest2 => parsePattern rest2 (cur :: stack) emptyFrame
            | _ => Unsupported
            end
        | _ => parsePattern rest (cur :: stack) emptyFrame
        end
      else if (c =? ")")%char then
        match stack with
        | [] => PatternSyntaxError               (* unmatched ) *)
        | f :: stack' =>
            parsePattern rest stack' (pushTerm f (closeFrame cur) true)
        end
      else if (c =? "|")%char then parsePattern rest stack (nextAlternative cur)
      else if (c =? "^")%char then parsePattern rest stack (pushTerm cur Bol false)
      else if (c =? "$")%char then parsePattern rest stack (pushTerm cur Eol false)
      else if (c =? ".")%char then
        parsePattern rest stack
          (pushTerm cur (Chr (fun ch => negb (isLineTerminator ch))) true)
      else
        match quantifierOf c with
        | Some (min, max) =>
            match rest with
            | "?" :: rest' =>
                match quantify cur min max false with
                | Some cur' => parsePattern rest' stack cur'
                | None => PatternSyntaxError     (* nothing to repeat *)
                end
            | _ =>
                match quantify cur min max true with
                | Some cur' => parsePattern rest stack cur'
                | None => PatternSyntaxError     (* nothing to repeat *)
                end
            end
        | None =>
            if isSyntaxChar c then Unsupported    (* [ ] { } *)
            else parsePattern rest stack (pushTerm cur (Chr (Ascii.eqb c)) true)
        end
  end.

Definition compilePattern (source : str) : Compile :=
  parsePattern source [] emptyFrame.

(* ================================================================== *)
(** ** Exceptions and results *)

(** The exceptions of the runtime, by name. *)
Inductive NativeError : Type :=
| TypeError           (* a property of undefined or null; a failed fetch *)
| SyntaxError         (* an ill-formed pattern or JSON text *)
| AbortError.         (* the abort signal fired *)

(** The values the code throws or sees thrown. *)
Inductive JsError : Type :=
| Native (e : NativeError)
| OllamaHttpError (status : Z) (statusText : str)
                      (* new Error(`Ollama HTTP ${status}: ${statusText}`) *)
| OllamaFormatError   (* new Error('Unexpected Ollama response format') *)
| OllamaTimeout (timeoutMs : Z).
                      (* new Error(`Ollama timed out after ${timeoutMs}ms`) *)

(** [err.name === 'AbortError'] *)
Definition isAbortError (e : JsError) : bool :=
  match e with Native AbortError => true | _ => false end.

(** The outcome of a computation: a value, an exception, or [Unmodelled]
    when it went through a pattern outside the modelled fragment. *)
Inductive Result (A : Type) : Type :=
| Ok (a : A)
| Throw (e : JsError)
| Unmodelled.

Arguments Ok {A} a.
Arguments Throw {A} e.
Arguments Unmodelled {A}.

Definition bind {A B : Type} (m : Result A) (k : A -> Result B) : Result B :=
  match m with
  | Ok a => k a
  | Throw e => Throw e
  | Unmodelled => Unmodelled
  end.

Notation "x <- m ;; k" := (bind m (fun x => k))
  (at level 61, m at next level, right associativity).

(** [new RegExp(source)] *)
Definition newRegExp (source : str) : Result Re :=
  match compilePattern source with
  | Compiled r => Ok r
  | PatternSyntaxError => Throw (Native SyntaxError)
  | Unsupported => Unmodelled
  end.

(** [Array.prototype.some] with a callback that may throw: the elements
    after the first hit are not visited. *)
Fixpoint array_some {A : Type} (f : A -> Result bool) (l : list A)
    : Result bool :=
  match l with
  | [] => Ok false
  | a :: l' => b <- f a ;; if b then Ok true else array_some f l'
  end.

(* ================================================================== *)
(** ** src/llm-router.ts: the data *)

(** Modelled from the spec: the NewMessage type of ./types.js is not among
    the sources.  A message has its textual content, a flag for the
    automation itself as sender and a flag for an automated bot as sender;
    the router reads these three fields only. *)
Record NewMessage : Type := mkMessage {
  content : str;
  is_from_me : bool;
  is_bot_message : bool
}.

Record Models : Type := mkModels {
  simple : str;
  general : str;
  reasoning : str
}.

Record OllamaConfig : Type := mkOllama {
  baseUrl : str;
  timeoutMs : Z;
  models : Models
}.

Record Routing : Type := mkRouting {
  maxWordsForSimple : Z;
  privacyKeywords : list str;
  simpleStarters : list str
}.

Record RoutingConfig : Type := mkConfig {
  enabled : bool;
  ollama : OllamaConfig;
  routing : Routing
}.

(** ['ollama-forced' | 'ollama-simple' | 'ollama-privacy' | 'claude'] *)
Inductive RouteDecision : Type :=
| OllamaForced
| OllamaSimple
| OllamaPrivacy
| Claude.

(* ================================================================== *)
(** ** The patterns of the router, as the literals denote them *)

Definition notWhiteSpace (c : ascii) : bool := negb (isWhiteSpace c).

(** A pattern character under the [i] flag. *)
Definition ChrI (c : ascii) : Re :=
  Chr (fun ch => (canonicalize ch =? canonicalize c)%char).

(** [/^@\S+\s*/u] *)
Definition mentionRe : Re :=
  Seq Bol (Seq (Chr (Ascii.eqb "@"))
          (Seq (Rep 1 None true (Chr notWhiteSpace))
               (Rep 0 None true (Chr isWhiteSpace)))).

(** [!local] under the [i] flag *)
Definition bangLocal (tail : Re) : Re :=
  Seq (ChrI "!") (Seq (ChrI "l") (Seq (ChrI "o") (Seq (ChrI "c")
    (Seq (ChrI "a") (Seq (ChrI "l") tail))))).

(** [/^!local\s*/i] *)
Definition localPrefixRe : Re :=
  Seq Bol (bangLocal (Rep 0 None true (Chr isWhiteSpace))).

(** [/^!local\b/i] *)
Definition localDirectiveRe : Re :=
  Seq Bol (bangLocal (WordB false)).

(** [/\s+/] and [/\s+/g] *)
Definition whiteSpacesRe : Re := Rep 1 None true (Chr isWhiteSpace).

(** [/[^a-z]/g] *)
Definition notLowerLetterRe : Re := Chr (fun c => negb (isLowerAZ c)).

(* ================================================================== *)
(** ** src/llm-router.ts: the classifier *)

(** [messages[messages.length - 1]], undefined on an empty array. *)
Definition lastOf {A : Type} (l : list A) : option A :=
  match rev l with
  | [] => None
  | a :: _ => Some a
  end.

Definition lastUserMessage (messages : list NewMessage) : option NewMessage :=
  let userMessages :=
    filter (fun m => negb (is_from_me m) && negb (is_bot_message m)) messages in
  if 0 <? length userMessages then lastOf userMessages else lastOf messages.

(** [lastUserMessage(messages).content]: a TypeError on undefined. *)
Definition lastUserContent (messages : list NewMessage) : Result str :=
  match lastUserMessage messages with
  | Some m => Ok (content m)
  | None => Throw (Native TypeError)
  end.

Definition extractLastUserText (messages : list NewMessage) : Result str :=
  c <- lastUserContent messages ;;
  Ok (trim (replace localPrefixRe [] (replace mentionRe [] c))).

Definition mentionStripped (messages : list NewMessage) : Result str :=
  c <- lastUserContent messages ;;
  Ok (trim (replace mentionRe [] c)).

(** The source text of the pattern built for one keyword:
    [`\\b${kw.toLowerCase().replace(/\s+/g, '\\s+')}\\b`] *)
Definition keywordPattern (kw : str) : str :=
  js "\b" ++ replaceAll whiteSpacesRe (js "\s+") (toLowerCase kw) ++ js "\b".

Definition hasPrivacyKeyword (messages : list NewMessage)
    (keywords : list str) : Result bool :=
  let allText := toLowerCase (join (js " ") (map content messages)) in
  array_some
    (fun kw => pattern <- newRegExp (keywordPattern kw) ;;
               Ok (test pattern allText))
    keywords.

Definition COMMAND_STARTERS : list str := [js "define"; js "explain"].

Definition isSimpleQuestion (text : str) (maxWords : Z)
    (starters : list str) : Result bool :=
  let words := split whiteSpacesRe (trim text) in
  if (Z.of_nat (length words) >? maxWords)%Z then Ok false
  else
    match words with
    | [] => Throw (Native TypeError)
    | w0 :: _ =>
        let firstWord := replaceAll notLowerLetterRe [] (toLowerCase w0) in
        if negb (array_includes starters firstWord) then Ok false
        else Ok (array_includes COMMAND_STARTERS firstWord
                 || includes text (js "?"))
    end.

(** The body of [classifyMessages] once the configuration is loaded. *)
Definition classify (cfg : option RoutingConfig)
    (messages : list NewMessage) : Result RouteDecision :=
  match cfg with
  | None => Ok Claude
  | Some cfg =>
      if negb (enabled cfg) then Ok Claude
      else
        stripped <- mentionStripped messages ;;
        if test localDirectiveRe stripped then Ok OllamaForced
        else
          private <- hasPrivacyKeyword messages (privacyKeywords (routing cfg)) ;;
          if private then Ok OllamaPrivacy
          else
            userText <- extractLastUserText messages ;;
            easy <- isSimpleQuestion userText
                      (maxWordsForSimple (routing cfg))
                      (simpleStarters (routing cfg)) ;;
            if easy then Ok OllamaSimple else Ok Claude
  end.

(* ================================================================== *)
(** ** The process state and the local-inference backend *)

(** The body of a request to [`${baseUrl}/api/generate`]:
    [{ model, prompt, stream: false }], and the delay [timeoutMs] of the
    timer whose abort signal the request carries. *)
Record OllamaRequest : Type := mkRequest {
  req_baseUrl : str;
  req_model : str;
  req_prompt : str;
  req_stream : bool;
  req_timeoutMs : Z
}.

(** The value of a property of a parsed JSON object.  A number is kept by
    its integer part, which decides whether it is truthy for the integers;
    a nested object or array is kept as such. *)
Inductive JsValue : Type :=
| VNull
| VBool (b : bool)
| VNumber (z : Z)
| VString (s : str)
| VObject.

(** A parsed JSON text: null, an object with its properties, or any other
    value (a boolean, a number, a string, an array), which has neither a
    [done] nor a [response] property. *)
Inductive Json : Type :=
| JNull
| JObject (fields : list (str * JsValue))
| JOther.

(** What [await res.json()] does. *)
Inductive BodyOutcome : Type :=
| BodyRejects (e : NativeError)
| BodyParses (data : Json).

Record Response : Type := mkResponse {
  status : Z;
  statusText : str;
  body : BodyOutcome
}.

(** [res.ok]: the status is in the range 200..299. *)
Definition ok (res : Response) : bool :=
  ((200 <=? status res) && (status res <=? 299))%Z.

(** What [await fetch(...)] does.  The abort signal of the request belongs to
    a controller that only the timer of [queryOllama] aborts: a rejection
    with [AbortError] is the expiry of [timeoutMs]. *)
Inductive FetchOutcome : Type :=
| FetchRejects (e : NativeError)
| FetchResolves (res : Response).

(** The network, as the answer to each request. *)
Definition Network : Type := OllamaRequest -> FetchOutcome.

(** The state the router reads and writes: the configuration file as
    [fs.readFileSync] and [JSON.parse] deliver it ([None] when either
    throws), the module-level cache, and the requests sent so far. *)
Record World : Type := mkWorld {
  configFile : option RoutingConfig;
  cachedConfig : option RoutingConfig;
  requests : list OllamaRequest
}.

Definition loadConfig (w : World) : option RoutingConfig * World :=
  match cachedConfig w with
  | Some cfg => (Some cfg, w)
  | None =>
      match configFile w with
      | Some cfg => (Some cfg, mkWorld (configFile w) (Some cfg) (requests w))
      | None => (None, w)
      end
  end.

Definition classifyMessages (w : World) (messages : list NewMessage)
    : Result RouteDecision * World :=
  let '(cfg, w') := loadConfig w in (classify cfg messages, w').

(* ================================================================== *)
(** ** src/ollama-client.ts *)

(** [data.key]: undefined ([None]) when absent, a TypeError on null. *)
Fixpoint lookupField (k : str) (fields : list (str * JsValue))
    : option JsValue :=
  match fields with
  | [] => None
  | (k', v) :: fields' => if str_eqb k k' then Some v else lookupField k fields'
  end.

Definition getProperty (data : Json) (k : str) : Result (option JsValue) :=
  match data with
  | JNull => Throw (Native TypeError)
  | JObject fields => Ok (lookupField k fields)
  | JOther => Ok None
  end.

(** ToBoolean *)
Definition truthy (v : option JsValue) : bool :=
  match v with
  | None => false
  | Some VNull => false
  | Some (VBool b) => b
  | Some (VNumber z) => negb (z =? 0)%Z
  | Some (VString s) => negb (str_eqb s [])
  | Some VObject => true
  end.

(** The [try] block of [queryOllama], given what the fetch did. *)
Definition queryOllamaTry (outcome : FetchOutcome) : Result str :=
  match outcome with
  | FetchRejects e => Throw (Native e)
  | FetchResolves res =>
      if negb (ok res) then Throw (OllamaHttpError (status res) (statusText res))
      else
        match body res with
        | BodyRejects e => Throw (Native e)
        | BodyParses data =>
            done <- getProperty data (js "done") ;;
            response <- getProperty data (js "response") ;;
            if negb (truthy done) then Throw OllamaFormatError
            else
              match response with
              | Some (VString text) => Ok (trim text)
              | _ => Throw OllamaFormatError
              end
        end
  end.

(** The [catch] block: an abort becomes the timeout error, anything else is
    thrown again. *)
Definition queryOllamaCatch (timeout : Z) (r : Result str) : Result str :=
  match r with
  | Throw err =>
      if isAbortError err then Throw (OllamaTimeout timeout) else Throw err
  | _ => r
  end.

(** [queryOllama(prompt, model, baseUrl, timeoutMs)]: one request is sent;
    the timer is cleared on every path. *)
Definition queryOllama (net : Network) (prompt model url : str) (timeout : Z)
    (w : World) : Result str * World :=
  let request := mkRequest url model prompt false timeout in
  (queryOllamaCatch timeout (queryOllamaTry (net request)),
   mkWorld (configFile w) (cachedConfig w) (requests w ++ [request])).

(* ================================================================== *)
(** ** src/llm-router.ts: the dispatcher *)

(** The two fixed indicators, ['🔒 [Private]'] and ['🤖 [Local]'].  Their
    first code units lie outside the modelled range, so a reply is kept as
    the indicator and the text that follows it and a space. *)
Inductive Indicator : Type := PrivateIndicator | LocalIndicator.

Record Reply : Type := mkReply {
  indicator : Indicator;
  reply_text : str
}.

Definition isClaude (d : RouteDecision) : bool :=
  match d with Claude => true | _ => false end.

Definition isSimple (d : RouteDecision) : bool :=
  match d with OllamaSimple => true | _ => false end.

Definition isPrivacy (d : RouteDecision) : bool :=
  match d with OllamaPrivacy => true | _ => false end.

(** The model chosen for a local decision. *)
Definition modelFor (cfg : RoutingConfig) (decision : RouteDecision) : str :=
  if isSimple decision then simple (models (ollama cfg))
  else general (models (ollama cfg)).

Definition tryOllamaRoute (net : Network) (w : World)
    (messages : list NewMessage) (groupName : str)
    : Result (option Reply) * World :=
  let '(loaded, w1) := loadConfig w in
  match loaded with
  | None => (Ok None, w1)
  | Some cfg =>
      if negb (enabled cfg) then (Ok None, w1)
      else
        let '(classified, w2) := classifyMessages w1 messages in
        match classified with
        | Throw e => (Throw e, w2)
        | Unmodelled => (Unmodelled, w2)
        | Ok decision =>
            if isClaude decision then (Ok None, w2)
            else
              match extractLastUserText messages with
              | Throw e => (Throw e, w2)
              | Unmodelled => (Unmodelled, w2)
              | Ok userText =>
                  let model := modelFor cfg decision in
                  let '(answer, w3) :=
                    queryOllama net userText model (baseUrl (ollama cfg))
                      (timeoutMs (ollama cfg)) w2 in
                  match answer with
                  | Ok response =>
                      let indicator :=
                        if isPrivacy decision then PrivateIndicator
                        else LocalIndicator in
                      (Ok (Some (mkReply indicator response)), w3)
                  | Throw _ => (Ok None, w3)           (* catch (err) *)
                  | Unmodelled => (Unmodelled, w3)
                  end
              end
        end
  end.

(** The code units of an indicator after its emoji. *)
Definition indicatorLabel (i : Indicator) : str :=
  match i with
  | PrivateIndicator => js " [Private]"
  | LocalIndicator => js " [Local]"
  end.

(** The returned string [`${indicator} ${response}`] after the emoji of the
    indicator. *)
Definition replyTail (r : Reply) : str :=
  indicatorLabel (indicator r) ++ js " " ++ reply_text r.

(* ================================================================== *)
(** ** The abort timer and the backend

    [queryOllama] arms a timer, [setTimeout(() => controller.abort(),
    timeoutMs)], and passes the signal of the controller to [fetch].  What
    the network answers to a call is then decided by two things: what the
    backend does and how long it takes, and the moment the timer fires.
    Times are in milliseconds from the call. *)

(** The delay of the timer.  The runtime (Node.js) replaces a delay below 1
    or above 2^31 - 1 by 1. *)
Definition timerDelay (timeoutMs : Z) : Z :=
  if ((1 <=? timeoutMs) && (timeoutMs <=? 2147483647))%Z then timeoutMs
  else 1%Z.

(** The body of a response, read to its end. *)
Inductive BodyText : Type :=
| Truncated                (* the connection is lost: a TypeError *)
| NotJson                  (* no JSON text: a SyntaxError *)
| JsonText (data : Json).

(** What the backend does with a request that nothing aborts: no
    connection, or a status line followed, [bodyTakes] later, by the end
    of the body. *)
Inductive Delivery : Type :=
| NoConnection             (* the fetch rejects with a TypeError *)
| Responds (status : Z) (statusText : str) (bodyTakes : N) (text : BodyText).

(** One exchange: the fetch settles after [settlesAfter]; [timerFirst] is
    the order in which the runtime handles the timer and an event of the
    exchange that fall in the same millisecond. *)
Record Exchange : Type := mkExchange {
  settlesAfter : N;
  delivery : Delivery;
  timerFirst : bool
}.

(** The backend, as the exchange it gives for a base address, a model and a
    prompt: it does not know the timeout of the caller. *)
Definition Backend : Type := str -> str -> str -> Exchange.

(** An event at [t] is handled before the timer of delay [delay] fires. *)
Definition beatsTimer (x : Exchange) (delay : Z) (t : N) : bool :=
  (Z.of_N t <? delay)%Z || ((Z.of_N t =? delay)%Z && negb (timerFirst x)).

(** [await res.json()] on a body that is read to its end. *)
Definition readBody (text : BodyText) : BodyOutcome :=
  match text with
  | Truncated => BodyRejects TypeError
  | NotJson => BodyRejects SyntaxError
  | JsonText data => BodyParses data
  end.

(** [fetch] and [res.json()] under the signal of a timer of delay [delay]:
    once the timer has fired, whichever of the two is pending rejects with
    an AbortError. *)
Definition fetchWithin (delay : Z) (x : Exchange) : FetchOutcome :=
  if negb (beatsTimer x delay (settlesAfter x)) then FetchRejects AbortError
  else
    match delivery x with
    | NoConnection => FetchRejects TypeError
    | Responds status statusText bodyTakes text =>
        FetchResolves
          (mkResponse status statusText
             (if beatsTimer x delay (settlesAfter x + bodyTakes)
              then readBody text else BodyRejects AbortError))
    end.

(** The network that a backend and the timers of the calls make. *)
Definition timedNetwork (backend : Backend) : Network :=
  fun request =>
    fetchWithin (timerDelay (req_timeoutMs request))
      (backend (req_baseUrl request) (req_model request) (req_prompt request)).

(* ================================================================== *)
(** * The words of the specification

    The notions the specification is written in, defined on strings
    directly, without the regular-expression machinery. *)

(** The text begins with [!local] in any letter case. *)
Definition beginsWithLocal (s : str) : bool :=
  startsWith (toLowerCase s) (js "!local").

(** The text begins with the token [!local] in any letter case: what
    follows it is the end of the text or not a word character. *)
Definition beginsWithLocalDirective (s : str) : bool :=
  beginsWithLocal s && negb (isWordAt (skipn 6 s)).

(** A leading mention as the router reads it: an [@], one or more code units
    that are not white space, and the white space that follows, if any. *)
Definition stripMention (s : str) : str :=
  match s with
  | "@" :: rest =>
      match takeWhile notWhiteSpace rest with
      | [] => s
      | _ :: _ => dropWhile isWhiteSpace (dropWhile notWhiteSpace rest)
      end
  | _ => s
  end.

(** A leading [!local] in any letter case and the white space after it. *)
Definition stripLocalPrefix (s : str) : str :=
  if beginsWithLocal s then dropWhile isWhiteSpace (skipn 6 s) else s.

(** The bare text of a message content. *)
Definition bareText (c : str) : str :=
  trim (stripLocalPrefix (stripMention c)).

(** A leading mention as one token that is not white space, immediately
    followed by white space, whatever its first code unit. *)
Definition stripLeadingToken (s : str) : str :=
  match takeWhile notWhiteSpace s, dropWhile notWhiteSpace s with
  | _ :: _, _ :: _ => dropWhile isWhiteSpace (dropWhile notWhiteSpace s)
  | _, _ => s
  end.

(** The bare text with that reading of a mention. *)
Definition bareTextAnyToken (c : str) : str :=
  let s := stripLeadingToken c in
  if beginsWithLocalDirective s then dropWhile isWhiteSpace (skipn 6 s) else s.

(** The tokens of a text: its maximal runs of code units that are not white
    space ([cur] is the token being read, latest code unit first). *)
Fixpoint tokensFrom (cur : str) (s : str) : list str :=
  match s with
  | [] => match cur with [] => [] | _ :: _ => [rev cur] end
  | c :: s' =>
      if isWhiteSpace c then
        match cur with
        | [] => tokensFrom [] s'
        | _ :: _ => rev cur :: tokensFrom [] s'
        end
      else tokensFrom (c :: cur) s'
  end.

Definition tokens (s : str) : list str := tokensFrom [] s.

(** A token in lower case with everything but the letters a-z removed. *)
Definition lettersOnly (w : str) : str := filter isLowerAZ (toLowerCase w).

(** The first token of a text, normalized (the empty string when the text
    has no token). *)
Definition firstWord (s : str) : str := lettersOnly (hd [] (tokens s)).

(** The condition of the simple-question rule on a bare text. *)
Definition simpleCondition (cfg : RoutingConfig) (bare : str) : Prop :=
  (Z.of_nat (length (tokens bare)) <= maxWordsForSimple (routing cfg))%Z /\
  In (firstWord bare) (simpleStarters (routing cfg)) /\
  (In (firstWord bare) COMMAND_STARTERS \/ In "?"%char bare).

(** [text] reads as the phrase [k], a run of white space in the phrase
    standing for any non-empty run of white space in the text. *)
Inductive PhraseMatch : str -> str -> Prop :=
| PM_end : PhraseMatch [] []
| PM_char (c : ascii) (k t : str) :
    isWhiteSpace c = false ->
    PhraseMatch k t ->
    PhraseMatch (c :: k) (c :: t)
| PM_space (gap gap' : str) (c : ascii) (k t : str) :
    gap <> [] -> forallb isWhiteSpace gap = true ->
    gap' <> [] -> forallb isWhiteSpace gap' = true ->
    isWhiteSpace c = false ->
    PhraseMatch (c :: k) t ->
    PhraseMatch (gap ++ c :: k) (gap' ++ t).

(** [text] contains the phrase as a whole word or phrase: an occurrence
    with no word character right before it and none right after it. *)
Definition ContainsPhrase (phrase text : str) : Prop :=
  exists pre mid post : str,
    text = pre ++ mid ++ post /\
    PhraseMatch phrase mid /\
    isWordAt (rev pre) = false /\
    isWordAt post = false.

(** A keyword without a syntax character of the pattern grammar, whose first
    and last code units are word characters. *)
Definition plainKeyword (kw : str) : bool :=
  forallb (fun c => negb (isSyntaxChar c)) kw &&
  isWordAt kw && isWordAt (rev kw).

(** The value of a property of the payload; absent on anything but an
    object that has it. *)
Definition field (data : Json) (k : str) : option JsValue :=
  match data with
  | JObject fields => lookupField k fields
  | _ => None
  end.

Definition isText (v : option JsValue) : bool :=
  match v with
  | Some (VString _) => true
  | _ => false
  end.

(** The ways a backend call fails, read off what the network did. *)

(** The request itself fails: no connection, or the abort signal. *)
Definition TransportFails (o : FetchOutcome) : Prop :=
  exists e, o = FetchRejects e.

(** The HTTP status is outside the success range. *)
Definition StatusOutside (o : FetchOutcome) : Prop :=
  exists res, o = FetchResolves res /\ ok res = false.

(** The body cannot be read as JSON. *)
Definition BodyUnreadable (o : FetchOutcome) : Prop :=
  exists res e, o = FetchResolves res /\ body res = BodyRejects e.

(** The completed flag is missing or false, or the generated text is not a
    string. *)
Definition PayloadMalformed (o : FetchOutcome) : Prop :=
  exists res data,
    o = FetchResolves res /\ body res = BodyParses data /\
    (truthy (field data (js "done")) = false \/
     isText (field data (js "response")) = false).

(** The timer fired before the call completed. *)
Definition TimedOut (o : FetchOutcome) : Prop :=
  o = FetchRejects AbortError \/
  exists res, o = FetchResolves res /\ ok res = true /\
              body res = BodyRejects AbortError.

Definition BackendFails (o : FetchOutcome) : Prop :=
  TransportFails o \/ StatusOutside o \/ BodyUnreadable o \/ PayloadMalformed o.

(** What the call gets from the backend when no timer interferes. *)
Definition unhurried (x : Exchange) : FetchOutcome :=
  match delivery x with
  | NoConnection => FetchRejects TypeError
  | Responds status statusText _ text =>
      FetchResolves (mkResponse status statusText (readBody text))
  end.

(** The time the backend needs: until the fetch settles and, when the
    status is in the success range, until the body is read. *)
Definition timeNeeded (x : Exchange) : Z :=
  match delivery x with
  | NoConnection => Z.of_N (settlesAfter x)
  | Responds status _ bodyTakes _ =>
      if ((200 <=? status) && (status <=? 299))%Z
      then Z.of_N (settlesAfter x + bodyTakes)
      else Z.of_N (settlesAfter x)
  end.

(** The time the backend needs exceeds the delay of the timer; when the two
    are equal, the order of the runtime decides. *)
Definition TimerExpires (delay : Z) (x : Exchange) : Prop :=
  (delay < timeNeeded x)%Z \/ (delay = timeNeeded x /\ timerFirst x = true).

(** The request the dispatcher sends for a decision and a bare text. *)
Definition requestFor (cfg : RoutingConfig) (decision : RouteDecision)
    (bare : str) : OllamaRequest :=
  mkRequest (baseUrl (ollama cfg))
    match decision with
    | OllamaSimple => simple (models (ollama cfg))
    | _ => general (models (ollama cfg))
    end
    bare false (timeoutMs (ollama cfg)).

(** The policy is disabled or unavailable. *)
Definition policyOff (w : World) : Prop :=
  match fst (loadConfig w) with
  | None => True
  | Some cfg => enabled cfg = false
  end.

(** The configuration a loaded, enabled policy stands for. *)
Definition policyOf (w : World) : option RoutingConfig := fst (loadConfig w).

(* ================================================================== *)
(** * Auxiliary notions of the proofs *)

(** A literal under the [i] flag, followed by [tail]. *)
Definition litI (w : str) (tail : Re) : Re :=
  fold_right (fun c r => Seq (ChrI c) r) tail w.

(** [s] begins with [w] up to canonicalization. *)
Fixpoint startsWithCanon (s w : str) : bool :=
  match w, s with
  | [], _ => true
  | p :: w', ch :: s' =>
      (canonicalize ch =? canonicalize p)%char && startsWithCanon s' w'
  | _ :: _, [] => false
  end.

(** The text at hand starts with white space. *)
Definition isSpaceAt (s : str) : bool :=
  match s with
  | [] => false
  | c :: _ => isWhiteSpace c
  end.

(** The text does not end with white space. *)
Definition endsClean (s : str) : Prop := isSpaceAt (rev s) = false.

(** A pattern character as a term. *)
Definition lit (c : ascii) : Re := Chr (Ascii.eqb c).

(** The terms of the pattern of a keyword in lower case: a literal for each
    code unit that is not white space, one [\s+] for each run of white
    space ([inGap]: the previous code unit was white space). *)
Fixpoint keywordTerms (inGap : bool) (k : str) : list Re :=
  match k with
  | [] => []
  | c :: k' =>
      if isWhiteSpace c then
        if inGap then keywordTerms true k'
        else whiteSpacesRe :: keywordTerms true k'
      else lit c :: keywordTerms false k'
  end.

(** The regular expression [new RegExp] builds for a plain keyword. *)
Definition keywordRe (kw : str) : Re :=
  seqOf (WordB false :: keywordTerms false (toLowerCase kw) ++ [WordB false]).

Definition pushLits (cur : Frame) (lits : str) : Frame :=
  fold_left (fun f c => pushTerm f (lit c) true) lits cur.

Definition startsWithQuestion (s : str) : bool :=
  match s with
  | [] => false
  | c :: _ => (c =? "?")%char
  end.

Definition noSyntaxChar (s : str) : bool :=
  forallb (fun c => negb (isSyntaxChar c)) s.

(** A message written by a user: neither by the automation itself nor by
    a bot (the test of the filter in [lastUserMessage]). *)
Definition isUser (m : NewMessage) : bool :=
  negb (is_from_me m) && negb (is_bot_message m).

Definition notUser (m : NewMessage) : bool := negb (isUser m).

(** The configuration file changes on disk (written, repaired or removed by
    someone else) while the process runs. *)
Definition withConfigFile (file : option RoutingConfig) (w : World) : World :=
  mkWorld file (cachedConfig w) (requests w).

(* ================================================================== *)
(** * Data of the worked examples *)

Definition msg (text : string) : NewMessage := mkMessage (js text) false false.

Definition examplePolicy (keywords starters : list string) : RoutingConfig :=
  mkConfig true
    (mkOllama (js "http://localhost:11434") 30000
       (mkModels (js "small") (js "medium") (js "large")))
    (mkRouting 6 (map js keywords) (map js starters)).

(** A process that has not loaded its configuration yet. *)
Definition freshWorld (cfg : RoutingConfig) : World := mkWorld (Some cfg) None [].

(** A backend that answers every request with the text [4]. *)
Definition answeringNetwork : Network :=
  fun _ => FetchResolves
    (mkResponse 200 (js "OK")
       (BodyParses (JObject [(js "response", VString (js "4"));
                             (js "done", VBool true)]))).

(** A backend whose answer does not come before the timer fires. *)
Definition slowNetwork : Network := fun _ => FetchRejects AbortError.

(** A backend that cannot be reached. *)
Definition deadNetwork : Network := fun _ => FetchRejects TypeError.

(** A backend to which no connection can be made: the fetch fails after
    5 ms. *)
Definition unreachableBackend : Backend :=
  fun _ _ _ => mkExchange 5 NoConnection false.

(** A backend that answers every request with the text [4]: the status line
    after 20 ms, the end of the body 30 ms later. *)
Definition promptBackend : Backend :=
  fun _ _ _ =>
    mkExchange 20
      (Responds 200 (js "OK") 30
         (JsonText (JObject [(js "response", VString (js "4"));
                             (js "done", VBool true)])))
      false.

(* ================================================================== *)
(** * Properties of the runtime model *)

(** ** Code units *)

Ltac each_char c :=
  destruct c as [[] [] [] [] [] [] [] []]; vm_compute;
  try reflexivity; try discriminate; try tauto; auto.

Lemma toLowerChar_whiteSpace (c : ascii) :
  isWhiteSpace (toLowerChar c) = isWhiteSpace c.
Proof. each_char c. Qed.

Lemma toLowerChar_wordChar (c : ascii) :
  isWordChar (toLowerChar c) = isWordChar c.
Proof. each_char c. Qed.

Lemma toLowerChar_syntaxChar (c : ascii) :
  isSyntaxChar (toLowerChar c) = isSyntaxChar c.
Proof. each_char c. Qed.

Lemma wordChar_not_whiteSpace (c : ascii) :
  isWordChar c = true -> isWhiteSpace c = false.
Proof. each_char c. Qed.

Lemma whiteSpace_not_syntaxChar (c : ascii) :
  isWhiteSpace c = true -> isSyntaxChar c = false.
Proof. each_char c. Qed.

Lemma canonicalize_bang (c : ascii) :
  (canonicalize c =? canonicalize "!")%char = (toLowerChar c =? "!")%char.
Proof. each_char c. Qed.

Lemma canonicalize_l (c : ascii) :
  (canonicalize c =? canonicalize "l")%char = (toLowerChar c =? "l")%char.
Proof. each_char c. Qed.

Lemma canonicalize_o (c : ascii) :
  (canonicalize c =? canonicalize "o")%char = (toLowerChar c =? "o")%char.
Proof. each_char c. Qed.

Lemma canonicalize_c (c : ascii) :
  (canonicalize c =? canonicalize "c")%char = (toLowerChar c =? "c")%char.
Proof. each_char c. Qed.

Lemma canonicalize_a (c : ascii) :
  (canonicalize c =? canonicalize "a")%char = (toLowerChar c =? "a")%char.
Proof. each_char c. Qed.

Lemma lower_l_wordChar (c : ascii) :
  (toLowerChar c =? "l")%char = true -> isWordChar c = true.
Proof. each_char c. Qed.

(** What the parser does with a code unit that is not a syntax character. *)
Lemma plain_char_dispatch (c : ascii) :
  isSyntaxChar c = false ->
  (c =? "\")%char = false /\ (c =? "(")%char = false /\
  (c =? ")")%char = false /\ (c =? "|")%char = false /\
  (c =? "^")%char = false /\ (c =? "$")%char = false /\
  (c =? ".")%char = false /\ quantifierOf c = None /\
  (c =? "?")%char = false.
Proof. each_char c; repeat split; discriminate. Qed.

(** ** Lists of code units *)

Lemma takeWhile_dropWhile (p : ascii -> bool) (s : str) :
  takeWhile p s ++ dropWhile p s = s.
Proof.
  induction s as [|c s IH]; simpl; [reflexivity|].
  destruct (p c); simpl; [now rewrite IH | reflexivity].
Qed.

Lemma dropWhile_length (p : ascii -> bool) (s : str) :
  length (dropWhile p s) <= length s.
Proof.
  induction s as [|c s IH]; simpl; [lia|].
  destruct (p c); simpl; lia.
Qed.

Lemma firstn_takeWhile (p : ascii -> bool) (s : str) :
  firstn (length s - length (dropWhile p s)) s = takeWhile p s.
Proof.
  induction s as [|c s IH]; [reflexivity|].
  cbn [takeWhile dropWhile]. destruct (p c).
  - cbn [length]. rewrite Nat.sub_succ_l by apply dropWhile_length.
    cbn [firstn]. now rewrite IH.
  - now rewrite Nat.sub_diag.
Qed.

Lemma takeWhile_app_stop (p : ascii -> bool) (s t : str) :
  forallb p s = true ->
  match t with [] => True | c :: _ => p c = false end ->
  takeWhile p (s ++ t) = s /\ dropWhile p (s ++ t) = t.
Proof.
  intros Hs Ht. induction s as [|c s IH]; simpl in *.
  - destruct t as [|c t]; simpl; [auto|]. now rewrite Ht.
  - apply andb_true_iff in Hs as [Hc Hs]. rewrite Hc.
    destruct (IH Hs) as [-> ->]. auto.
Qed.

Lemma str_eqb_eq (a b : str) : str_eqb a b = true <-> a = b.
Proof.
  revert b. induction a as [|x a IH]; intros [|y b]; simpl;
    try (split; [discriminate | discriminate]); [tauto|].
  rewrite andb_true_iff, Ascii.eqb_eq, IH.
  split; [intros [-> ->]; reflexivity | intros [= -> ->]; auto].
Qed.

Lemma array_includes_In (l : list str) (x : str) :
  array_includes l x = true <-> In x l.
Proof.
  unfold array_includes. rewrite existsb_exists. split.
  - intros [y [Hy E]]. apply str_eqb_eq in E. now subst.
  - intros H. exists x. split; [assumption | now apply str_eqb_eq].
Qed.

(** ** The matcher on a repeated character set *)

Section MatcherFacts.
Variable A : Type.
Implicit Types (c : Cont A) (p : ascii -> bool).

Lemma matcher_Chr_cons p ch b a c :
  matcher (Chr p) (b, ch :: a) c = if p ch then c (ch :: b, a) else None.
Proof. reflexivity. Qed.

Lemma matcher_Seq r1 r2 x c :
  matcher (Seq r1 r2) x c = matcher r1 x (fun y => matcher r2 y c).
Proof. reflexivity. Qed.

Lemma matcher_Rep min max greedy r x c :
  matcher (Rep min max greedy r) x c =
  repeatMatcher (matcher r) (S (min + length (after x))) min max greedy x c.
Proof. reflexivity. Qed.

Lemma matcher_Chr_nil p b c : matcher (Chr p) (b, []) c = None.
Proof. reflexivity. Qed.

Lemma repeatMatcher_unbounded (m : MatchState -> Cont A -> option A)
    fuel min greedy x c :
  repeatMatcher m (S fuel) min None greedy x c =
  let d : Cont A := fun y =>
    if (min =? 0) && (length (after y) =? length (after x)) then None
    else repeatMatcher m fuel (pred min) None greedy y c in
  if negb (min =? 0) then m x d
  else if greedy then orElse (m x d) (fun _ => c x)
  else orElse (c x) (fun _ => m x d).
Proof. reflexivity. Qed.

(** A greedy unbounded repetition of a set takes the longest run when the
    continuation accepts there. *)
Lemma repeat_set_longest p c v :
  forall a b fuel min,
    min + length a < fuel ->
    min <= length (takeWhile p a) ->
    c (rev (takeWhile p a) ++ b, dropWhile p a) = Some v ->
    repeatMatcher (matcher (Chr p)) fuel min None true (b, a) c = Some v.
Proof.
  induction a as [|ch a IH]; intros b fuel min Hfuel Hmin Hc;
    (destruct fuel as [|fuel]; [cbn [length] in Hfuel; lia|]);
    rewrite repeatMatcher_unbounded; cbv zeta.
  - cbn [takeWhile length] in Hmin. assert (min = 0) by lia. subst min.
    rewrite matcher_Chr_nil. exact Hc.
  - rewrite matcher_Chr_cons. cbn [takeWhile dropWhile] in Hmin, Hc.
    destruct (p ch) eqn:Hp.
    + cbn [after snd length].
      replace (length a =? S (length a)) with false
        by (symmetry; apply Nat.eqb_neq; lia).
      rewrite andb_false_r.
      rewrite (IH (ch :: b) fuel (pred min)).
      * destruct (min =? 0); reflexivity.
      * cbn [length] in Hfuel. lia.
      * cbn [length] in Hmin. lia.
      * cbn [rev] in Hc. now rewrite <- app_assoc in Hc.
    + cbn [length] in Hmin. assert (min = 0) by lia. subst min. exact Hc.
Qed.

(** A repetition that needs one more element than the run has fails. *)
Lemma repeat_set_none p c b a fuel greedy :
  takeWhile p a = [] ->
  repeatMatcher (matcher (Chr p)) fuel 1 None greedy (b, a) c = None.
Proof.
  intros H. destruct fuel as [|fuel]; [reflexivity|].
  rewrite repeatMatcher_unbounded; cbv zeta. cbn [Nat.eqb negb].
  destruct a as [|ch a]; [reflexivity|].
  rewrite matcher_Chr_cons. cbn [takeWhile] in H.
  destruct (p ch); [discriminate | reflexivity].
Qed.

Lemma matcher_WordB (negated : bool) x c :
  matcher (WordB negated) x c =
  if xorb (atWordBoundary x) negated then c x else None.
Proof. reflexivity. Qed.

(** One more element of the set, then the rest of the repetition. *)
Lemma repeat_set_step p c v fuel a b min greedy (z : bool) :
  (forall a' b' min' greedy',
      repeatMatcher (matcher (Chr p)) fuel min' None greedy' (b', a') c = Some v ->
      exists run rest,
        a' = run ++ rest /\ forallb p run = true /\ min' <= length run /\
        c (rev run ++ b', rest) = Some v) ->
  matcher (Chr p) (b, a)
    (fun y =>
       if z && (length (after y) =? length (after (b, a))) then None
       else repeatMatcher (matcher (Chr p)) fuel (pred min) None greedy y c)
    = Some v ->
  exists run rest,
    a = run ++ rest /\ forallb p run = true /\ 1 <= length run /\
    pred min <= length run - 1 /\
    c (rev run ++ b, rest) = Some v.
Proof.
  intros IH H. destruct a as [|ch a]; [discriminate H|].
  rewrite matcher_Chr_cons in H. destruct (p ch) eqn:Hp; [|discriminate H].
  cbn [after snd length] in H.
  replace (length a =? S (length a)) with false in H
    by (symmetry; apply Nat.eqb_neq; lia).
  rewrite andb_false_r in H.
  apply IH in H as (run & rest & -> & Hall & Hlen & Hc).
  exists (ch :: run), rest. cbn [app forallb length rev]. rewrite Hp, Hall.
  rewrite <- app_assoc. repeat split; [lia | lia | exact Hc].
Qed.

(** What a repetition of a set has read when the continuation accepts. *)
Lemma repeat_set_sound p c v :
  forall fuel a b min greedy,
    repeatMatcher (matcher (Chr p)) fuel min None greedy (b, a) c = Some v ->
    exists run rest,
      a = run ++ rest /\ forallb p run = true /\ min <= length run /\
      c (rev run ++ b, rest) = Some v.
Proof.
  induction fuel as [|fuel IH]; intros a b min greedy H; [discriminate H|].
  rewrite repeatMatcher_unbounded in H; cbv zeta in H.
  destruct (Nat.eqb_spec min 0) as [->|Hmin]; cbn [negb] in H.
  - destruct greedy; unfold orElse in H.
    + match type of H with
      | match ?e with Some _ => _ | None => _ end = _ => destruct e eqn:Hm
      end.
      * injection H as ->.
        destruct (@repeat_set_step p c v fuel a b 0 true true IH Hm)
          as (run & rest & ? & ? & ? & ? & ?).
        exists run, rest. repeat split; auto; lia.
      * exists [], a. repeat split; [cbn; lia | exact H].
    + destruct (c (b, a)) eqn:Hc.
      * injection H as ->. exists [], a. repeat split; [cbn; lia | exact Hc].
      * destruct (@repeat_set_step p c v fuel a b 0 false true IH H)
          as (run & rest & ? & ? & ? & ? & ?).
        exists run, rest. repeat split; auto; lia.
  - destruct (@repeat_set_step p c v fuel a b min greedy false IH H)
      as (run & rest & ? & ? & ? & ? & ?).
    exists run, rest. repeat split; auto; lia.
Qed.

(** *** The bound on the iterations is never reached

    A matcher calls its continuation on states at or after the current
    index only, so the iterations of a repetition either count down [min]
    or consume input: with more fuel than [min + length (after x)] the
    result does not depend on the fuel. *)

Lemma repeatMatcher_ext (m : MatchState -> Cont A -> option A) :
  (forall x c1 c2,
      (forall y, length (after y) <= length (after x) -> c1 y = c2 y) ->
      m x c1 = m x c2) ->
  forall fuel min max greedy x c1 c2,
    (forall y, length (after y) <= length (after x) -> c1 y = c2 y) ->
    repeatMatcher m fuel min max greedy x c1 =
    repeatMatcher m fuel min max greedy x c2.
Proof.
  intros Hm. induction fuel as [|fuel IH]; intros min max greedy x c1 c2 H;
    [reflexivity|].
  cbn [repeatMatcher].
  assert (Hx : c1 x = c2 x) by (apply H; lia).
  assert (Hd : m x (fun y =>
                 if (min =? 0) && (length (after y) =? length (after x))
                 then None
                 else repeatMatcher m fuel (pred min) (option_map pred max)
                        greedy y c1) =
               m x (fun y =>
                 if (min =? 0) && (length (after y) =? length (after x))
                 then None
                 else repeatMatcher m fuel (pred min) (option_map pred max)
                        greedy y c2)).
  { apply Hm. intros y Hy. destruct (_ && _); [reflexivity|].
    apply IH. intros z Hz. apply H. lia. }
  destruct max as [[|n]|]; [exact Hx| |]; rewrite Hd, Hx; reflexivity.
Qed.

Lemma matcher_ext (r : Re) :
  forall x c1 c2,
    (forall y, length (after y) <= length (after x) -> c1 y = c2 y) ->
    matcher r x c1 = matcher r x c2.
Proof.
  induction r as [|p| | |negated|r1 IH1 r2 IH2|r1 IH1 r2 IH2|min max greedy r IH];
    intros x c1 c2 H; cbn [matcher].
  - apply H. lia.
  - destruct x as [b [|ch a]]; cbn [after before fst snd]; [reflexivity|].
    destruct (p ch); [|reflexivity]. apply H. cbn [after snd length]. lia.
  - destruct (before x); [apply H; lia | reflexivity].
  - destruct (after x) eqn:E; [apply H; rewrite E; cbn; lia | reflexivity].
  - destruct (xorb _ _); [apply H; lia | reflexivity].
  - apply IH1. intros y Hy. apply IH2. intros z Hz. apply H. lia.
  - now rewrite (IH1 x c1 c2 H), (IH2 x c1 c2 H).
  - now apply repeatMatcher_ext.
Qed.

Lemma repeatMatcher_fuel (r : Re) :
  forall fuel1 fuel2 min max greedy x c,
    min + length (after x) < fuel1 ->
    min + length (after x) < fuel2 ->
    repeatMatcher (matcher r) fuel1 min max greedy x c =
    repeatMatcher (matcher r) fuel2 min max greedy x c.
Proof.
  induction fuel1 as [|fuel1 IH]; intros fuel2 min max greedy x c H1 H2; [lia|].
  destruct fuel2 as [|fuel2]; [lia|]. cbn [repeatMatcher].
  assert (Hd : matcher r x (fun y =>
                 if (min =? 0) && (length (after y) =? length (after x))
                 then None
                 else repeatMatcher (matcher r) fuel1 (pred min)
                        (option_map pred max) greedy y c) =
               matcher r x (fun y =>
                 if (min =? 0) && (length (after y) =? length (after x))
                 then None
                 else repeatMatcher (matcher r) fuel2 (pred min)
                        (option_map pred max) greedy y c)).
  { apply matcher_ext. intros y Hy.
    destruct (Nat.eqb_spec min 0) as [->|Hmin]; cbn [andb].
    - destruct (Nat.eqb_spec (length (after y)) (length (after x)));
        [reflexivity|]. apply IH; cbn [pred]; lia.
    - apply IH; lia. }
  destruct max as [[|n]|]; [reflexivity| |]; now rewrite Hd.
Qed.

End MatcherFacts.

(** ** Searching with an anchored pattern *)

Lemma matchAt_Bol (r : Re) (s : str) :
  matchAt (Seq Bol r) ([], s) = matchAt r ([], s).
Proof. reflexivity. Qed.

Lemma search_Bol_later (r : Re) :
  forall aft ch bef, search (Seq Bol r) (ch :: bef) aft = None.
Proof.
  induction aft as [|c aft IH]; intros ch bef; cbn [search];
    unfold matchAt; rewrite matcher_Seq; cbn [matcher before fst].
  - reflexivity.
  - now rewrite IH.
Qed.

(** With [^] and no [m] flag only index 0 can match. *)
Lemma search_Bol (r : Re) (s : str) :
  search (Seq Bol r) [] s =
  match matchAt r ([], s) with
  | Some y => Some (mkFound [] (firstn (length s - length (after y)) s) y)
  | None => None
  end.
Proof.
  destruct s as [|c s]; cbn [search]; rewrite matchAt_Bol;
    destruct (matchAt r _); try reflexivity.
  now rewrite search_Bol_later.
Qed.

Lemma replace_Bol (r : Re) (s : str) :
  replace (Seq Bol r) [] s =
  match matchAt r ([], s) with
  | Some y => after y
  | None => s
  end.
Proof.
  unfold replace. rewrite search_Bol. now destruct (matchAt r ([], s)).
Qed.

Lemma test_Bol (r : Re) (s : str) :
  test (Seq Bol r) s =
  match matchAt r ([], s) with Some _ => true | None => false end.
Proof.
  unfold test. rewrite search_Bol. now destruct (matchAt r ([], s)).
Qed.

(** A greedy run of a set at the end of a pattern. *)
Lemma matchAt_run (p : ascii -> bool) (b a : str) :
  matcher (Rep 0 None true (Chr p)) (b, a) (fun y => Some y) =
  Some (rev (takeWhile p a) ++ b, dropWhile p a).
Proof.
  rewrite matcher_Rep. apply repeat_set_longest; [cbn; lia | lia | reflexivity].
Qed.

(** ** The mention pattern *)

Lemma replace_mentionRe (s : str) :
  replace mentionRe [] s = stripMention s.
Proof.
  unfold mentionRe. rewrite replace_Bol. unfold matchAt, stripMention.
  destruct s as [|c rest]; [reflexivity|].
  rewrite matcher_Seq, matcher_Chr_cons.
  destruct (Ascii.eqb_spec "@" c) as [<-|Hne].
  - rewrite matcher_Seq, matcher_Rep.
    destruct (takeWhile notWhiteSpace rest) as [|t ts] eqn:Hrun.
    + now rewrite repeat_set_none.
    + rewrite repeat_set_longest
        with (v := (rev (takeWhile isWhiteSpace (dropWhile notWhiteSpace rest))
                      ++ rev (takeWhile notWhiteSpace rest) ++ ["@"],
                    dropWhile isWhiteSpace (dropWhile notWhiteSpace rest)));
        [reflexivity | cbn; lia | | ].
      * rewrite Hrun. cbn [length]. lia.
      * apply matchAt_run.
  - destruct c as [[] [] [] [] [] [] [] []]; try reflexivity.
    now contradiction Hne.
Qed.

(** ** The [!local] patterns *)

Lemma matcher_litI (A : Type) (tail : Re) (c : Cont A) :
  forall w s b,
    matcher (litI w tail) (b, s) c =
    if startsWithCanon s w
    then matcher tail (rev (firstn (length w) s) ++ b, skipn (length w) s) c
    else None.
Proof.
  induction w as [|p w IH]; intros s b; [now destruct s|].
  cbn [litI fold_right]. rewrite matcher_Seq.
  destruct s as [|ch s]; [reflexivity|].
  unfold ChrI at 1. rewrite matcher_Chr_cons.
  cbn [startsWithCanon length firstn skipn rev].
  destruct (canonicalize ch =? canonicalize p)%char; [|reflexivity].
  cbn [andb]. fold (litI w tail). rewrite IH. now rewrite <- app_assoc.
Qed.

Lemma startsWithCanon_lower (w : str) :
  (forall p, In p w -> forall ch,
     (canonicalize ch =? canonicalize p)%char = (p =? toLowerChar ch)%char) ->
  forall s, startsWithCanon s w = startsWith (toLowerCase s) w.
Proof.
  induction w as [|p w IH]; intros H s; [now destruct s|].
  destruct s as [|ch s]; [reflexivity|].
  cbn [startsWithCanon toLowerCase map startsWith].
  rewrite (H p (or_introl eq_refl)). f_equal.
  apply IH. intros q Hq. apply H. now right.
Qed.

Lemma startsWithCanon_bangLocal (s : str) :
  startsWithCanon s (js "!local") = beginsWithLocal s.
Proof.
  apply startsWithCanon_lower. intros p Hp ch. rewrite Ascii.eqb_sym.
  cbn [js list_ascii_of_string In] in Hp.
  destruct Hp as [<-|[<-|[<-|[<-|[<-|[<-|[]]]]]]].
  - apply canonicalize_bang.
  - apply canonicalize_l.
  - apply canonicalize_o.
  - apply canonicalize_c.
  - apply canonicalize_a.
  - apply canonicalize_l.
Qed.

Lemma beginsWithLocal_word (s : str) :
  beginsWithLocal s = true -> isWordAt (rev (firstn 6 s)) = true.
Proof.
  unfold beginsWithLocal, toLowerCase. intros H.
  do 6 (destruct s as [|? s];
        [cbn [js list_ascii_of_string startsWith map] in H;
         rewrite ?andb_false_r in H; discriminate H|]).
  cbn [js list_ascii_of_string startsWith map] in H.
  rewrite !andb_true_iff in H. destruct H as (_ & _ & _ & _ & _ & Hl & _).
  cbn [firstn rev app isWordAt].
  apply lower_l_wordChar. now rewrite Ascii.eqb_sym.
Qed.

Lemma bangLocal_litI (tail : Re) : bangLocal tail = litI (js "!local") tail.
Proof. reflexivity. Qed.

Lemma replace_localPrefixRe (s : str) :
  replace localPrefixRe [] s = stripLocalPrefix s.
Proof.
  unfold localPrefixRe. rewrite replace_Bol, bangLocal_litI.
  unfold matchAt, stripLocalPrefix. rewrite matcher_litI.
  rewrite startsWithCanon_bangLocal.
  destruct (beginsWithLocal s); [|reflexivity].
  now rewrite matchAt_run.
Qed.

Lemma test_localDirectiveRe (s : str) :
  test localDirectiveRe s = beginsWithLocalDirective s.
Proof.
  unfold localDirectiveRe. rewrite test_Bol, bangLocal_litI.
  unfold matchAt, beginsWithLocalDirective. rewrite matcher_litI.
  rewrite startsWithCanon_bangLocal.
  destruct (beginsWithLocal s) eqn:Hb; [|reflexivity].
  cbn [matcher andb]. unfold atWordBoundary. cbn [before after fst snd].
  change (length (js "!local")) with 6.
  rewrite app_nil_r, (beginsWithLocal_word _ Hb).
  now destruct (isWordAt (skipn 6 s)).
Qed.

(** ** Global replacement of a character set *)

Lemma search_Chr (p q : ascii -> bool) :
  (forall c, q c = negb (p c)) ->
  forall aft bef,
    search (Chr p) bef aft =
    match dropWhile q aft with
    | [] => None
    | ch :: rest =>
        Some (mkFound (takeWhile q aft) [ch]
                (ch :: rev (takeWhile q aft) ++ bef, rest))
    end.
Proof.
  intros Hq. induction aft as [|c aft IH]; intros bef; [reflexivity|].
  cbn [search dropWhile takeWhile]. unfold matchAt.
  rewrite matcher_Chr_cons, Hq.
  destruct (p c); cbn [negb].
  - cbn [after snd length]. replace (S (length aft) - length aft) with 1 by lia.
    reflexivity.
  - rewrite IH. destruct (dropWhile q aft); [reflexivity|].
    cbn [skipped matched endState rev]. now rewrite <- app_assoc.
Qed.

Lemma filter_takeWhile_dropWhile (q : ascii -> bool) (s : str) :
  filter q s = takeWhile q s ++ filter q (dropWhile q s).
Proof.
  induction s as [|c s IH]; [reflexivity|].
  cbn [filter takeWhile dropWhile]. destruct (q c) eqn:E.
  - now rewrite IH.
  - cbn [filter app]. now rewrite E.
Qed.

Lemma replaceLoop_Chr (p q : ascii -> bool) :
  (forall c, q c = negb (p c)) ->
  forall fuel aft bef,
    length aft < fuel ->
    replaceLoop fuel (Chr p) [] bef aft = filter q aft.
Proof.
  intros Hq. induction fuel as [|fuel IH]; intros aft bef Hlen; [lia|].
  cbn [replaceLoop]. rewrite (@search_Chr p q Hq).
  rewrite (filter_takeWhile_dropWhile q aft).
  pose proof (takeWhile_dropWhile q aft) as Hsplit.
  destruct (dropWhile q aft) as [|ch rest] eqn:Hd.
  - cbn [filter]. now rewrite app_nil_r in *.
  - cbn [endState matched skipped app filter].
    assert (Hch : q ch = false).
    { clear -Hd. induction aft as [|c aft IH]; [discriminate|].
      cbn [dropWhile] in Hd. destruct (q c) eqn:E; [auto|]. now inversion Hd; subst. }
    rewrite Hch. f_equal. apply IH.
    rewrite <- Hsplit in Hlen. rewrite length_app in Hlen. cbn [length] in Hlen. lia.
Qed.

Lemma replaceAll_notLowerLetterRe (s : str) :
  replaceAll notLowerLetterRe [] s = filter isLowerAZ s.
Proof.
  unfold replaceAll, notLowerLetterRe. apply replaceLoop_Chr; [|lia].
  intros c. now rewrite negb_involutive.
Qed.

(** ** Runs of white space *)

Lemma matchAt_whiteSpacesRe (bef aft : str) :
  matchAt whiteSpacesRe (bef, aft) =
  match takeWhile isWhiteSpace aft with
  | [] => None
  | _ :: _ => Some (rev (takeWhile isWhiteSpace aft) ++ bef,
                    dropWhile isWhiteSpace aft)
  end.
Proof.
  unfold matchAt, whiteSpacesRe. rewrite matcher_Rep.
  destruct (takeWhile isWhiteSpace aft) as [|t ts] eqn:Hrun.
  - now apply repeat_set_none.
  - apply repeat_set_longest; [cbn; lia | rewrite Hrun; cbn; lia |].
    now rewrite Hrun.
Qed.

Lemma dropWhile_head (p : ascii -> bool) (s : str) :
  match dropWhile p s with [] => True | c :: _ => p c = false end.
Proof.
  induction s as [|c s IH]; [exact I|].
  cbn [dropWhile]. destruct (p c) eqn:E; [exact IH | exact E].
Qed.

Lemma notWhiteSpace_false (c : ascii) :
  notWhiteSpace c = false <-> isWhiteSpace c = true.
Proof. unfold notWhiteSpace. destruct (isWhiteSpace c); cbn; intuition congruence. Qed.

Lemma search_whiteSpacesRe :
  forall aft bef,
    search whiteSpacesRe bef aft =
    match dropWhile notWhiteSpace aft with
    | [] => None
    | _ :: _ =>
        let gap := takeWhile isWhiteSpace (dropWhile notWhiteSpace aft) in
        Some (mkFound (takeWhile notWhiteSpace aft) gap
                (rev gap ++ rev (takeWhile notWhiteSpace aft) ++ bef,
                 dropWhile isWhiteSpace (dropWhile notWhiteSpace aft)))
    end.
Proof.
  induction aft as [|c aft IH]; intros bef.
  - cbn [search]. now rewrite matchAt_whiteSpacesRe.
  - cbn [search]. rewrite matchAt_whiteSpacesRe.
    cbn [takeWhile dropWhile].
    destruct (isWhiteSpace c) eqn:Hc.
    + assert (Hn : notWhiteSpace c = false) by (unfold notWhiteSpace; now rewrite Hc).
      rewrite Hn. cbn zeta. cbn [takeWhile dropWhile]. rewrite Hc.
      cbn [after snd].
      pose proof (firstn_takeWhile isWhiteSpace (c :: aft)) as F.
      cbn [takeWhile dropWhile] in F. rewrite Hc in F. rewrite F.
      reflexivity.
    + assert (Hn : notWhiteSpace c = true) by (unfold notWhiteSpace; now rewrite Hc).
      rewrite Hn, IH. destruct (dropWhile notWhiteSpace aft); [reflexivity|].
      cbn zeta. cbn [skipped matched endState rev].
      now rewrite <- !app_assoc.
Qed.

(** ** Tokens, [trim] and [split] *)

Lemma isSpaceAt_app (s t : str) : s <> [] -> isSpaceAt (s ++ t) = isSpaceAt s.
Proof. destruct s; [congruence | reflexivity]. Qed.

Lemma endsClean_tail (c : ascii) (s : str) :
  endsClean (c :: s) -> endsClean s.
Proof.
  unfold endsClean. destruct s as [|d s]; [reflexivity|].
  cbn [rev]. intros H. rewrite isSpaceAt_app in H; [exact H|].
  intros E. apply (f_equal (@length ascii)) in E.
  rewrite length_app in E. cbn in E. lia.
Qed.

Lemma endsClean_dropWhile (p : ascii -> bool) (s : str) :
  endsClean s -> endsClean (dropWhile p s).
Proof.
  induction s as [|c s IH]; intros H; [exact H|].
  cbn [dropWhile]. destruct (p c); [|exact H].
  apply IH. now apply endsClean_tail in H.
Qed.

Lemma endsClean_not_blank (s : str) :
  endsClean s -> s <> [] -> dropWhile isWhiteSpace s <> [].
Proof.
  induction s as [|c s IH]; intros H Hne; [congruence|].
  cbn [dropWhile]. destruct (isWhiteSpace c) eqn:Hc; [|discriminate].
  destruct s as [|d s].
  - unfold endsClean in H. cbn in H. congruence.
  - apply IH; [now apply endsClean_tail in H | discriminate].
Qed.

Lemma tokensFrom_blank (r : str) :
  forallb isWhiteSpace r = true ->
  forall cur, tokensFrom cur r = tokensFrom cur [].
Proof.
  induction r as [|c r IH]; intros H cur; [reflexivity|].
  cbn [forallb] in H. apply andb_true_iff in H as [Hc Hr].
  cbn [tokensFrom]. rewrite Hc. destruct cur; rewrite (IH Hr); reflexivity.
Qed.

Lemma tokensFrom_app_blank (r : str) :
  forallb isWhiteSpace r = true ->
  forall u cur, tokensFrom cur (u ++ r) = tokensFrom cur u.
Proof.
  intros Hr. induction u as [|c u IH]; intros cur.
  - now apply tokensFrom_blank.
  - cbn [app tokensFrom]. destruct (isWhiteSpace c); [destruct cur|];
      now rewrite IH.
Qed.

Lemma tokensFrom_dropWhile (s : str) :
  tokensFrom [] (dropWhile isWhiteSpace s) = tokensFrom [] s.
Proof.
  induction s as [|c s IH]; [reflexivity|].
  cbn [dropWhile tokensFrom]. destruct (isWhiteSpace c) eqn:Hc; [exact IH|].
  cbn [tokensFrom]. now rewrite Hc.
Qed.

Lemma tokensFrom_nonempty (s : str) :
  forall cur, cur <> [] -> tokensFrom cur s <> [].
Proof.
  induction s as [|c s IH]; intros cur Hcur; cbn [tokensFrom].
  - destruct cur; [congruence | discriminate].
  - destruct (isWhiteSpace c); [destruct cur; [congruence | discriminate]|].
    apply IH. discriminate.
Qed.

Lemma takeWhile_forallb (p : ascii -> bool) (s : str) :
  forallb p (takeWhile p s) = true.
Proof.
  induction s as [|c s IH]; [reflexivity|].
  cbn [takeWhile]. destruct (p c) eqn:E; [|reflexivity].
  cbn [forallb]. now rewrite E.
Qed.

(** A text is its [trimEnd] followed by white space. *)
Lemma trimEnd_decompose (s : str) :
  s = trimEnd s ++ rev (takeWhile isWhiteSpace (rev s)) /\
  forallb isWhiteSpace (rev (takeWhile isWhiteSpace (rev s))) = true.
Proof.
  split.
  - unfold trimEnd. rewrite <- rev_app_distr, takeWhile_dropWhile.
    now rewrite rev_involutive.
  - rewrite forallb_forall. intros x Hx. apply in_rev in Hx.
    pose proof (takeWhile_forallb isWhiteSpace (rev s)) as H.
    rewrite forallb_forall in H. now apply H.
Qed.

Lemma tokens_trim (s : str) : tokens (trim s) = tokens s.
Proof.
  unfold tokens, trim.
  destruct (trimEnd_decompose (trimStart s)) as [Hd Hb].
  rewrite <- (tokensFrom_dropWhile s). fold (trimStart s).
  rewrite Hd at 2. now rewrite tokensFrom_app_blank.
Qed.

Lemma trim_endsClean (s : str) : endsClean (trim s).
Proof.
  unfold endsClean, trim, trimEnd. rewrite rev_involutive.
  pose proof (dropWhile_head isWhiteSpace (rev (trimStart s))) as H.
  destruct (dropWhile isWhiteSpace (rev (trimStart s))); [reflexivity | exact H].
Qed.

Lemma trim_starts (s : str) : isSpaceAt (trim s) = false.
Proof.
  unfold trim. destruct (trimEnd_decompose (trimStart s)) as [Hd _].
  pose proof (dropWhile_head isWhiteSpace s) as Hh. fold (trimStart s) in Hh.
  destruct (trimEnd (trimStart s)) as [|c t]; [reflexivity|].
  rewrite Hd in Hh. exact Hh.
Qed.

Lemma trim_empty_blank (s : str) :
  trim s = [] -> forallb isWhiteSpace s = true.
Proof.
  intros H. unfold trim in H.
  destruct (trimEnd_decompose (trimStart s)) as [Hd Hb].
  rewrite H in Hd. cbn [app] in Hd. rewrite <- Hd in Hb.
  rewrite <- (takeWhile_dropWhile isWhiteSpace s).
  rewrite forallb_app, takeWhile_forallb. exact Hb.
Qed.

Lemma splitLoop_tokens :
  forall fuel aft bef piece,
    2 * length aft < fuel ->
    endsClean aft ->
    (piece = [] -> isSpaceAt aft = false) ->
    (piece <> [] \/ aft <> []) ->
    splitLoop fuel whiteSpacesRe bef piece aft = tokensFrom piece aft.
Proof.
  induction fuel as [|fuel IH]; intros aft bef piece Hfuel Hclean Hstart Hne;
    [lia|].
  destruct aft as [|ch rest].
  - cbn [splitLoop tokensFrom]. destruct piece; [|reflexivity].
    destruct Hne; congruence.
  - cbn [splitLoop]. rewrite matchAt_whiteSpacesRe.
    cbn [takeWhile dropWhile tokensFrom].
    destruct (isWhiteSpace ch) eqn:Hch.
    + assert (Hpiece : piece <> []).
      { intros ->. specialize (Hstart eq_refl). cbn in Hstart. congruence. }
      pose proof (dropWhile_length isWhiteSpace rest) as Hlen.
      replace (length (dropWhile isWhiteSpace rest) =? length (ch :: rest))
        with false by (symmetry; apply Nat.eqb_neq; cbn [length]; lia).
      cbn [andb]. destruct piece as [|p0 piece]; [congruence|].
      f_equal. rewrite <- (tokensFrom_dropWhile rest). apply IH.
      * cbn [length] in Hfuel. lia.
      * apply endsClean_dropWhile. now apply endsClean_tail in Hclean.
      * intros _. pose proof (dropWhile_head isWhiteSpace rest) as Hh.
        destruct (dropWhile isWhiteSpace rest); [reflexivity | exact Hh].
      * right. pose proof (endsClean_not_blank Hclean) as Hnb.
        cbn [dropWhile] in Hnb. rewrite Hch in Hnb. apply Hnb. discriminate.
    + apply IH.
      * cbn [length] in Hfuel. lia.
      * now apply endsClean_tail in Hclean.
      * discriminate.
      * left. discriminate.
Qed.

Lemma split_trim (s : str) :
  split whiteSpacesRe (trim s) =
  match trim s with
  | [] => [[]]
  | _ :: _ => tokens s
  end.
Proof.
  pose proof (trim_endsClean s) as Hc. pose proof (trim_starts s) as Hs.
  rewrite <- (tokens_trim s). unfold split, tokens.
  destruct (trim s) as [|c t] eqn:E.
  - now rewrite matchAt_whiteSpacesRe.
  - apply splitLoop_tokens; [lia | exact Hc | now intros _ | right; discriminate].
Qed.

Lemma trim_tokens_nonempty (s : str) : trim s <> [] -> tokens s <> [].
Proof.
  intros H. rewrite <- tokens_trim. pose proof (trim_starts s) as Hs.
  unfold tokens. destruct (trim s) as [|c t]; [congruence|].
  cbn [tokensFrom]. cbn [isSpaceAt] in Hs. rewrite Hs.
  apply tokensFrom_nonempty. discriminate.
Qed.

Lemma includes_char (s : str) (c : ascii) :
  includes s [c] = existsb (Ascii.eqb c) s.
Proof.
  induction s as [|ch s IH]; [reflexivity|].
  cbn [includes startsWith existsb]. rewrite IH.
  destruct s; now rewrite andb_true_r.
Qed.

Lemma includes_char_In (s : str) (c : ascii) :
  includes s [c] = true <-> In c s.
Proof.
  rewrite includes_char, existsb_exists. split.
  - intros [x [Hx E]]. apply Ascii.eqb_eq in E. now subst.
  - intros H. exists c. split; [exact H | apply Ascii.eqb_refl].
Qed.

(* ================================================================== *)
(** * Properties of the classifier *)

(** ** The subject message and the bare text *)

Lemma lastOf_nonempty (A : Type) (l : list A) :
  l <> [] -> exists a, lastOf l = Some a.
Proof.
  intros H. unfold lastOf. destruct (rev l) as [|a r] eqn:E; [|now exists a].
  apply (f_equal (@rev A)) in E. rewrite rev_involutive in E. now subst.
Qed.

Lemma lastUserMessage_nonempty (messages : list NewMessage) :
  messages <> [] -> exists m, lastUserMessage messages = Some m.
Proof.
  intros H. unfold lastUserMessage.
  destruct (filter _ messages) as [|u us] eqn:E; cbn [length Nat.ltb Nat.leb].
  - now apply lastOf_nonempty.
  - apply lastOf_nonempty. discriminate.
Qed.

Lemma lastUserMessage_some (messages : list NewMessage) (m : NewMessage) :
  lastUserMessage messages = Some m -> messages <> [].
Proof. intros H ->. discriminate H. Qed.

Lemma extractLastUserText_bare (messages : list NewMessage) (m : NewMessage) :
  lastUserMessage messages = Some m ->
  extractLastUserText messages = Ok (bareText (content m)).
Proof.
  intros H. unfold extractLastUserText, lastUserContent, bareText. rewrite H.
  cbn [bind]. now rewrite replace_mentionRe, replace_localPrefixRe.
Qed.

Lemma mentionStripped_spec (messages : list NewMessage) (m : NewMessage) :
  lastUserMessage messages = Some m ->
  mentionStripped messages = Ok (trim (stripMention (content m))).
Proof.
  intros H. unfold mentionStripped, lastUserContent. rewrite H.
  cbn [bind]. now rewrite replace_mentionRe.
Qed.

(** ** The simple-question rule *)

Lemma lettersOnly_nil : lettersOnly [] = [].
Proof. reflexivity. Qed.

Lemma blank_no_question (s : str) :
  forallb isWhiteSpace s = true -> ~ In "?"%char s.
Proof.
  intros H Hin. rewrite forallb_forall in H. specialize (H _ Hin).
  discriminate H.
Qed.

Lemma command_starters_nonempty : ~ In ([] : str) COMMAND_STARTERS.
Proof. cbn. intros [H|[H|[]]]; discriminate H. Qed.

Lemma isSimpleQuestion_spec (cfg : RoutingConfig) (text : str) :
  exists b : bool,
    isSimpleQuestion text (maxWordsForSimple (routing cfg))
      (simpleStarters (routing cfg)) = Ok b /\
    (b = true <-> simpleCondition cfg text).
Proof.
  unfold isSimpleQuestion, simpleCondition, firstWord.
  rewrite split_trim.
  destruct (trim text) as [|c t] eqn:Etrim.
  - (* a blank text: one empty word *)
    assert (Htok : tokens text = []) by (rewrite <- tokens_trim, Etrim; reflexivity).
    assert (Hq : ~ In "?"%char text)
      by (apply blank_no_question, trim_empty_blank, Etrim).
    assert (Hinc : includes text (js "?") = false).
    { destruct (includes text (js "?")) eqn:E; [|reflexivity].
      apply includes_char_In in E. contradiction. }
    rewrite Htok. cbn [hd]. rewrite lettersOnly_nil.
    exists false. split.
    + destruct (_ >? _)%Z; [reflexivity|].
      cbn [toLowerCase map]. rewrite replaceAll_notLowerLetterRe. cbn [filter].
      destruct (array_includes (simpleStarters (routing cfg)) []); cbn [negb];
        [|reflexivity].
      rewrite Hinc. reflexivity.
    + split; [discriminate|]. intros (_ & _ & [H|H]).
      * now apply command_starters_nonempty in H.
      * contradiction.
  - assert (Hne : tokens text <> []) by (apply trim_tokens_nonempty; congruence).
    destruct (tokens text) as [|w0 ws] eqn:Etok; [congruence|]. cbn [hd].
    rewrite replaceAll_notLowerLetterRe. fold (lettersOnly w0).
    destruct (Z.gtb_spec (Z.of_nat (length (w0 :: ws)))
                (maxWordsForSimple (routing cfg))) as [Hgt|Hle].
    + exists false. split; [reflexivity|]. split; [discriminate|].
      intros (H & _). lia.
    + destruct (array_includes (simpleStarters (routing cfg)) (lettersOnly w0))
        eqn:Est; cbn [negb].
      * eexists. split; [reflexivity|].
        rewrite orb_true_iff, !array_includes_In.
        change (js "?") with ["?"%char]. rewrite includes_char_In.
        apply array_includes_In in Est. tauto.
      * exists false. split; [reflexivity|]. split; [discriminate|].
        intros (_ & H & _). apply array_includes_In in H. congruence.
Qed.

(** ** The configuration cache *)

Lemma classifyMessages_policy (w : World) (messages : list NewMessage) :
  fst (classifyMessages w messages) = classify (policyOf w) messages.
Proof.
  unfold classifyMessages, policyOf. now destruct (loadConfig w).
Qed.

Lemma loadConfig_requests (w : World) :
  requests (snd (loadConfig w)) = requests w.
Proof.
  unfold loadConfig. destruct (cachedConfig w); [reflexivity|].
  now destruct (configFile w).
Qed.

Lemma loadConfig_again (w : World) (cfg : RoutingConfig) :
  fst (loadConfig w) = Some cfg ->
  loadConfig (snd (loadConfig w)) = (Some cfg, snd (loadConfig w)).
Proof.
  unfold loadConfig. destruct (cachedConfig w) as [c|] eqn:Ec.
  - cbn [fst snd]. intros [= ->]. now rewrite Ec.
  - destruct (configFile w) as [c|]; cbn [fst snd]; [|discriminate].
    now intros [= ->].
Qed.

(** A configuration file that is missing or unreadable, with nothing cached
    yet, leaves no policy. *)
Lemma missing_file_no_policy (w : World) :
  configFile w = None -> cachedConfig w = None -> policyOf w = None.
Proof. unfold policyOf, loadConfig. now intros -> ->. Qed.

(** ** The decision, rule by rule *)

Lemma classify_enabled (cfg : RoutingConfig) (messages : list NewMessage)
    (m : NewMessage) :
  enabled cfg = true ->
  lastUserMessage messages = Some m ->
  classify (Some cfg) messages =
  if beginsWithLocalDirective (trim (stripMention (content m)))
  then Ok OllamaForced
  else
    private <- hasPrivacyKeyword messages (privacyKeywords (routing cfg)) ;;
    if private then Ok OllamaPrivacy
    else
      easy <- isSimpleQuestion (bareText (content m))
                (maxWordsForSimple (routing cfg))
                (simpleStarters (routing cfg)) ;;
      if easy then Ok OllamaSimple else Ok Claude.
Proof.
  intros He Hm. unfold classify. rewrite He. cbn [negb].
  rewrite (mentionStripped_spec _ Hm). cbn [bind].
  rewrite test_localDirectiveRe.
  now rewrite (@extractLastUserText_bare messages m Hm).
Qed.

(** C1, amended: for a non-empty conversation whose subject text, with a
    leading mention removed as the router removes it (a token that starts
    with [@], and the white space after it) and trimmed, begins with the
    token [!local] in any letter case, and an enabled policy, the decision
    is forced-local, whatever the length and content of the message and
    whatever the privacy keywords are. *)
Theorem forced_local_overrides (w : World) (cfg : RoutingConfig)
    (messages : list NewMessage) (m : NewMessage) :
  policyOf w = Some cfg ->
  enabled cfg = true ->
  lastUserMessage messages = Some m ->
  beginsWithLocalDirective (trim (stripMention (content m))) = true ->
  fst (classifyMessages w messages) = Ok OllamaForced.
Proof.
  intros Hp He Hm Hl. rewrite classifyMessages_policy, Hp.
  rewrite (@classify_enabled cfg messages m He Hm). now rewrite Hl.
Qed.

(** The decision once the first two rules have passed. *)
Lemma decision_after_first_rules (w : World) (cfg : RoutingConfig)
    (messages : list NewMessage) (m : NewMessage) :
  policyOf w = Some cfg ->
  enabled cfg = true ->
  lastUserMessage messages = Some m ->
  beginsWithLocalDirective (trim (stripMention (content m))) = false ->
  hasPrivacyKeyword messages (privacyKeywords (routing cfg)) = Ok false ->
  (fst (classifyMessages w messages) = Ok OllamaSimple <->
   simpleCondition cfg (bareText (content m))) /\
  (~ simpleCondition cfg (bareText (content m)) ->
   fst (classifyMessages w messages) = Ok Claude).
Proof.
  intros Hp He Hm Hl Hk. rewrite classifyMessages_policy, Hp.
  rewrite (@classify_enabled cfg messages m He Hm), Hl, Hk. cbn [bind].
  destruct (isSimpleQuestion_spec cfg (bareText (content m))) as [b [-> Hb]].
  cbn [bind]. destruct b.
  - split; [tauto|]. intros Hn. exfalso. apply Hn. now apply Hb.
  - split; [|reflexivity]. split; [discriminate|].
    intros Hc. apply Hb in Hc. discriminate.
Qed.

(* ================================================================== *)
(** * Properties of the backend call *)

Lemma getProperty_field (data : Json) (k : str) :
  data <> JNull -> getProperty data k = Ok (field data k).
Proof. destruct data; [congruence | reflexivity | reflexivity]. Qed.

(** What the [try] block does with a payload. *)
Lemma payload_outcome (data : Json) :
  (exists text, bind (getProperty data (js "done")) (fun done =>
                bind (getProperty data (js "response")) (fun response =>
                if negb (truthy done) then Throw OllamaFormatError
                else match response with
                     | Some (VString text) => Ok (trim text)
                     | _ => Throw OllamaFormatError
                     end)) = Ok text /\
                truthy (field data (js "done")) = true /\
                isText (field data (js "response")) = true) \/
  (exists e, bind (getProperty data (js "done")) (fun done =>
             bind (getProperty data (js "response")) (fun response =>
             if negb (truthy done) then Throw OllamaFormatError
             else match response with
                  | Some (VString text) => Ok (trim text)
                  | _ => Throw OllamaFormatError
                  end)) = Throw e /\
             (e = Native TypeError \/ e = OllamaFormatError) /\
             (truthy (field data (js "done")) = false \/
              isText (field data (js "response")) = false)).
Proof.
  destruct data as [|fields|].
  - right. exists (Native TypeError). cbn. auto.
  - rewrite !getProperty_field by discriminate. cbn [bind].
    destruct (truthy (field (JObject fields) (js "done"))) eqn:Hd; cbn [negb].
    + destruct (field (JObject fields) (js "response")) as [[| | |text|]|] eqn:Hr;
        try (right; exists OllamaFormatError; cbn; auto; fail).
      left. exists (trim text). auto.
    + right. exists OllamaFormatError. auto.
  - right. exists OllamaFormatError. cbn. auto.
Qed.

Ltac break_outcome :=
  repeat match goal with
  | H : _ \/ _ |- _ => destruct H
  | H : exists _, _ |- _ => destruct H
  | H : _ /\ _ |- _ => destruct H
  | H : FetchResolves _ = FetchResolves _ |- _ => injection H as H; subst
  | H : FetchRejects _ = FetchRejects _ |- _ => injection H as H; subst
  | H : FetchResolves _ = FetchRejects _ |- _ => discriminate H
  | H : FetchRejects _ = FetchResolves _ |- _ => discriminate H
  | H : Throw _ = Throw _ |- _ => injection H as H; subst
  | H : Throw _ = Ok _ |- _ => discriminate H
  | H : Ok _ = Throw _ |- _ => discriminate H
  end.

Ltac solve_outcome :=
  intros; break_outcome; try congruence; try discriminate; eauto 8.

(** The outcome of the call, read off what the network did. *)
Lemma queryOllama_outcome (o : FetchOutcome) (timeout : Z) :
  ((exists e, queryOllamaCatch timeout (queryOllamaTry o) = Throw e) <->
   BackendFails o) /\
  (queryOllamaCatch timeout (queryOllamaTry o) = Throw (OllamaTimeout timeout)
   <-> TimedOut o) /\
  (~ BackendFails o ->
   exists text, queryOllamaCatch timeout (queryOllamaTry o) = Ok text).
Proof.
  unfold BackendFails, TransportFails, StatusOutside, BodyUnreadable,
    PayloadMalformed, TimedOut.
  destruct o as [e|res]; cbn [queryOllamaTry].
  - (* the fetch rejects *)
    destruct e; cbn; repeat split; solve_outcome;
      exfalso; eauto.
  - destruct (ok res) eqn:Hok; cbn [negb].
    + destruct (body res) as [e|data] eqn:Hb.
      * (* the body rejects *)
        destruct e; cbn; repeat split; solve_outcome;
          exfalso; eauto 8.
      * destruct (payload_outcome data)
          as [(text & -> & Hd & Hr)|(e & -> & Ha & Hbad)];
          [|destruct Ha as [-> | ->]];
          cbn [queryOllamaCatch isAbortError]; repeat split; solve_outcome;
          try (right; right; right; exists res, data; now auto);
          exfalso; eauto 10.
    + (* the status is outside the success range *)
      cbn; repeat split; solve_outcome. exfalso; eauto 8.
Qed.

(** ** The call under its timer *)

(** A timeout the timer takes as it is. *)
Lemma timerDelay_in_range (timeoutMs : Z) :
  (1 <= timeoutMs <= 2147483647)%Z -> timerDelay timeoutMs = timeoutMs.
Proof.
  intros [H1 H2]. unfold timerDelay.
  apply Z.leb_le in H1, H2. now rewrite H1, H2.
Qed.

(** Any other timeout makes the timer fire after one millisecond. *)
Lemma timerDelay_out_of_range (timeoutMs : Z) :
  (timeoutMs < 1 \/ 2147483647 < timeoutMs)%Z -> timerDelay timeoutMs = 1%Z.
Proof.
  intros H. unfold timerDelay.
  destruct (Z.leb_spec 1 timeoutMs), (Z.leb_spec timeoutMs 2147483647);
    cbn [andb]; try reflexivity; lia.
Qed.

Lemma beatsTimer_false (x : Exchange) (delay : Z) (t : N) :
  beatsTimer x delay t = false <->
  (delay < Z.of_N t)%Z \/ (delay = Z.of_N t /\ timerFirst x = true).
Proof.
  unfold beatsTimer.
  rewrite orb_false_iff, andb_false_iff, Z.ltb_ge, Z.eqb_neq, negb_false_iff.
  split.
  - intros [H1 [H2|H2]]; [left; lia|].
    destruct (Z.eq_dec delay (Z.of_N t)); [right; auto | left; lia].
  - intros [H|[H1 H2]]; [split; [lia | left; lia] | split; [lia | now right]].
Qed.

Lemma beatsTimer_earlier (x : Exchange) (delay : Z) (t u : N) :
  beatsTimer x delay (t + u) = true -> beatsTimer x delay t = true.
Proof.
  intros H. destruct (beatsTimer x delay t) eqn:E; [reflexivity|].
  apply beatsTimer_false in E.
  assert (F : beatsTimer x delay (t + u) = false).
  { apply beatsTimer_false. destruct E as [E|[E1 E2]].
    - left. lia.
    - destruct (N.eq_dec u 0) as [->|Hu].
      + right. rewrite N.add_0_r. auto.
      + left. lia. }
  congruence.
Qed.

(** The timer has fired exactly when the fetch or the reading of the body is
    aborted. *)
Lemma fetchWithin_timedOut (delay : Z) (x : Exchange) :
  TimedOut (fetchWithin delay x) <-> TimerExpires delay x.
Proof.
  unfold TimedOut, TimerExpires, fetchWithin, timeNeeded.
  destruct (beatsTimer x delay (settlesAfter x)) eqn:Hs; cbn [negb].
  - destruct (delivery x) as [|st txt bodyTakes text].
    + apply not_false_iff_true in Hs. rewrite beatsTimer_false in Hs.
      split; [|tauto]. intros [H|(res & H & _)]; discriminate H.
    + unfold ok. 
      destruct ((200 <=? st) && (st <=? 299))%Z eqn:Hok.
      * destruct (beatsTimer x delay (settlesAfter x + bodyTakes)) eqn:Hb.
        -- apply not_false_iff_true in Hb. rewrite beatsTimer_false in Hb.
           split; [|tauto]. intros [H|(res & H & _ & Hbody)]; [discriminate H|].
           injection H as <-. cbn [body] in Hbody.
           destruct text; discriminate Hbody.
        -- split; [intros _; now apply beatsTimer_false|].
           intros _. right. eexists. split; [reflexivity|]. cbn [status body].
           auto.
      * apply not_false_iff_true in Hs. rewrite beatsTimer_false in Hs.
        split; [|tauto]. intros [H|(res & H & Hok' & _)]; [discriminate H|].
        injection H as <-. cbn [status] in Hok'. congruence.
  - apply beatsTimer_false in Hs. split; [|auto]. intros _.
    destruct (delivery x) as [|st txt bodyTakes text]; [exact Hs|].
    destruct ((200 <=? st) && (st <=? 299))%Z; [|exact Hs].
    destruct Hs as [Hs|[Hs1 Hs2]]; [left; lia|].
    destruct (N.eq_dec bodyTakes 0) as [->|Hu].
    + right. rewrite N.add_0_r. auto.
    + left. lia.
Qed.

(** The call fails for what the backend does or because the timer fires. *)
Lemma fetchWithin_fails (delay : Z) (x : Exchange) :
  BackendFails (fetchWithin delay x) <->
  BackendFails (unhurried x) \/ TimerExpires delay x.
Proof.
  split.
  - intros H. destruct (beatsTimer x delay (settlesAfter x)) eqn:Hs.
    + unfold fetchWithin in H. rewrite Hs in H. cbn [negb] in H.
      unfold unhurried. destruct (delivery x) as [|st txt bodyTakes text] eqn:Hd.
      * now left.
      * destruct (beatsTimer x delay (settlesAfter x + bodyTakes)) eqn:Hb;
          [now left|].
        destruct ((200 <=? st) && (st <=? 299))%Z eqn:Hok.
        -- right. apply fetchWithin_timedOut. unfold fetchWithin.
           rewrite Hs, Hd, Hb. cbn [negb]. right. eexists.
           split; [reflexivity|]. cbn [status body]. auto.
        -- left. right. left. eexists. split; [reflexivity|]. exact Hok.
    + right. apply fetchWithin_timedOut. unfold fetchWithin. rewrite Hs.
      now left.
  - intros [H|H].
    + unfold fetchWithin.
      destruct (beatsTimer x delay (settlesAfter x)); cbn [negb];
        [|left; now exists AbortError].
      unfold unhurried in H. destruct (delivery x) as [|st txt bodyTakes text];
        [exact H|].
      destruct (beatsTimer x delay (settlesAfter x + bodyTakes)); [exact H|].
      destruct ((200 <=? st) && (st <=? 299))%Z eqn:Hok.
      * right. right. left. do 2 eexists. split; reflexivity.
      * right. left. eexists. split; [reflexivity|]. exact Hok.
    + apply fetchWithin_timedOut in H. destruct H as [H|(res & H & _ & Hb)].
      * left. exists AbortError. exact H.
      * right. right. left. exists res, AbortError. auto.
Qed.

(** C9, amended: with the abort timer firing [timerDelay timeoutMs]
    after the call ([timeoutMs] itself when it lies in 1..2^31-1, else 1 ms),
    the backend call fails exactly when the backend cannot be reached, or
    the HTTP status is outside the success range, or the body cannot be
    read as JSON, or the completed flag of the payload is missing or false
    or its generated text is not a string, or the time the backend needs
    exceeds the delay of the timer (when it needs exactly that time, the
    order in which the runtime handles the timer decides); it fails with
    the dedicated timeout error exactly in the last case, and in every
    other case it returns a text.  For a timeout in 1..2^31-1: a backend
    that needs more than [timeoutMs] makes the call fail with the timeout
    error, and one that needs less never does. *)
Theorem backend_call_failures (backend : Backend) (prompt model url : str)
    (timeout : Z) (w : World) :
  let x := backend url model prompt in
  let delay := timerDelay timeout in
  let r := fst (queryOllama (timedNetwork backend) prompt model url timeout w) in
  ((exists e, r = Throw e) <->
   TransportFails (unhurried x) \/ StatusOutside (unhurried x) \/
   BodyUnreadable (unhurried x) \/ PayloadMalformed (unhurried x) \/
   TimerExpires delay x) /\
  (r = Throw (OllamaTimeout timeout) <-> TimerExpires delay x) /\
  (~ (BackendFails (unhurried x) \/ TimerExpires delay x) ->
   exists text, r = Ok text) /\
  ((1 <= timeout <= 2147483647)%Z ->
   ((timeout < timeNeeded x)%Z -> r = Throw (OllamaTimeout timeout)) /\
   ((timeNeeded x < timeout)%Z -> r <> Throw (OllamaTimeout timeout))).
Proof.
  cbv zeta. unfold queryOllama, timedNetwork.
  cbn [fst req_timeoutMs req_baseUrl req_model req_prompt].
  destruct (queryOllama_outcome
              (fetchWithin (timerDelay timeout) (backend url model prompt))
              timeout) as (Hfail & Htime & Hok).
  rewrite fetchWithin_fails in Hfail, Hok. rewrite fetchWithin_timedOut in Htime.
  split; [|split; [assumption | split; [assumption|]]].
  - rewrite Hfail. unfold BackendFails. tauto.
  - intros Hrange. rewrite Htime, (timerDelay_in_range Hrange).
    unfold TimerExpires. split; [tauto | lia].
Qed.

(* ================================================================== *)
(** * Properties of the dispatcher *)

Lemma modelFor_requestFor (cfg : RoutingConfig) (d : RouteDecision) (bare : str) :
  mkRequest (baseUrl (ollama cfg)) (modelFor cfg d) bare false
    (timeoutMs (ollama cfg)) = requestFor cfg d bare.
Proof. now destruct d. Qed.

(** The dispatcher on a local decision: one request, and the reply or the
    fall-back according to the outcome of the call. *)
Lemma dispatch_local (net : Network) (w : World) (cfg : RoutingConfig)
    (messages : list NewMessage) (m : NewMessage) (d : RouteDecision)
    (groupName : str) :
  policyOf w = Some cfg ->
  enabled cfg = true ->
  lastUserMessage messages = Some m ->
  fst (classifyMessages w messages) = Ok d ->
  isClaude d = false ->
  fst (tryOllamaRoute net w messages groupName) =
    match queryOllamaCatch (timeoutMs (ollama cfg))
            (queryOllamaTry (net (requestFor cfg d (bareText (content m))))) with
    | Ok response =>
        Ok (Some (mkReply (if isPrivacy d then PrivateIndicator
                           else LocalIndicator) response))
    | Throw _ => Ok None
    | Unmodelled => Unmodelled
    end /\
  requests (snd (tryOllamaRoute net w messages groupName)) =
    requests w ++ [requestFor cfg d (bareText (content m))].
Proof.
  intros Hp He Hm Hd Hc.
  rewrite classifyMessages_policy, Hp in Hd.
  pose proof (@loadConfig_again w cfg Hp) as Hagain.
  pose proof (loadConfig_requests w) as Hreq.
  unfold tryOllamaRoute, classifyMessages. unfold policyOf in Hp.
  destruct (loadConfig w) as [loaded w1]. cbn [fst snd] in *. subst loaded.
  rewrite He. cbn [negb]. rewrite Hagain, Hd, Hc.
  rewrite (@extractLastUserText_bare messages m Hm).
  unfold queryOllama. rewrite modelFor_requestFor.
  destruct (queryOllamaCatch _ _); cbn [fst snd requests]; now rewrite Hreq.
Qed.

(** C8, amended: for a non-empty conversation the bare text is the content
    of the subject message with a leading mention removed (an [@], one or
    more code units that are not white space, and the white space after
    them), then a leading [!local] in any letter case with the white space
    after it removed, then trimmed; the classifier extracts it for its
    simple-question rule and the dispatcher sends it as the prompt. *)
Theorem bare_text_is_extracted (messages : list NewMessage) :
  messages <> [] ->
  exists m,
    lastUserMessage messages = Some m /\
    extractLastUserText messages = Ok (bareText (content m)) /\
    (forall net w cfg d groupName,
        policyOf w = Some cfg -> enabled cfg = true ->
        fst (classifyMessages w messages) = Ok d -> d <> Claude ->
        exists request,
          requests (snd (tryOllamaRoute net w messages groupName)) =
            requests w ++ [request] /\
          req_prompt request = bareText (content m)).
Proof.
  intros H. destruct (lastUserMessage_nonempty H) as [m Hm].
  exists m. split; [exact Hm|]. split; [now apply extractLastUserText_bare|].
  intros net w cfg d groupName Hp He Hd Hc.
  assert (Hc' : isClaude d = false) by (destruct d; try reflexivity; congruence).
  destruct (@dispatch_local net w cfg messages m d groupName Hp He Hm Hd Hc')
    as [_ Hr].
  exists (requestFor cfg d (bareText (content m))). auto.
Qed.

(** C5: for a non-empty conversation on which the decision is local, when
    the backend call fails for any reason (the request fails, the status is
    outside the success range, the body or the payload is malformed, the
    timer fires), the dispatcher returns absent and raises nothing. *)
Theorem backend_failure_falls_back (net : Network) (w : World)
    (cfg : RoutingConfig) (messages : list NewMessage) (m : NewMessage)
    (d : RouteDecision) (groupName : str) :
  policyOf w = Some cfg ->
  enabled cfg = true ->
  lastUserMessage messages = Some m ->
  fst (classifyMessages w messages) = Ok d ->
  d <> Claude ->
  BackendFails (net (requestFor cfg d (bareText (content m)))) ->
  fst (tryOllamaRoute net w messages groupName) = Ok None.
Proof.
  intros Hp He Hm Hd Hc Hfail.
  assert (Hc' : isClaude d = false) by (destruct d; try reflexivity; congruence).
  destruct (@dispatch_local net w cfg messages m d groupName Hp He Hm Hd Hc') as [-> _].
  apply (queryOllama_outcome (net (requestFor cfg d (bareText (content m)))) (timeoutMs (ollama cfg))) in Hfail.
  destruct Hfail as [e ->]. reflexivity.
Qed.

(** C7: when the dispatcher issues a backend call, it is one request, whose
    prompt is the bare text and whose model is the [simple] model exactly
    for the simple-local decision and the [general] model for the other
    local decisions (forced-local and privacy-local). *)
Theorem model_selection (net : Network) (w : World)
    (cfg : RoutingConfig) (messages : list NewMessage) (m : NewMessage)
    (d : RouteDecision) (groupName : str) :
  policyOf w = Some cfg ->
  enabled cfg = true ->
  lastUserMessage messages = Some m ->
  fst (classifyMessages w messages) = Ok d ->
  d <> Claude ->
  exists request,
    requests (snd (tryOllamaRoute net w messages groupName)) =
      requests w ++ [request] /\
    req_prompt request = bareText (content m) /\
    req_model request =
      match d with
      | OllamaSimple => simple (models (ollama cfg))
      | _ => general (models (ollama cfg))
      end.
Proof.
  intros Hp He Hm Hd Hc.
  assert (Hc' : isClaude d = false) by (destruct d; try reflexivity; congruence).
  destruct (@dispatch_local net w cfg messages m d groupName Hp He Hm Hd Hc') as [_ Hr].
  exists (requestFor cfg d (bareText (content m))). auto.
Qed.

(** C10: when the policy is disabled, or unavailable because the
    configuration file is missing or cannot be parsed, the decision is
    remote and the dispatcher returns absent without any backend call. *)
Theorem disabled_policy_routes_remote (net : Network) (w : World)
    (messages : list NewMessage) (groupName : str) :
  policyOff w ->
  fst (classifyMessages w messages) = Ok Claude /\
  fst (tryOllamaRoute net w messages groupName) = Ok None /\
  requests (snd (tryOllamaRoute net w messages groupName)) = requests w.
Proof.
  unfold policyOff. intros Hoff.
  pose proof (loadConfig_requests w) as Hreq.
  rewrite classifyMessages_policy. unfold policyOf, tryOllamaRoute.
  destruct (loadConfig w) as [[cfg|] w1]; cbn [fst snd] in *.
  - unfold classify. rewrite Hoff. cbn [negb fst snd]. auto.
  - cbn [classify fst snd]. auto.
Qed.

(* ================================================================== *)
(** * The pattern of a plain keyword *)

Lemma keywordTerms_gap (k : str) :
  keywordTerms true k = keywordTerms false (dropWhile isWhiteSpace k).
Proof.
  induction k as [|c k IH]; [reflexivity|].
  cbn [keywordTerms dropWhile]. destruct (isWhiteSpace c) eqn:Hc; [exact IH|].
  cbn [keywordTerms]. now rewrite Hc.
Qed.

Lemma keywordTerms_word (w r : str) :
  forallb notWhiteSpace w = true ->
  keywordTerms false (w ++ r) = map lit w ++ keywordTerms false r.
Proof.
  induction w as [|c w IH]; intros H; [reflexivity|].
  cbn [forallb] in H. apply andb_true_iff in H as [Hc Hw].
  unfold notWhiteSpace in Hc. apply negb_true_iff in Hc.
  cbn [app keywordTerms map]. rewrite Hc. now rewrite IH.
Qed.

Lemma keywordTerms_blank (gap r : str) :
  gap <> [] -> forallb isWhiteSpace gap = true ->
  keywordTerms false (gap ++ r) =
  whiteSpacesRe :: keywordTerms false (dropWhile isWhiteSpace r).
Proof.
  intros Hne Hg. destruct gap as [|g gap]; [congruence|].
  cbn [forallb] in Hg. apply andb_true_iff in Hg as [Hg Hgap].
  cbn [app keywordTerms]. rewrite Hg. f_equal. rewrite keywordTerms_gap.
  f_equal. clear -Hgap. induction gap as [|c gap IH]; [reflexivity|].
  cbn [forallb] in Hgap. apply andb_true_iff in Hgap as [Hc Hgap].
  cbn [app dropWhile]. rewrite Hc. now apply IH.
Qed.

(** The terms of a keyword, word by word. *)
Lemma keywordTerms_spans (k : str) :
  keywordTerms false k =
  map lit (takeWhile notWhiteSpace k) ++
  match dropWhile notWhiteSpace k with
  | [] => []
  | _ :: _ =>
      whiteSpacesRe ::
      keywordTerms false (dropWhile isWhiteSpace (dropWhile notWhiteSpace k))
  end.
Proof.
  rewrite <- (takeWhile_dropWhile notWhiteSpace k) at 1.
  rewrite keywordTerms_word by apply takeWhile_forallb. f_equal.
  pose proof (dropWhile_head notWhiteSpace k) as Hh.
  destruct (dropWhile notWhiteSpace k) as [|c r]; [reflexivity|].
  apply notWhiteSpace_false in Hh.
  change (c :: r) with ([c] ++ r) at 1.
  rewrite keywordTerms_blank; [|discriminate|cbn; now rewrite Hh].
  cbn [dropWhile]. now rewrite Hh.
Qed.

(** ** Parsing *)

Lemma pushLits_alts (lits : str) :
  forall cur, alts (pushLits cur lits) = alts cur.
Proof.
  induction lits as [|c lits IH]; intros cur; [reflexivity|].
  cbn [pushLits fold_left]. fold (pushLits (pushTerm cur (lit c) true) lits).
  now rewrite IH.
Qed.

Lemma pushLits_terms (lits : str) :
  forall cur, terms (pushLits cur lits) = rev (map lit lits) ++ terms cur.
Proof.
  induction lits as [|c lits IH]; intros cur; [reflexivity|].
  cbn [pushLits fold_left]. fold (pushLits (pushTerm cur (lit c) true) lits).
  rewrite IH. cbn [pushTerm terms map rev]. now rewrite <- app_assoc.
Qed.

Lemma parse_plain_char (c : ascii) (rest : str) (stack : list Frame)
    (cur : Frame) :
  isSyntaxChar c = false ->
  parsePattern (c :: rest) stack cur =
  parsePattern rest stack (pushTerm cur (lit c) true).
Proof.
  intros H. cbn [parsePattern]. rewrite H.
  destruct (plain_char_dispatch c H)
    as (-> & -> & -> & -> & -> & -> & -> & -> & _).
  reflexivity.
Qed.

Lemma parse_plain_run (lits : str) :
  forall rest stack cur,
    noSyntaxChar lits = true ->
    parsePattern (lits ++ rest) stack cur =
    parsePattern rest stack (pushLits cur lits).
Proof.
  induction lits as [|c lits IH]; intros rest stack cur H; [reflexivity|].
  cbn [noSyntaxChar forallb] in H. apply andb_true_iff in H as [Hc Hl].
  apply negb_true_iff in Hc.
  cbn [app]. rewrite (@parse_plain_char c (lits ++ rest) stack cur Hc). now apply IH.
Qed.

Lemma parse_gap (rest : str) (stack : list Frame) (cur : Frame) :
  startsWithQuestion rest = false ->
  parsePattern (js "\s+" ++ rest) stack cur =
  parsePattern rest stack (mkFrame (alts cur) (whiteSpacesRe :: terms cur) false).
Proof.
  intros H. destruct rest as [|c rest]; [reflexivity|].
  cbn [startsWithQuestion] in H.
  destruct c as [[] [] [] [] [] [] [] []]; try reflexivity; discriminate H.
Qed.

Lemma parse_closing_boundary (cur : Frame) :
  parsePattern (js "\b") [] cur =
  Compiled (closeFrame (pushTerm cur (WordB false) false)).
Proof. reflexivity. Qed.

Lemma noSyntaxChar_dropWhile (p : ascii -> bool) (s : str) :
  noSyntaxChar s = true -> noSyntaxChar (dropWhile p s) = true.
Proof.
  induction s as [|c s IH]; intros H; [reflexivity|].
  cbn [dropWhile]. destruct (p c); [|exact H].
  cbn [noSyntaxChar forallb] in H. apply andb_true_iff in H as [_ H].
  now apply IH.
Qed.

Lemma noSyntaxChar_takeWhile (p : ascii -> bool) (s : str) :
  noSyntaxChar s = true -> noSyntaxChar (takeWhile p s) = true.
Proof.
  induction s as [|c s IH]; intros H; [reflexivity|].
  cbn [noSyntaxChar forallb] in H. apply andb_true_iff in H as [Hc H].
  cbn [takeWhile]. destruct (p c); [|reflexivity].
  cbn [noSyntaxChar forallb]. rewrite Hc. now apply IH.
Qed.

Lemma plain_head_not_question (s t : str) :
  noSyntaxChar s = true -> startsWithQuestion t = false ->
  startsWithQuestion (s ++ t) = false.
Proof.
  intros Hs Ht. destruct s as [|c s]; [exact Ht|].
  cbn [noSyntaxChar forallb] in Hs. apply andb_true_iff in Hs as [Hc _].
  apply negb_true_iff in Hc. cbn [app startsWithQuestion].
  now destruct (plain_char_dispatch c Hc) as (_ & _ & _ & _ & _ & _ & _ & _ & ->).
Qed.

(** One round of the global replacement of [\s+]. *)
Lemma replaceLoop_whiteSpaces (fuel : nat) (replacement bef k : str) :
  replaceLoop (S fuel) whiteSpacesRe replacement bef k =
  match dropWhile notWhiteSpace k with
  | [] => k
  | _ :: _ =>
      let gap := takeWhile isWhiteSpace (dropWhile notWhiteSpace k) in
      takeWhile notWhiteSpace k ++ replacement ++
      replaceLoop fuel whiteSpacesRe replacement
        (rev gap ++ rev (takeWhile notWhiteSpace k) ++ bef)
        (dropWhile isWhiteSpace (dropWhile notWhiteSpace k))
  end.
Proof.
  cbn [replaceLoop]. rewrite search_whiteSpacesRe.
  pose proof (dropWhile_head notWhiteSpace k) as Hh.
  destruct (dropWhile notWhiteSpace k) as [|c r]; [reflexivity|].
  apply notWhiteSpace_false in Hh.
  cbv zeta. cbn [endState matched skipped takeWhile]. rewrite Hh. reflexivity.
Qed.

Lemma replaced_head_not_question (fuel : nat) (bef k : str) :
  noSyntaxChar k = true ->
  startsWithQuestion
    (replaceLoop fuel whiteSpacesRe (js "\s+") bef k ++ js "\b") = false.
Proof.
  intros Hk. destruct fuel as [|fuel].
  - cbn [replaceLoop]. now apply plain_head_not_question.
  - rewrite replaceLoop_whiteSpaces.
    destruct (dropWhile notWhiteSpace k) as [|c r] eqn:Hd.
    + now apply plain_head_not_question.
    + cbv zeta. rewrite <- app_assoc.
      apply plain_head_not_question; [now apply noSyntaxChar_takeWhile|].
      reflexivity.
Qed.

(** The parser on the pattern text of a keyword without syntax character. *)
Lemma parse_keyword :
  forall fuel k bef cur,
    length k < fuel ->
    noSyntaxChar k = true ->
    parsePattern
      (replaceLoop fuel whiteSpacesRe (js "\s+") bef k ++ js "\b") [] cur =
    Compiled
      (closeFrame
         (mkFrame (alts cur)
            (WordB false :: rev (keywordTerms false k) ++ terms cur) false)).
Proof.
  induction fuel as [|fuel IH]; intros k bef cur Hlen Hk; [lia|].
  rewrite replaceLoop_whiteSpaces, (keywordTerms_spans k).
  pose proof (takeWhile_dropWhile notWhiteSpace k) as Hsplit.
  destruct (dropWhile notWhiteSpace k) as [|c r] eqn:Hd.
  - rewrite app_nil_r in Hsplit. rewrite Hsplit, app_nil_r.
    rewrite parse_plain_run by exact Hk. rewrite parse_closing_boundary.
    unfold pushTerm. now rewrite pushLits_alts, pushLits_terms.
  - cbv zeta. rewrite <- !app_assoc.
    rewrite parse_plain_run by now apply noSyntaxChar_takeWhile.
    assert (Hrest : noSyntaxChar (dropWhile isWhiteSpace (c :: r)) = true).
    { apply noSyntaxChar_dropWhile. rewrite <- Hd.
      now apply noSyntaxChar_dropWhile. }
    rewrite parse_gap by now apply replaced_head_not_question.
    rewrite IH; [| |exact Hrest].
    + cbn [alts terms]. rewrite pushLits_alts, pushLits_terms.
      do 3 f_equal. rewrite rev_app_distr. cbn [rev].
      now rewrite <- !app_assoc.
    + pose proof (dropWhile_head notWhiteSpace k) as Hh. rewrite Hd in Hh.
      apply notWhiteSpace_false in Hh. cbn [dropWhile]. rewrite Hh.
      pose proof (dropWhile_length isWhiteSpace r) as H1.
      apply (f_equal (@length ascii)) in Hsplit.
      rewrite length_app in Hsplit. cbn [length] in Hsplit. lia.
Qed.

Lemma toLowerCase_noSyntaxChar (s : str) :
  noSyntaxChar (toLowerCase s) = noSyntaxChar s.
Proof.
  induction s as [|c s IH]; [reflexivity|].
  cbn [toLowerCase map noSyntaxChar forallb].
  rewrite toLowerChar_syntaxChar. f_equal. exact IH.
Qed.

Lemma plainKeyword_parts (kw : str) :
  plainKeyword kw = true ->
  noSyntaxChar (toLowerCase kw) = true /\
  isWordAt (toLowerCase kw) = true /\
  isWordAt (rev (toLowerCase kw)) = true.
Proof.
  unfold plainKeyword. rewrite !andb_true_iff. intros [[H1 H2] H3].
  split; [|split].
  - now rewrite toLowerCase_noSyntaxChar.
  - destruct kw as [|c kw]; [discriminate|]. cbn [toLowerCase map isWordAt] in *.
    now rewrite toLowerChar_wordChar.
  - unfold toLowerCase. rewrite <- map_rev.
    destruct (rev kw) as [|c r]; [discriminate|]. cbn [map isWordAt] in *.
    now rewrite toLowerChar_wordChar.
Qed.

(** [new RegExp] on the pattern of a plain keyword. *)
Lemma newRegExp_plainKeyword (kw : str) :
  plainKeyword kw = true ->
  newRegExp (keywordPattern kw) = Ok (keywordRe kw).
Proof.
  intros H. apply plainKeyword_parts in H as (Hs & _ & _).
  unfold newRegExp, compilePattern, keywordPattern, replaceAll.
  change (parsePattern (js "\b" ++ ?rest) [] emptyFrame)
    with (parsePattern rest [] (pushTerm emptyFrame (WordB false) false)).
  rewrite parse_keyword; [|lia|exact Hs].
  unfold keywordRe, closeFrame. cbn [alts terms pushTerm emptyFrame rev app].
  rewrite rev_app_distr, rev_involutive. reflexivity.
Qed.

(** ** Matching *)

Lemma blank_app_head (gap rest : str) (c : ascii) (k : str) :
  gap <> [] -> forallb isWhiteSpace gap = true ->
  gap ++ rest = c :: k -> isWhiteSpace c = true.
Proof.
  intros Hne Hall E. destruct gap as [|g gap]; [congruence|].
  cbn [app] in E. injection E as -> _.
  cbn [forallb] in Hall. now apply andb_true_iff in Hall as [Hall _].
Qed.

Lemma PhraseMatch_nil (t : str) : PhraseMatch [] t -> t = [].
Proof.
  intros H. remember ([] : str) as k0 eqn:E.
  destruct H as [|c k t Hc Hm|gap gap' c k t Hg Hall Hg' Hall' Hc Hm].
  - reflexivity.
  - discriminate E.
  - destruct gap; [congruence | discriminate E].
Qed.

(** A phrase that starts with a code unit that is not white space is read
    by a text that starts with that code unit. *)
Lemma PhraseMatch_head (c : ascii) (k t : str) :
  isWhiteSpace c = false ->
  PhraseMatch (c :: k) t ->
  exists t', t = c :: t' /\ PhraseMatch k t'.
Proof.
  intros Hc H. remember (c :: k) as k0 eqn:E.
  destruct H as [|c1 k1 t1 Hc1 Hm|gap gap' c1 k1 t1 Hg Hall Hg' Hall' Hc1 Hm].
  - discriminate E.
  - injection E as -> ->. eauto.
  - pose proof (@blank_app_head gap (c1 :: k1) c k Hg Hall E). congruence.
Qed.

(** The text of a phrase ends with the last code unit of the phrase. *)
Lemma PhraseMatch_last (k t : str) :
  PhraseMatch k t ->
  forall c k', rev k = c :: k' -> exists t', rev t = c :: t'.
Proof.
  induction 1 as [|c0 k t Hc0 Hm IH|gap gap' c0 k t Hg Hall Hg' Hall' Hc0 Hm IH];
    intros c k' E.
  - discriminate E.
  - cbn [rev] in E |- *. destruct (rev k) as [|d r] eqn:Er.
    + apply (f_equal (@rev ascii)) in Er. rewrite rev_involutive in Er.
      subst k. apply PhraseMatch_nil in Hm. subst t.
      cbn in E |- *. injection E as <- _. now exists [].
    + cbn [app] in E. injection E as <- _.
      destruct (IH d r eq_refl) as [t' ->]. now exists (t' ++ [c0]).
  - rewrite rev_app_distr in E |- *.
    destruct (rev (c0 :: k)) as [|d r] eqn:Er.
    + apply (f_equal (@length ascii)) in Er. rewrite length_rev in Er.
      discriminate Er.
    + cbn [app] in E. injection E as <- _.
      destruct (IH d r eq_refl) as [t' ->]. now exists (t' ++ rev gap').
Qed.

(** The terms of a phrase accept a text that reads as the phrase. *)
Lemma keywordTerms_accept (A : Type) (k mid : str) :
  PhraseMatch k mid ->
  forall (tail : list Re) (b post : str) (c : Cont A) (v : A),
    matcher (seqOf tail) (rev mid ++ b, post) c = Some v ->
    matcher (seqOf (keywordTerms false k ++ tail)) (b, mid ++ post) c = Some v.
Proof.
  induction 1 as [|c0 k t Hc0 Hm IH|gap gap' c0 k t Hg Hall Hg' Hall' Hc0 Hm IH];
    intros tail b post c v Htail.
  - exact Htail.
  - cbn [keywordTerms]. rewrite Hc0. cbn [app seqOf fold_right].
    rewrite matcher_Seq. unfold lit at 1. rewrite matcher_Chr_cons.
    rewrite Ascii.eqb_refl. apply IH.
    cbn [rev] in Htail. now rewrite <- app_assoc in Htail.
  - rewrite keywordTerms_blank by assumption.
    cbn [dropWhile]. rewrite Hc0.
    cbn [app seqOf fold_right]. rewrite matcher_Seq.
    unfold whiteSpacesRe at 1. rewrite matcher_Rep.
    destruct (PhraseMatch_head Hc0 Hm) as (t' & -> & _).
    rewrite <- app_assoc.
    destruct (@takeWhile_app_stop isWhiteSpace gap' ((c0 :: t') ++ post) Hall' Hc0)
      as [Htake Hdrop].
    apply repeat_set_longest.
    + cbn [after snd]. lia.
    + rewrite Htake. destruct gap'; [congruence | cbn [length]; lia].
    + rewrite Htake, Hdrop. apply IH.
      rewrite rev_app_distr in Htail. now rewrite <- app_assoc in Htail.
Qed.

(** A match at some index is found by the search. *)
Lemma search_finds (r : Re) (post : str) (y : MatchState) :
  forall pre bef,
    matchAt r (rev pre ++ bef, post) = Some y ->
    exists f, search r bef (pre ++ post) = Some f.
Proof.
  induction pre as [|ch pre IH]; intros bef H.
  - cbn [rev app] in H |- *.
    destruct post; cbn [search]; destruct (matchAt r _); eauto;
      discriminate H.
  - cbn [app search]. cbn [rev] in H. rewrite <- app_assoc in H.
    destruct (IH (ch :: bef) H) as [f ->].
    match goal with
    | |- context [match ?e with Some _ => _ | None => _ end] => destruct e
    end; eauto.
Qed.

(** The regular expression of a plain keyword finds every whole-word
    occurrence of the phrase. *)
Lemma keywordRe_finds (kw text : str) :
  plainKeyword kw = true ->
  ContainsPhrase (toLowerCase kw) text ->
  test (keywordRe kw) text = true.
Proof.
  intros Hplain (pre & mid & post & -> & Hm & Hpre & Hpost).
  apply plainKeyword_parts in Hplain as (_ & Hfirst & Hlast).
  assert (Hmid : isWordAt (mid ++ post) = true).
  { destruct (toLowerCase kw) as [|c k]; [discriminate|].
    cbn [isWordAt] in Hfirst.
    destruct (PhraseMatch_head (wordChar_not_whiteSpace _ Hfirst) Hm)
      as (t' & -> & _).
    exact Hfirst. }
  assert (Hend : forall b, isWordAt (rev mid ++ b) = true).
  { intros b. destruct (rev (toLowerCase kw)) as [|c k] eqn:Er; [discriminate|].
    destruct (PhraseMatch_last Hm Er) as [t' ->]. exact Hlast. }
  unfold test.
  destruct (@search_finds (keywordRe kw) (mid ++ post)
              (rev mid ++ rev pre, post) pre []) as [f ->]; [|reflexivity].
  rewrite app_nil_r. unfold matchAt, keywordRe.
  cbn [seqOf fold_right]. rewrite matcher_Seq.
  cbn [matcher]. unfold atWordBoundary. cbn [before after fst snd].
  rewrite Hpre, Hmid. cbn [xorb].
  apply keywordTerms_accept; [exact Hm|].
  cbn [seqOf fold_right matcher]. unfold atWordBoundary.
  cbn [before after fst snd]. now rewrite Hend, Hpost.
Qed.

(** ** What a match of the pattern is

    The converse: whatever the pattern of a plain keyword matches is a
    whole-word occurrence of the phrase. *)

(** A run of literals reads itself. *)
Lemma lits_sound (A : Type) (w : str) :
  forall (tail : list Re) (b s : str) (c : Cont A) (v : A),
    matcher (seqOf (map lit w ++ tail)) (b, s) c = Some v ->
    exists s', s = w ++ s' /\ matcher (seqOf tail) (rev w ++ b, s') c = Some v.
Proof.
  induction w as [|ch w IH]; intros tail b s c v H.
  - now exists s.
  - cbn [map app seqOf fold_right] in H. rewrite matcher_Seq in H.
    destruct s as [|x s]; [discriminate H|].
    unfold lit at 1 in H. rewrite matcher_Chr_cons in H.
    destruct (Ascii.eqb_spec ch x) as [<-|Hne]; [|discriminate H].
    apply IH in H as (s' & -> & H). exists s'. cbn [rev app].
    rewrite <- app_assoc. auto.
Qed.

Lemma PhraseMatch_word (w : str) :
  forallb notWhiteSpace w = true ->
  forall k t, PhraseMatch k t -> PhraseMatch (w ++ k) (w ++ t).
Proof.
  induction w as [|c w IH]; intros Hw k t H; [exact H|].
  cbn [forallb] in Hw. apply andb_true_iff in Hw as [Hc Hw].
  unfold notWhiteSpace in Hc. apply negb_true_iff in Hc.
  cbn [app]. apply PM_char; [exact Hc | now apply IH].
Qed.

(** The terms of a phrase only accept a text that reads as the phrase. *)
Lemma keywordTerms_sound (A : Type) :
  forall n k,
    length k < n ->
    endsClean k ->
    forall (tail : list Re) (b s : str) (c : Cont A) (v : A),
      matcher (seqOf (keywordTerms false k ++ tail)) (b, s) c = Some v ->
      exists mid post,
        s = mid ++ post /\ PhraseMatch k mid /\
        matcher (seqOf tail) (rev mid ++ b, post) c = Some v.
Proof.
  induction n as [|n IH]; intros k Hlen Hclean tail b s c v H; [lia|].
  rewrite keywordTerms_spans in H.
  pose proof (takeWhile_dropWhile notWhiteSpace k) as Hsplit.
  pose proof (takeWhile_forallb notWhiteSpace k) as Hword.
  pose proof (dropWhile_head notWhiteSpace k) as Hhead.
  rewrite <- app_assoc in H.
  apply lits_sound in H as (s1 & -> & H).
  destruct (dropWhile notWhiteSpace k) as [|g r] eqn:Hd.
  - rewrite app_nil_r in Hsplit. cbn [app] in H.
    exists (takeWhile notWhiteSpace k), s1. rewrite Hsplit in *.
    split; [reflexivity|]. split; [|exact H].
    rewrite <- (app_nil_r k). apply PhraseMatch_word; [exact Hword | apply PM_end].
  - apply notWhiteSpace_false in Hhead.
    cbn [app seqOf fold_right] in H. rewrite matcher_Seq in H.
    unfold whiteSpacesRe at 1 in H. rewrite matcher_Rep in H.
    apply repeat_set_sound in H as (gap' & s2 & -> & Hgap' & Hlen' & H).
    assert (Hclean2 : endsClean (dropWhile isWhiteSpace (g :: r))).
    { apply endsClean_dropWhile. rewrite <- Hd. now apply endsClean_dropWhile. }
    assert (Hne2 : dropWhile isWhiteSpace (g :: r) <> []).
    { apply endsClean_not_blank; [|discriminate].
      rewrite <- Hd. now apply endsClean_dropWhile. }
    assert (Hlen2 : length (dropWhile isWhiteSpace (g :: r)) < n).
    { pose proof (dropWhile_length isWhiteSpace r) as H1.
      cbn [dropWhile]. rewrite Hhead.
      apply (f_equal (@length ascii)) in Hsplit.
      rewrite length_app in Hsplit. cbn [length] in Hsplit. lia. }
    fold (seqOf (keywordTerms false (dropWhile isWhiteSpace (g :: r)) ++ tail)) in H.
    apply (IH _ Hlen2 Hclean2) in H as (mid & post & -> & Hm & H).
    exists (takeWhile notWhiteSpace k ++ gap' ++ mid), post.
    split; [now rewrite <- !app_assoc|]. split.
    + rewrite <- Hsplit at 1. apply PhraseMatch_word; [exact Hword|].
      pose proof (takeWhile_dropWhile isWhiteSpace (g :: r)) as Hsplit2.
      pose proof (takeWhile_forallb isWhiteSpace (g :: r)) as Hgap.
      pose proof (dropWhile_head isWhiteSpace (g :: r)) as Hhead2.
      rewrite <- Hsplit2.
      destruct (dropWhile isWhiteSpace (g :: r)) as [|c2 k2]; [congruence|].
      apply PM_space; try assumption.
      * cbn [takeWhile]. rewrite Hhead. discriminate.
      * destruct gap'; [cbn in Hlen'; lia | discriminate].
    + rewrite !rev_app_distr, <- !app_assoc. exact H.
Qed.

(** A successful search is a match at some index. *)
Lemma search_sound (r : Re) :
  forall aft bef f,
    search r bef aft = Some f ->
    exists pre rest y,
      aft = pre ++ rest /\ matchAt r (rev pre ++ bef, rest) = Some y.
Proof.
  induction aft as [|ch aft IH]; intros bef f H; cbn [search] in H.
  - match type of H with
    | context [matchAt ?a ?b] => destruct (matchAt a b) as [y|] eqn:Hm
    end; [|discriminate H].
    exists [], [], y. auto.
  - match type of H with
    | context [matchAt ?a ?b] => destruct (matchAt a b) as [y|] eqn:Hm
    end.
    + now exists [], (ch :: aft), y.
    + match type of H with
      | context [search ?a ?b ?c] => destruct (search a b c) as [f'|] eqn:Hs
      end; [|discriminate H].
      apply IH in Hs as (pre & rest & y & -> & Hy).
      exists (ch :: pre), rest, y. cbn [rev app]. rewrite <- app_assoc. auto.
Qed.

Lemma endsClean_word (s : str) : isWordAt (rev s) = true -> endsClean s.
Proof.
  unfold endsClean. destruct (rev s) as [|c r]; [reflexivity|].
  cbn [isWordAt isSpaceAt]. apply wordChar_not_whiteSpace.
Qed.

(** The regular expression of a plain keyword finds nothing but whole-word
    occurrences of the phrase. *)
Lemma keywordRe_sound (kw text : str) :
  plainKeyword kw = true ->
  test (keywordRe kw) text = true ->
  ContainsPhrase (toLowerCase kw) text.
Proof.
  intros Hplain Ht. apply plainKeyword_parts in Hplain as (_ & Hfirst & Hlast).
  unfold test in Ht. destruct (search (keywordRe kw) [] text) as [f|] eqn:Hs;
    [|discriminate Ht].
  apply search_sound in Hs as (pre & rest & y & -> & Hy).
  rewrite app_nil_r in Hy. unfold matchAt, keywordRe in Hy.
  cbn [seqOf fold_right] in Hy. rewrite matcher_Seq, matcher_WordB in Hy.
  unfold atWordBoundary in Hy. cbn [before after fst snd] in Hy.
  rewrite xorb_false_r in Hy.
  destruct (xorb (isWordAt (rev pre)) (isWordAt rest)) eqn:Hb; [|discriminate Hy].
  fold (seqOf (keywordTerms false (toLowerCase kw) ++ [WordB false])) in Hy.
  apply (@keywordTerms_sound _ (S (length (toLowerCase kw))) (toLowerCase kw)
           (Nat.lt_succ_diag_r _) (endsClean_word _ Hlast))
    in Hy as (mid & post & -> & Hm & Hy).
  cbn [seqOf fold_right] in Hy. rewrite matcher_Seq, matcher_WordB in Hy.
  unfold atWordBoundary in Hy. cbn [before after fst snd] in Hy.
  rewrite xorb_false_r in Hy.
  destruct (xorb (isWordAt (rev mid ++ rev pre)) (isWordAt post)) eqn:He;
    [|discriminate Hy].
  assert (Hmid : isWordAt (mid ++ post) = true).
  { destruct (toLowerCase kw) as [|c k]; [discriminate|].
    cbn [isWordAt] in Hfirst.
    destruct (PhraseMatch_head (wordChar_not_whiteSpace _ Hfirst) Hm)
      as (t' & -> & _).
    exact Hfirst. }
  assert (Hend : isWordAt (rev mid ++ rev pre) = true).
  { destruct (rev (toLowerCase kw)) as [|c k] eqn:Er; [discriminate|].
    destruct (PhraseMatch_last Hm Er) as [t' ->]. exact Hlast. }
  rewrite Hmid in Hb. rewrite Hend in He.
  exists pre, mid, post. split; [reflexivity|]. split; [exact Hm|].
  split; [now destruct (isWordAt (rev pre)) | now destruct (isWordAt post)].
Qed.

(** A phrase is absent when the test of its pattern fails. *)
Lemma no_phrase_by_test (kw text : str) :
  plainKeyword kw = true ->
  test (keywordRe kw) text = false ->
  ~ ContainsPhrase (toLowerCase kw) text.
Proof.
  intros Hk Ht Hc. rewrite (keywordRe_finds _ Hk Hc) in Ht. discriminate Ht.
Qed.

(** ** The privacy rule on plain keywords *)

Lemma hasPrivacyKeyword_finds (messages : list NewMessage) (keywords : list str)
    (kw : str) :
  forallb plainKeyword keywords = true ->
  In kw keywords ->
  ContainsPhrase (toLowerCase kw)
    (toLowerCase (join (js " ") (map content messages))) ->
  hasPrivacyKeyword messages keywords = Ok true.
Proof.
  unfold hasPrivacyKeyword. intros Hall Hin Hc.
  induction keywords as [|k ks IH]; [contradiction|].
  cbn [forallb] in Hall. apply andb_true_iff in Hall as [Hk Hks].
  cbn [array_some]. rewrite (newRegExp_plainKeyword _ Hk). cbn [bind].
  destruct (test (keywordRe k) _) eqn:Et; [reflexivity|].
  destruct Hin as [->|Hin]; [|now apply IH].
  rewrite (keywordRe_finds _ Hk Hc) in Et. discriminate Et.
Qed.

(** The privacy check on plain keywords: it never raises, and it answers
    true exactly when some keyword occurs as a whole word or phrase. *)
Lemma hasPrivacyKeyword_plain (messages : list NewMessage) (keywords : list str) :
  forallb plainKeyword keywords = true ->
  exists b : bool,
    hasPrivacyKeyword messages keywords = Ok b /\
    (b = true <->
     exists kw, In kw keywords /\
       ContainsPhrase (toLowerCase kw)
         (toLowerCase (join (js " ") (map content messages)))).
Proof.
  unfold hasPrivacyKeyword. intros Hall.
  induction keywords as [|k ks IH].
  - exists false. split; [reflexivity|]. split; [discriminate|].
    now intros (kw & [] & _).
  - cbn [forallb] in Hall. apply andb_true_iff in Hall as [Hk Hks].
    cbn [array_some]. rewrite (newRegExp_plainKeyword _ Hk). cbn [bind].
    destruct (test (keywordRe k) _) eqn:Et.
    + exists true. split; [reflexivity|]. split; [|reflexivity].
      intros _. exists k. split; [now left|]. now apply keywordRe_sound.
    + destruct (IH Hks) as (b & -> & Hb). exists b. split; [reflexivity|].
      rewrite Hb. split.
      * intros (kw & Hin & Hc). exists kw. split; [now right | exact Hc].
      * intros (kw & [<-|Hin] & Hc); [|now exists kw].
        rewrite (keywordRe_finds _ Hk Hc) in Et. discriminate Et.
Qed.

(** No keyword occurs: the check answers false. *)
Lemma hasPrivacyKeyword_misses (messages : list NewMessage) (keywords : list str) :
  forallb plainKeyword keywords = true ->
  (forall kw, In kw keywords ->
     ~ ContainsPhrase (toLowerCase kw)
         (toLowerCase (join (js " ") (map content messages)))) ->
  hasPrivacyKeyword messages keywords = Ok false.
Proof.
  intros Hall Hnone. destruct (hasPrivacyKeyword_plain messages _ Hall) as ([] & -> & Hb);
    [|reflexivity].
  destruct (proj1 Hb eq_refl) as (kw & Hin & Hc). now apply Hnone in Hc.
Qed.


(** C3, amended: for a non-empty conversation and an enabled policy whose
    privacy keywords are plain (no syntax character of the pattern grammar,
    a word character first and last), when the subject text, with a
    leading [@] mention removed and trimmed, does not begin with the token
    [!local] and no keyword occurs as a whole word or phrase in the joined
    lower-case contents, the decision is simple-local exactly when the
    bare text (the router's: only a token that starts with [@] is a
    mention) has at most [maxWordsForSimple] tokens, its first token
    reduced to the letters a-z is among the configured starters, and that
    first token is a command starter or the bare text contains a [?];
    otherwise the decision is remote. *)
Theorem simple_local_rule (w : World) (cfg : RoutingConfig)
    (messages : list NewMessage) (m : NewMessage) :
  policyOf w = Some cfg ->
  enabled cfg = true ->
  lastUserMessage messages = Some m ->
  forallb plainKeyword (privacyKeywords (routing cfg)) = true ->
  beginsWithLocalDirective (trim (stripMention (content m))) = false ->
  (forall kw, In kw (privacyKeywords (routing cfg)) ->
     ~ ContainsPhrase (toLowerCase kw)
         (toLowerCase (join (js " ") (map content messages)))) ->
  (fst (classifyMessages w messages) = Ok OllamaSimple <->
   simpleCondition cfg (bareText (content m))) /\
  (~ simpleCondition cfg (bareText (content m)) ->
   fst (classifyMessages w messages) = Ok Claude).
Proof.
  intros Hp He Hm Hplain Hl Hnone.
  apply (@decision_after_first_rules w cfg messages m Hp He Hm Hl).
  now apply hasPrivacyKeyword_misses.
Qed.

(** C6, amended: under the same conditions on the policy, the directive
    and the keywords, a first word of the bare text (the router's) that is
    in the fixed command-starter set (define, explain) and among the
    starters the policy configures gives simple-local, also when the bare
    text has no [?], provided the bare text has at most
    [maxWordsForSimple] tokens. *)
Theorem command_starter_is_simple (w : World) (cfg : RoutingConfig)
    (messages : list NewMessage) (m : NewMessage) :
  policyOf w = Some cfg ->
  enabled cfg = true ->
  lastUserMessage messages = Some m ->
  forallb plainKeyword (privacyKeywords (routing cfg)) = true ->
  beginsWithLocalDirective (trim (stripMention (content m))) = false ->
  (forall kw, In kw (privacyKeywords (routing cfg)) ->
     ~ ContainsPhrase (toLowerCase kw)
         (toLowerCase (join (js " ") (map content messages)))) ->
  (Z.of_nat (length (tokens (bareText (content m))))
   <= maxWordsForSimple (routing cfg))%Z ->
  In (firstWord (bareText (content m))) COMMAND_STARTERS ->
  In (firstWord (bareText (content m))) (simpleStarters (routing cfg)) ->
  fst (classifyMessages w messages) = Ok OllamaSimple.
Proof.
  intros Hp He Hm Hplain Hl Hnone Hlen Hcmd Hst.
  apply (@decision_after_first_rules w cfg messages m Hp He Hm Hl).
  - now apply hasPrivacyKeyword_misses.
  - unfold simpleCondition. auto.
Qed.

(** A policy whose keywords are all plain never makes the classifier raise:
    every non-empty conversation gets one of the four decisions. *)
Lemma classify_total_on_plain_keywords (w : World) (cfg : RoutingConfig)
    (messages : list NewMessage) :
  policyOf w = Some cfg ->
  messages <> [] ->
  forallb plainKeyword (privacyKeywords (routing cfg)) = true ->
  exists d, fst (classifyMessages w messages) = Ok d.
Proof.
  intros Hp Hne Hall. rewrite classifyMessages_policy, Hp.
  destruct (enabled cfg) eqn:He.
  - destruct (lastUserMessage_nonempty Hne) as [m Hm].
    rewrite (@classify_enabled cfg messages m He Hm).
    destruct (beginsWithLocalDirective _); [eauto|].
    assert (Hk : exists b, hasPrivacyKeyword messages
                             (privacyKeywords (routing cfg)) = Ok b).
    { unfold hasPrivacyKeyword.
      induction (privacyKeywords (routing cfg)) as [|k ks IH]; [now exists false|].
      cbn [forallb] in Hall. apply andb_true_iff in Hall as [Hk Hks].
      cbn [array_some]. rewrite (newRegExp_plainKeyword _ Hk). cbn [bind].
      destruct (test _ _); [now exists true | now apply IH]. }
    destruct Hk as [b ->]. cbn [bind]. destruct b; [eauto|].
    destruct (isSimpleQuestion_spec cfg (bareText (content m))) as [e [-> _]].
    cbn [bind]. destruct e; eauto.
  - unfold classify. rewrite He. cbn [negb]. eauto.
Qed.

(* ================================================================== *)
(** * Worked examples *)

Local Open Scope string_scope.

(** C4: the policy whose one privacy keyword is an opening parenthesis makes
    the classifier raise a SyntaxError on the conversation ["hi"]: the
    pattern [\b(\b] has an unterminated group. *)
Theorem unescaped_keyword_raises :
  fst (classifyMessages (freshWorld (examplePolicy ["("] ["what"])) [msg "hi"])
  = Throw (Native SyntaxError).
Proof. reflexivity. Qed.

(** Examples of the specification. *)

Example what_is_simple :
  fst (classifyMessages (freshWorld (examplePolicy ["social security"] ["what"]))
         [msg "@Andy What is 2+2?"]) = Ok OllamaSimple.
Proof. reflexivity. Qed.

Example social_security_is_private :
  fst (classifyMessages (freshWorld (examplePolicy ["social security"] ["what"]))
         [msg "@Andy my social security number is 123"]) = Ok OllamaPrivacy.
Proof. reflexivity. Qed.

Example joke_is_forced :
  fst (classifyMessages (freshWorld (examplePolicy ["social security"] ["what"]))
         [msg "@Andy !local tell me a joke"]) = Ok OllamaForced.
Proof. reflexivity. Qed.

Example timeout_falls_back :
  fst (tryOllamaRoute slowNetwork
         (freshWorld (examplePolicy ["social security"] ["what"]))
         [msg "@Andy What is 2+2?"] (js "family")) = Ok None.
Proof. reflexivity. Qed.

(** A keyword with a syntax character: the pattern [\b$100\b] matches
    nothing, and the message that contains the keyword goes remote. *)
Example dollar_keyword_is_missed :
  fst (classifyMessages (freshWorld (examplePolicy ["$100"] ["what"]))
         [msg "pay $100 now"]) = Ok Claude.
Proof. reflexivity. Qed.

(** ** Instances of the theorems *)

Lemma forced_local_overrides_witness :
  fst (classifyMessages (freshWorld (examplePolicy ["("; "joke"] ["what"]))
         [msg "@Andy !LOCAL tell me a joke about my password, please?"])
  = Ok OllamaForced.
Proof.
  apply (@forced_local_overrides
           (freshWorld (examplePolicy ["("; "joke"] ["what"]))
           (examplePolicy ["("; "joke"] ["what"])
           [msg "@Andy !LOCAL tell me a joke about my password, please?"]
           (msg "@Andy !LOCAL tell me a joke about my password, please?"));
    reflexivity.
Defined.


Lemma simple_local_rule_witness :
  fst (classifyMessages (freshWorld (examplePolicy ["social security"] ["what"]))
         [msg "@Andy What is 2+2?"]) = Ok OllamaSimple.
Proof.
  apply (@simple_local_rule
           (freshWorld (examplePolicy ["social security"] ["what"]))
           (examplePolicy ["social security"] ["what"])
           [msg "@Andy What is 2+2?"] (msg "@Andy What is 2+2?"));
    try reflexivity.
  - intros kw [<-|[]]. apply no_phrase_by_test; reflexivity.
  - split; [vm_compute; discriminate|].
    split; [left; reflexivity|].
    right. vm_compute. tauto.
Defined.

Lemma command_starter_is_simple_witness :
  fst (classifyMessages
         (freshWorld (examplePolicy ["social security"] ["what"; "define"]))
         [msg "@Andy Define entropy"]) = Ok OllamaSimple.
Proof.
  apply (@command_starter_is_simple
           (freshWorld (examplePolicy ["social security"] ["what"; "define"]))
           (examplePolicy ["social security"] ["what"; "define"])
           [msg "@Andy Define entropy"] (msg "@Andy Define entropy"));
    try reflexivity.
  - intros kw [<-|[]]. apply no_phrase_by_test; reflexivity.
  - vm_compute. discriminate.
  - left. reflexivity.
  - right. left. reflexivity.
Defined.

Lemma backend_call_failures_witness :
  fst (queryOllama (timedNetwork promptBackend) (js "What is 2+2?")
         (js "small") (js "http://localhost:11434") 30 (mkWorld None None []))
    = Throw (OllamaTimeout 30) /\
  fst (queryOllama (timedNetwork promptBackend) (js "What is 2+2?")
         (js "small") (js "http://localhost:11434") 51 (mkWorld None None []))
    <> Throw (OllamaTimeout 51).
Proof.
  split.
  - apply (@backend_call_failures promptBackend (js "What is 2+2?")
             (js "small") (js "http://localhost:11434") 30
             (mkWorld None None [])); [lia | reflexivity].
  - apply (@backend_call_failures promptBackend (js "What is 2+2?")
             (js "small") (js "http://localhost:11434") 51
             (mkWorld None None [])); [lia | reflexivity].
Defined.

Lemma bare_text_is_extracted_witness :
  exists m,
    lastUserMessage [msg "@Andy !Local   what is up?  "; mkMessage (js "Hi!") true false]
      = Some m /\
    extractLastUserText
      [msg "@Andy !Local   what is up?  "; mkMessage (js "Hi!") true false]
      = Ok (bareText (content m)) /\
    (forall net w cfg d groupName,
        policyOf w = Some cfg -> enabled cfg = true ->
        fst (classifyMessages w
               [msg "@Andy !Local   what is up?  "; mkMessage (js "Hi!") true false])
          = Ok d ->
        d <> Claude ->
        exists request,
          requests (snd (tryOllamaRoute net w
                           [msg "@Andy !Local   what is up?  ";
                            mkMessage (js "Hi!") true false] groupName)) =
            (requests w ++ [request])%list /\
          req_prompt request = bareText (content m)).
Proof.
  apply (@bare_text_is_extracted
           [msg "@Andy !Local   what is up?  "; mkMessage (js "Hi!") true false]).
  discriminate.
Defined.

Lemma backend_failure_falls_back_witness :
  fst (tryOllamaRoute deadNetwork
         (freshWorld (examplePolicy ["social security"] ["what"]))
         [msg "@Andy What is 2+2?"] (js "family")) = Ok None.
Proof.
  apply (@backend_failure_falls_back deadNetwork
           (freshWorld (examplePolicy ["social security"] ["what"]))
           (examplePolicy ["social security"] ["what"])
           [msg "@Andy What is 2+2?"] (msg "@Andy What is 2+2?")
           OllamaSimple (js "family")); try reflexivity.
  - discriminate.
  - left. exists TypeError. reflexivity.
Defined.

Lemma model_selection_witness :
  exists request,
    requests (snd (tryOllamaRoute answeringNetwork
                     (freshWorld (examplePolicy ["social security"] ["what"]))
                     [msg "@Andy !local tell me a joke"] (js "family")))
      = (requests (freshWorld (examplePolicy ["social security"] ["what"]))
         ++ [request])%list /\
    req_prompt request = bareText (js "@Andy !local tell me a joke") /\
    req_model request = js "medium".
Proof.
  apply (@model_selection answeringNetwork
           (freshWorld (examplePolicy ["social security"] ["what"]))
           (examplePolicy ["social security"] ["what"])
           [msg "@Andy !local tell me a joke"] (msg "@Andy !local tell me a joke")
           OllamaForced (js "family")); try reflexivity.
  discriminate.
Defined.

Lemma disabled_policy_routes_remote_witness :
  fst (classifyMessages (mkWorld None None []) [msg "@Andy What is 2+2?"])
    = Ok Claude /\
  fst (tryOllamaRoute answeringNetwork (mkWorld None None [])
         [msg "@Andy What is 2+2?"] (js "family")) = Ok None /\
  requests (snd (tryOllamaRoute answeringNetwork (mkWorld None None [])
                   [msg "@Andy What is 2+2?"] (js "family")))
    = requests (mkWorld None None []).
Proof.
  apply (@disabled_policy_routes_remote answeringNetwork (mkWorld None None [])
           [msg "@Andy What is 2+2?"] (js "family")).
  exact I.
Defined.

(** ** Where the wording of the specification fails *)

(** C1 as stated: the subject text after mention-stripping, a mention being
    any first token followed by white space.  With that reading the content
    ["Andy !local tell me a joke"] becomes ["!local tell me a joke"], which
    begins with the token [!local]; the router strips a first token only
    when it starts with [@], sees a text that begins with ["Andy"], and
    decides remote. *)
Lemma forced_local_any_token_counterexample :
  policyOf (freshWorld (examplePolicy ["social security"] ["what"]))
    = Some (examplePolicy ["social security"] ["what"]) /\
  enabled (examplePolicy ["social security"] ["what"]) = true /\
  lastUserMessage [msg "Andy !local tell me a joke"]
    = Some (msg "Andy !local tell me a joke") /\
  stripLeadingToken (content (msg "Andy !local tell me a joke"))
    = js "!local tell me a joke" /\
  beginsWithLocalDirective
    (stripLeadingToken (content (msg "Andy !local tell me a joke"))) = true /\
  fst (classifyMessages (freshWorld (examplePolicy ["social security"] ["what"]))
         [msg "Andy !local tell me a joke"]) = Ok Claude.
Proof. repeat split. Qed.


(** C3 as stated: the rule is read on the bare text, a mention being any
    first token followed by white space.  On ["hello what is 2+2?"] that
    bare text is ["what is 2+2?"], which fulfils the three conditions, and
    neither the directive nor a privacy phrase is there; the router keeps
    ["hello"] as the first word and decides remote.  And with the policy
    whose one keyword is an opening parenthesis, which occurs nowhere in
    ["@Andy What is 2+2?"], the classifier gives neither simple-local nor
    remote: it raises. *)
Lemma simple_rule_counterexample :
  (policyOf (freshWorld (examplePolicy ["social security"] ["what"]))
     = Some (examplePolicy ["social security"] ["what"]) /\
   enabled (examplePolicy ["social security"] ["what"]) = true /\
   lastUserMessage [msg "hello what is 2+2?"] = Some (msg "hello what is 2+2?") /\
   beginsWithLocalDirective
     (stripLeadingToken (content (msg "hello what is 2+2?"))) = false /\
   ~ ContainsPhrase (js "social security")
       (toLowerCase (concat (map content [msg "hello what is 2+2?"]))) /\
   bareTextAnyToken (content (msg "hello what is 2+2?")) = js "what is 2+2?" /\
   simpleCondition (examplePolicy ["social security"] ["what"])
     (bareTextAnyToken (content (msg "hello what is 2+2?"))) /\
   fst (classifyMessages (freshWorld (examplePolicy ["social security"] ["what"]))
          [msg "hello what is 2+2?"]) = Ok Claude) /\
  (policyOf (freshWorld (examplePolicy ["("] ["what"]))
     = Some (examplePolicy ["("] ["what"]) /\
   enabled (examplePolicy ["("] ["what"]) = true /\
   lastUserMessage [msg "@Andy What is 2+2?"] = Some (msg "@Andy What is 2+2?") /\
   beginsWithLocalDirective
     (stripLeadingToken (content (msg "@Andy What is 2+2?"))) = false /\
   ~ In "("%char (toLowerCase (concat (map content [msg "@Andy What is 2+2?"]))) /\
   simpleCondition (examplePolicy ["("] ["what"])
     (bareTextAnyToken (content (msg "@Andy What is 2+2?"))) /\
   fst (classifyMessages (freshWorld (examplePolicy ["("] ["what"]))
          [msg "@Andy What is 2+2?"]) = Throw (Native SyntaxError)).
Proof.
  split; repeat split; try reflexivity.
  - apply (@no_phrase_by_test (js "social security")); reflexivity.
  - vm_compute. discriminate.
  - left. reflexivity.
  - right. vm_compute. tauto.
  - vm_compute. intuition discriminate.
  - vm_compute. discriminate.
  - left. reflexivity.
  - right. vm_compute. tauto.
Qed.

(** C6 as stated: a first word of the bare text in the command-starter
    set gives simple-local.  On ["hello define entropy"], with [define]
    among the configured starters, the bare text of that reading is
    ["define entropy"]; the router keeps ["hello"] as the first word and
    decides remote.  And with the policy whose one keyword is an opening
    parenthesis the classifier raises on ["@Andy define entropy"]. *)
Lemma command_starter_counterexample :
  (policyOf (freshWorld (examplePolicy ["social security"] ["what"; "define"]))
     = Some (examplePolicy ["social security"] ["what"; "define"]) /\
   enabled (examplePolicy ["social security"] ["what"; "define"]) = true /\
   lastUserMessage [msg "hello define entropy"]
     = Some (msg "hello define entropy") /\
   beginsWithLocalDirective
     (stripLeadingToken (content (msg "hello define entropy"))) = false /\
   ~ ContainsPhrase (js "social security")
       (toLowerCase (concat (map content [msg "hello define entropy"]))) /\
   bareTextAnyToken (content (msg "hello define entropy")) = js "define entropy" /\
   (Z.of_nat (length (tokens (bareTextAnyToken
                                (content (msg "hello define entropy"))))) <= 6)%Z /\
   In (firstWord (bareTextAnyToken (content (msg "hello define entropy"))))
      COMMAND_STARTERS /\
   In (firstWord (bareTextAnyToken (content (msg "hello define entropy"))))
      (simpleStarters
         (routing (examplePolicy ["social security"] ["what"; "define"]))) /\
   fst (classifyMessages
          (freshWorld (examplePolicy ["social security"] ["what"; "define"]))
          [msg "hello define entropy"]) = Ok Claude) /\
  (policyOf (freshWorld (examplePolicy ["("] ["what"; "define"]))
     = Some (examplePolicy ["("] ["what"; "define"]) /\
   enabled (examplePolicy ["("] ["what"; "define"]) = true /\
   lastUserMessage [msg "@Andy define entropy"]
     = Some (msg "@Andy define entropy") /\
   beginsWithLocalDirective
     (stripLeadingToken (content (msg "@Andy define entropy"))) = false /\
   ~ In "("%char
       (toLowerCase (concat (map content [msg "@Andy define entropy"]))) /\
   (Z.of_nat (length (tokens (bareTextAnyToken
                                (content (msg "@Andy define entropy"))))) <= 6)%Z /\
   In (firstWord (bareTextAnyToken (content (msg "@Andy define entropy"))))
      COMMAND_STARTERS /\
   In (firstWord (bareTextAnyToken (content (msg "@Andy define entropy"))))
      (simpleStarters (routing (examplePolicy ["("] ["what"; "define"]))) /\
   fst (classifyMessages (freshWorld (examplePolicy ["("] ["what"; "define"]))
          [msg "@Andy define entropy"]) = Throw (Native SyntaxError)).
Proof.
  split; repeat split; try reflexivity.
  - apply (@no_phrase_by_test (js "social security")); reflexivity.
  - vm_compute. discriminate.
  - left. reflexivity.
  - right. left. reflexivity.
  - vm_compute. intuition discriminate.
  - vm_compute. discriminate.
  - left. reflexivity.
  - right. left. reflexivity.
Qed.

(** C8 as stated: a mention is any first token followed by white space.
    On ["hello world"] that reading gives the bare text ["world"]; the
    router, which strips a token only when it starts with [@], keeps
    ["hello world"]. *)
Lemma any_token_mention_counterexample :
  lastUserMessage [msg "hello world"] = Some (msg "hello world") /\
  bareTextAnyToken (content (msg "hello world")) = js "world" /\
  extractLastUserText [msg "hello world"] = Ok (js "hello world") /\
  extractLastUserText [msg "hello world"]
    <> Ok (bareTextAnyToken (content (msg "hello world"))).
Proof. repeat split; try reflexivity. vm_compute. discriminate. Qed.

(** C9 as stated: the call fails exactly when the status is outside the
    success range, the payload is malformed or the elapsed time exceeds
    [timeoutMs].  A backend that cannot be reached makes the call fail
    after 5 ms of a timeout of 30000 ms, and none of the three holds.  And
    with a timeout of 3000000000 ms, which is more than a timer takes, the
    timer fires after 1 ms: the call to a backend that answers well within
    50 ms fails with the timeout error, and none of the three holds. *)
Lemma backend_call_counterexample :
  (fst (queryOllama (timedNetwork unreachableBackend) (js "What is 2+2?")
          (js "small") (js "http://localhost:11434") 30000
          (mkWorld None None []))
     = Throw (Native TypeError) /\
   ~ (StatusOutside (unhurried (mkExchange 5 NoConnection false)) \/
      PayloadMalformed (unhurried (mkExchange 5 NoConnection false)) \/
      (30000 < timeNeeded (mkExchange 5 NoConnection false))%Z)) /\
  (fst (queryOllama (timedNetwork promptBackend) (js "What is 2+2?")
          (js "small") (js "http://localhost:11434") 3000000000
          (mkWorld None None []))
     = Throw (OllamaTimeout 3000000000) /\
   timeNeeded (promptBackend (js "http://localhost:11434") (js "small")
                 (js "What is 2+2?")) = 50%Z /\
   ~ (StatusOutside
        (unhurried (promptBackend (js "http://localhost:11434") (js "small")
                      (js "What is 2+2?"))) \/
      PayloadMalformed
        (unhurried (promptBackend (js "http://localhost:11434") (js "small")
                      (js "What is 2+2?"))) \/
      (3000000000 < 50)%Z)).
Proof.
  split; [split; [reflexivity|] | split; [reflexivity | split; [reflexivity|]]];
    unfold StatusOutside, PayloadMalformed.
  - intros H. break_outcome; discriminate.
  - intros [(res & H & Hok)|[(res & data & H & Hb & Hbad)|H]]; [| |lia].
    + injection H as <-. discriminate Hok.
    + injection H as <-. injection Hb as <-.
      destruct Hbad as [Hbad|Hbad]; discriminate Hbad.
Qed.

(* ================================================================== *)
(** * Further properties of the router *)

Local Close Scope string_scope.

(** ** The configuration cache *)

Lemma loadConfig_caches (w : World) (cfg : RoutingConfig) :
  fst (loadConfig w) = Some cfg ->
  cachedConfig (snd (loadConfig w)) = Some cfg.
Proof.
  unfold loadConfig. destruct (cachedConfig w) as [c|] eqn:Ec.
  - cbn [fst snd]. now intros [= <-].
  - destruct (configFile w) as [c|]; cbn [fst snd cachedConfig];
      [now intros [= <-] | discriminate].
Qed.

Lemma policyOf_cached (w : World) (cfg : RoutingConfig) :
  cachedConfig w = Some cfg -> policyOf w = Some cfg.
Proof. unfold policyOf, loadConfig. now intros ->. Qed.

(** X1: once a configuration has been loaded, the router keeps using it:
    whatever becomes of the file afterwards, the next load gives the same
    configuration. *)
Theorem loaded_policy_survives_file_changes (w : World) (cfg : RoutingConfig)
    (file : option RoutingConfig) :
  policyOf w = Some cfg ->
  policyOf (withConfigFile file (snd (loadConfig w))) = Some cfg.
Proof.
  intros H. apply policyOf_cached. cbn [withConfigFile cachedConfig].
  now apply loadConfig_caches.
Qed.

(** X2: a load that fails is not remembered: it leaves the state as it was
    and gives no policy, and when the file is there at the next call that
    call loads it. *)
Theorem failed_load_is_retried (w : World) (cfg : RoutingConfig) :
  cachedConfig w = None ->
  configFile w = None ->
  loadConfig w = (None, w) /\
  policyOf (withConfigFile (Some cfg) (snd (loadConfig w))) = Some cfg.
Proof.
  intros Hc Hf. unfold policyOf, loadConfig. rewrite Hc, Hf.
  cbn [fst snd withConfigFile cachedConfig configFile]. rewrite Hc. auto.
Qed.

(** ** The subject message *)

Lemma lastOf_snoc (A : Type) (l : list A) (a : A) : lastOf (l ++ [a]) = Some a.
Proof. unfold lastOf. now rewrite rev_app_distr. Qed.

Lemma filter_none (A : Type) (p : A -> bool) (l : list A) :
  forallb (fun a => negb (p a)) l = true -> filter p l = [].
Proof.
  induction l as [|a l IH]; [reflexivity|].
  cbn [forallb filter]. intros H. apply andb_true_iff in H as [Ha Hl].
  apply negb_true_iff in Ha. rewrite Ha. now apply IH.
Qed.

Lemma lastOf_filter (A : Type) (p : A -> bool) (l : list A) (m : A) :
  lastOf (filter p l) = Some m ->
  p m = true /\
  exists pre post, l = pre ++ m :: post /\
                   forallb (fun a => negb (p a)) post = true.
Proof.
  induction l as [|x l IH] using rev_ind; [discriminate|].
  rewrite filter_app. cbn [filter]. destruct (p x) eqn:Hx.
  - rewrite lastOf_snoc. intros [= <-]. split; [exact Hx|].
    now exists l, [].
  - rewrite app_nil_r. intros H. destruct (IH H) as (Hm & pre & post & -> & Hpost).
    split; [exact Hm|]. exists pre, (post ++ [x]).
    rewrite <- app_assoc. split; [reflexivity|].
    rewrite forallb_app, Hpost. cbn. now rewrite Hx.
Qed.

(** X3: the subject message is the last message written by a user, or, when
    no message of the conversation is written by a user, the last message:
    [m] is the subject exactly when the conversation splits around [m] with
    no user message after it, and [m] is a user message or is the last
    message of a conversation without user messages. *)
Theorem subject_is_last_user_message (messages : list NewMessage)
    (m : NewMessage) :
  lastUserMessage messages = Some m <->
  exists pre post,
    messages = pre ++ m :: post /\
    forallb notUser post = true /\
    (isUser m = true \/ (post = [] /\ forallb notUser pre = true)).
Proof.
  unfold lastUserMessage. fold isUser. split.
  - destruct (filter isUser messages) as [|u us] eqn:Ef.
    + cbn [length Nat.ltb Nat.leb]. intros H.
      destruct messages as [|x l] using rev_ind; [discriminate|].
      rewrite lastOf_snoc in H. injection H as ->.
      exists l, []. split; [reflexivity|]. split; [reflexivity|]. right.
      split; [reflexivity|].
      rewrite filter_app in Ef. apply app_eq_nil in Ef as [Ef _].
      clear -Ef. induction l as [|a l IH]; [reflexivity|].
      cbn [filter] in Ef. cbn [forallb]. unfold notUser at 1.
      destruct (isUser a); [discriminate|]. now apply IH.
    + cbn [length Nat.ltb Nat.leb]. rewrite <- Ef. intros H.
      apply lastOf_filter in H as (Hm & pre & post & -> & Hpost).
      exists pre, post. auto.
  - intros (pre & post & -> & Hpost & Hm).
    rewrite filter_app. cbn [filter].
    rewrite (filter_none isUser post Hpost).
    destruct Hm as [Hm|[-> Hpre]].
    + rewrite Hm.
      replace (0 <? length (filter isUser pre ++ [m])) with true
        by (rewrite length_app; cbn [length]; symmetry; apply Nat.ltb_lt; lia).
      apply lastOf_snoc.
    + rewrite (filter_none isUser pre Hpre).
      destruct (isUser m); cbn [app length Nat.ltb Nat.leb];
        [reflexivity | apply lastOf_snoc].
Qed.

(** ** The dispatcher and the state *)

Lemma policyOf_same_cache (w w' : World) :
  configFile w' = configFile w -> cachedConfig w' = cachedConfig w ->
  policyOf w' = policyOf w.
Proof.
  unfold policyOf, loadConfig. intros -> ->.
  destruct (cachedConfig w); [reflexivity|]. now destruct (configFile w).
Qed.

Lemma policyOf_loadConfig (w : World) : policyOf (snd (loadConfig w)) = policyOf w.
Proof.
  unfold policyOf, loadConfig. destruct (cachedConfig w) as [c|] eqn:Ec.
  - cbn [snd]. now rewrite Ec.
  - destruct (configFile w) as [c|] eqn:Ef; cbn [snd cachedConfig];
      [reflexivity | now rewrite Ec, Ef].
Qed.

Lemma classifyMessages_world (w : World) (messages : list NewMessage) :
  snd (classifyMessages w messages) = snd (loadConfig w).
Proof. unfold classifyMessages. now destruct (loadConfig w). Qed.

Lemma loadConfig_twice (w : World) :
  snd (loadConfig (snd (loadConfig w))) = snd (loadConfig w).
Proof.
  unfold loadConfig. destruct (cachedConfig w) as [c|] eqn:Ec.
  - cbn [snd]. now rewrite Ec.
  - destruct (configFile w) as [c|] eqn:Ef; cbn [snd cachedConfig];
      [reflexivity | now rewrite Ec, Ef].
Qed.

(** The state after a dispatch: the configuration as the first load left it,
    and at most one request more. *)
Lemma tryOllamaRoute_world (net : Network) (w : World)
    (messages : list NewMessage) (groupName : str) :
  exists sent,
    length sent <= 1 /\
    snd (tryOllamaRoute net w messages groupName) =
    mkWorld (configFile (snd (loadConfig w))) (cachedConfig (snd (loadConfig w)))
      (requests w ++ sent).
Proof.
  pose proof (loadConfig_requests w) as Hreq.
  pose proof (loadConfig_twice w) as Htwice.
  unfold tryOllamaRoute.
  destruct (loadConfig w) as [loaded w1] eqn:El. cbn [snd] in *.
  assert (Hsame : w1 = mkWorld (configFile w1) (cachedConfig w1) (requests w ++ []))
    by (rewrite app_nil_r, <- Hreq; now destruct w1).
  destruct loaded as [cfg|]; [|exists []; cbn [snd length]; auto].
  destruct (enabled cfg); cbn [negb]; [|exists []; cbn [snd length]; auto].
  pose proof (classifyMessages_world w1 messages) as Hcw. rewrite Htwice in Hcw.
  destruct (classifyMessages w1 messages) as [classified w2]. cbn [snd] in Hcw.
  subst w2.
  destruct classified as [d|e|]; try (exists []; cbn [snd length]; auto; fail).
  destruct (isClaude d); [exists []; cbn [snd length]; auto|].
  destruct (extractLastUserText messages) as [text|e|];
    try (exists []; cbn [snd length]; auto; fail).
  unfold queryOllama.
  exists [mkRequest (baseUrl (ollama cfg)) (modelFor cfg d) text false
            (timeoutMs (ollama cfg))].
  split; [cbn; lia|].
  destruct (queryOllamaCatch _ _); cbn [snd]; now rewrite Hreq.
Qed.

(** X4: whatever the conversation, the policy and the network do, one
    dispatch sends at most one request and keeps the requests sent before:
    the dispatcher never retries. *)
Theorem dispatch_sends_at_most_one_request (net : Network) (w : World)
    (messages : list NewMessage) (groupName : str) :
  exists sent,
    requests (snd (tryOllamaRoute net w messages groupName)) =
      requests w ++ sent /\
    length sent <= 1.
Proof.
  destruct (tryOllamaRoute_world net w messages groupName) as (sent & Hlen & ->).
  exists sent. auto.
Qed.

(** X5: a dispatch does not change what the classifier decides afterwards:
    on the state a dispatch leaves, every conversation gets the decision it
    would have got before. *)
Theorem dispatch_preserves_decisions (net : Network) (w : World)
    (messages later : list NewMessage) (groupName : str) :
  fst (classifyMessages (snd (tryOllamaRoute net w messages groupName)) later) =
  fst (classifyMessages w later).
Proof.
  rewrite !classifyMessages_policy. f_equal.
  destruct (tryOllamaRoute_world net w messages groupName) as (sent & _ & ->).
  rewrite <- (policyOf_loadConfig w). now apply policyOf_same_cache.
Qed.

(** The classifier answers only when the conversation has a subject. *)
Lemma classify_ok_subject (cfg : RoutingConfig) (messages : list NewMessage)
    (d : RouteDecision) :
  enabled cfg = true ->
  classify (Some cfg) messages = Ok d ->
  exists m, lastUserMessage messages = Some m.
Proof.
  intros He H. destruct (lastUserMessage messages) as [m|] eqn:Em; [eauto|].
  unfold classify, mentionStripped, lastUserContent in H.
  rewrite He, Em in H. discriminate H.
Qed.

(** The dispatcher under an enabled policy, case by case. *)
Lemma dispatch_enabled (net : Network) (w : World) (cfg : RoutingConfig)
    (messages : list NewMessage) (groupName : str) :
  policyOf w = Some cfg ->
  enabled cfg = true ->
  tryOllamaRoute net w messages groupName =
  match classify (Some cfg) messages with
  | Throw e => (Throw e, snd (loadConfig w))
  | Unmodelled => (Unmodelled, snd (loadConfig w))
  | Ok d =>
      if isClaude d then (Ok None, snd (loadConfig w))
      else
        match extractLastUserText messages with
        | Throw e => (Throw e, snd (loadConfig w))
        | Unmodelled => (Unmodelled, snd (loadConfig w))
        | Ok text =>
            (match queryOllamaCatch (timeoutMs (ollama cfg))
                     (queryOllamaTry (net (requestFor cfg d text))) with
             | Ok response =>
                 Ok (Some (mkReply (if isPrivacy d then PrivateIndicator
                                    else LocalIndicator) response))
             | Throw _ => Ok None
             | Unmodelled => Unmodelled
             end,
             mkWorld (configFile (snd (loadConfig w)))
               (cachedConfig (snd (loadConfig w)))
               (requests w ++ [requestFor cfg d text]))
        end
  end.
Proof.
  intros Hp He.
  pose proof (@loadConfig_again w cfg Hp) as Hagain.
  pose proof (loadConfig_requests w) as Hreq.
  unfold policyOf in Hp. unfold tryOllamaRoute, classifyMessages.
  destruct (loadConfig w) as [loaded w1]. cbn [fst snd] in *.
  subst loaded. rewrite He. cbn [negb]. rewrite Hagain.
  destruct (classify (Some cfg) messages) as [d|e|]; try reflexivity.
  destruct (isClaude d); [reflexivity|].
  destruct (extractLastUserText messages) as [text|e|]; try reflexivity.
  unfold queryOllama. rewrite modelFor_requestFor, Hreq.
  now destruct (queryOllamaCatch _ _).
Qed.

(** X6: when the decision is local and the backend answers with a success
    status and a payload whose completed flag is truthy and whose generated
    text is a string, the dispatcher returns that text trimmed, behind the
    private indicator exactly when the decision is privacy-local and behind
    the local indicator otherwise; an empty generated text is accepted like
    any other. *)
Theorem local_answer_is_returned (net : Network) (w : World)
    (cfg : RoutingConfig) (messages : list NewMessage) (m : NewMessage)
    (d : RouteDecision) (groupName : str) (res : Response)
    (fields : list (str * JsValue)) (text : str) :
  policyOf w = Some cfg ->
  enabled cfg = true ->
  lastUserMessage messages = Some m ->
  fst (classifyMessages w messages) = Ok d ->
  d <> Claude ->
  net (requestFor cfg d (bareText (content m))) = FetchResolves res ->
  ok res = true ->
  body res = BodyParses (JObject fields) ->
  truthy (lookupField (js "done") fields) = true ->
  lookupField (js "response") fields = Some (VString text) ->
  fst (tryOllamaRoute net w messages groupName) =
  Ok (Some (mkReply match d with
                    | OllamaPrivacy => PrivateIndicator
                    | _ => LocalIndicator
                    end (trim text))).
Proof.
  intros Hp He Hm Hd Hc Hnet Hok Hbody Hdone Hresp.
  rewrite classifyMessages_policy, Hp in Hd.
  rewrite (@dispatch_enabled net w cfg messages groupName Hp He), Hd.
  assert (Hc' : isClaude d = false) by (destruct d; try reflexivity; congruence).
  rewrite Hc', (@extractLastUserText_bare messages m Hm), Hnet.
  cbn [queryOllamaTry fst]. rewrite Hok, Hbody. cbn [negb getProperty bind].
  rewrite Hdone, Hresp. cbn [negb queryOllamaCatch].
  now destruct d.
Qed.

(** X7: under an enabled policy, when the decision is remote the dispatcher
    returns absent and sends no request. *)
Theorem remote_decision_sends_nothing (net : Network) (w : World)
    (cfg : RoutingConfig) (messages : list NewMessage) (groupName : str) :
  policyOf w = Some cfg ->
  enabled cfg = true ->
  fst (classifyMessages w messages) = Ok Claude ->
  fst (tryOllamaRoute net w messages groupName) = Ok None /\
  requests (snd (tryOllamaRoute net w messages groupName)) = requests w.
Proof.
  intros Hp He Hd. rewrite classifyMessages_policy, Hp in Hd.
  rewrite (@dispatch_enabled net w cfg messages groupName Hp He), Hd.
  cbn [isClaude fst snd]. split; [reflexivity | apply loadConfig_requests].
Qed.

(** The dispatcher without an enabled policy. *)
Lemma dispatch_off (net : Network) (w : World) (messages : list NewMessage)
    (groupName : str) :
  policyOff w ->
  tryOllamaRoute net w messages groupName = (Ok None, snd (loadConfig w)).
Proof.
  unfold policyOff, tryOllamaRoute.
  destruct (loadConfig w) as [[cfg|] w1]; cbn [fst snd]; [|reflexivity].
  now intros ->.
Qed.

(** X8: the only exceptions that leave the dispatcher are those of the
    classifier, which runs outside the [try] block: the dispatcher raises
    [e] exactly when the policy is enabled and the classifier raises [e],
    and no request is sent then. *)
Theorem dispatcher_raises_with_classifier (net : Network) (w : World)
    (messages : list NewMessage) (groupName : str) (e : JsError) :
  (fst (tryOllamaRoute net w messages groupName) = Throw e <->
   exists cfg, policyOf w = Some cfg /\ enabled cfg = true /\
               fst (classifyMessages w messages) = Throw e) /\
  (fst (tryOllamaRoute net w messages groupName) = Throw e ->
   requests (snd (tryOllamaRoute net w messages groupName)) = requests w).
Proof.
  rewrite classifyMessages_policy.
  destruct (policyOf w) as [cfg|] eqn:Hp.
  - destruct (enabled cfg) eqn:He.
    + rewrite (@dispatch_enabled net w cfg messages groupName Hp He).
      destruct (classify (Some cfg) messages) as [d|e'|] eqn:Hc.
      * destruct (@classify_ok_subject cfg messages d He Hc) as [m Hm].
        rewrite (@extractLastUserText_bare messages m Hm).
        destruct (isClaude d); cbn [fst snd].
        -- split; [split; [discriminate|] | discriminate].
           intros (c & [= <-] & _ & H). discriminate H.
        -- destruct (queryOllamaCatch _ _); cbn [fst snd];
             (split; [split; [discriminate|] | discriminate]);
             intros (c & [= <-] & _ & H); discriminate H.
      * cbn [fst snd]. split.
        -- split; [intros [= <-]; eauto|].
           intros (c & [= <-] & _ & H). now injection H as ->.
        -- intros _. apply loadConfig_requests.
      * cbn [fst snd]. split; [split; [discriminate|] | discriminate].
        intros (c & [= <-] & _ & H). discriminate H.
    + rewrite dispatch_off by (unfold policyOff; fold (policyOf w); now rewrite Hp).
      cbn [fst snd]. split; [split; [discriminate|] | discriminate].
      intros (c & [= <-] & He' & _). congruence.
  - rewrite dispatch_off by (unfold policyOff; fold (policyOf w); now rewrite Hp).
    cbn [fst snd]. split; [split; [discriminate|] | discriminate].
    intros (c & H & _). discriminate H.
Qed.

(** X9: an empty conversation under an enabled policy makes the classifier
    raise a TypeError (the subject message is undefined), and the
    dispatcher with it, before any request is sent. *)
Theorem empty_conversation_raises (net : Network) (w : World)
    (cfg : RoutingConfig) (groupName : str) :
  policyOf w = Some cfg ->
  enabled cfg = true ->
  fst (classifyMessages w []) = Throw (Native TypeError) /\
  fst (tryOllamaRoute net w [] groupName) = Throw (Native TypeError) /\
  requests (snd (tryOllamaRoute net w [] groupName)) = requests w.
Proof.
  intros Hp He. rewrite classifyMessages_policy, Hp.
  rewrite (@dispatch_enabled net w cfg [] groupName Hp He).
  unfold classify. rewrite He. cbn [negb mentionStripped lastUserContent
    lastUserMessage filter length Nat.ltb Nat.leb lastOf rev bind fst snd].
  repeat split. apply loadConfig_requests.
Qed.

(** ** The decisions, read backwards *)

(** X10: under an enabled policy the decision is forced-local exactly when
    the mention-stripped, trimmed subject text begins with the token
    [!local]: no keyword and no starter ever forces the local route. *)
Theorem forced_local_only_by_directive (w : World) (cfg : RoutingConfig)
    (messages : list NewMessage) (m : NewMessage) :
  policyOf w = Some cfg ->
  enabled cfg = true ->
  lastUserMessage messages = Some m ->
  (fst (classifyMessages w messages) = Ok OllamaForced <->
   beginsWithLocalDirective (trim (stripMention (content m))) = true).
Proof.
  intros Hp He Hm. rewrite classifyMessages_policy, Hp.
  rewrite (@classify_enabled cfg messages m He Hm).
  destruct (beginsWithLocalDirective _); [tauto|].
  split; [|discriminate].
  destruct (hasPrivacyKeyword _ _) as [[|]|e|]; cbn [bind]; try discriminate.
  destruct (isSimpleQuestion _ _ _) as [[|]|e|]; cbn [bind]; discriminate.
Qed.

Lemma tokensFrom_has_token (s : str) (c : ascii) :
  In c s -> isWhiteSpace c = false ->
  forall cur, tokensFrom cur s <> [].
Proof.
  induction s as [|c0 s IH]; intros Hin Hc cur; [contradiction|].
  cbn [tokensFrom]. destruct Hin as [->|Hin].
  - rewrite Hc. apply tokensFrom_nonempty. discriminate.
  - destruct (isWhiteSpace c0).
    + destruct cur; [now apply IH | discriminate].
    + apply tokensFrom_nonempty. discriminate.
Qed.

Lemma filter_forallb (p : ascii -> bool) (s : str) :
  forallb p (filter p s) = true.
Proof.
  induction s as [|c s IH]; [reflexivity|].
  cbn [filter]. destruct (p c) eqn:E; [|exact IH].
  cbn [forallb]. now rewrite E.
Qed.

(** What a simple-local decision tells about the conversation. *)
Lemma simple_local_inversion (cfg : RoutingConfig)
    (messages : list NewMessage) :
  classify (Some cfg) messages = Ok OllamaSimple ->
  enabled cfg = true /\
  exists m,
    lastUserMessage messages = Some m /\
    beginsWithLocalDirective (trim (stripMention (content m))) = false /\
    hasPrivacyKeyword messages (privacyKeywords (routing cfg)) = Ok false /\
    simpleCondition cfg (bareText (content m)) /\
    tokens (bareText (content m)) <> [].
Proof.
  intros H.
  assert (He : enabled cfg = true).
  { destruct (enabled cfg) eqn:He; [reflexivity|].
    unfold classify in H. rewrite He in H. discriminate H. }
  split; [exact He|].
  destruct (@classify_ok_subject cfg messages OllamaSimple He H) as [m Hm].
  exists m. split; [exact Hm|].
  rewrite (@classify_enabled cfg messages m He Hm) in H.
  destruct (beginsWithLocalDirective _); [discriminate H|].
  split; [reflexivity|].
  destruct (hasPrivacyKeyword _ _) as [[|]|e|]; cbn [bind] in H;
    try discriminate H.
  split; [reflexivity|].
  destruct (isSimpleQuestion_spec cfg (bareText (content m))) as [b [Hb Hcond]].
  rewrite Hb in H. cbn [bind] in H. destruct b; [|discriminate H].
  assert (Hc : simpleCondition cfg (bareText (content m))) by now apply Hcond.
  split; [exact Hc|].
  destruct Hc as (_ & _ & [Hcmd|Hq]).
  - intros Ht. unfold firstWord in Hcmd. rewrite Ht in Hcmd.
    now apply command_starters_nonempty in Hcmd.
  - now apply (@tokensFrom_has_token _ "?"%char Hq).
Qed.

(** X11: a simple-local decision is never given without its conditions:
    the policy is enabled, the subject text has no [!local] directive, no
    privacy keyword matched, and the bare text has at least one and at most
    [maxWordsForSimple] tokens, a first word among the starters, and a [?]
    or a command starter as first word. *)
Theorem simple_local_only_if (w : World) (cfg : RoutingConfig)
    (messages : list NewMessage) :
  policyOf w = Some cfg ->
  fst (classifyMessages w messages) = Ok OllamaSimple ->
  enabled cfg = true /\
  exists m,
    lastUserMessage messages = Some m /\
    beginsWithLocalDirective (trim (stripMention (content m))) = false /\
    hasPrivacyKeyword messages (privacyKeywords (routing cfg)) = Ok false /\
    simpleCondition cfg (bareText (content m)) /\
    (1 <= Z.of_nat (length (tokens (bareText (content m))))
       <= maxWordsForSimple (routing cfg))%Z.
Proof.
  intros Hp H. rewrite classifyMessages_policy, Hp in H.
  destruct (@simple_local_inversion cfg messages H) as (He & m & Hm & Hl & Hk & Hc & Ht).
  split; [exact He|]. exists m.
  split; [exact Hm|]. split; [exact Hl|]. split; [exact Hk|].
  split; [exact Hc|]. destruct Hc as (Hlen & _). split; [|exact Hlen].
  destruct (tokens (bareText (content m))); [congruence | cbn [length]; lia].
Qed.

(** X12: the starters are compared with a first word reduced to the letters
    a-z, so a configured starter that has any other code unit (an upper-case
    letter, a digit, a [?]) never matches: with only such starters, no
    conversation is ever simple-local. *)
Theorem starters_must_be_lower_case_letters (w : World) (cfg : RoutingConfig)
    (messages : list NewMessage) :
  policyOf w = Some cfg ->
  (forall s, In s (simpleStarters (routing cfg)) -> forallb isLowerAZ s = false) ->
  fst (classifyMessages w messages) <> Ok OllamaSimple.
Proof.
  intros Hp Hst H. rewrite classifyMessages_policy, Hp in H.
  destruct (@simple_local_inversion cfg messages H) as (_ & m & _ & _ & _ & Hc & _).
  destruct Hc as (_ & Hin & _). apply Hst in Hin.
  unfold firstWord, lettersOnly in Hin. rewrite filter_forallb in Hin.
  discriminate Hin.
Qed.

(** ** The privacy rule over the whole conversation *)

Lemma toLowerCase_app (a b : str) :
  toLowerCase (a ++ b) = toLowerCase a ++ toLowerCase b.
Proof. apply map_app. Qed.

Lemma isWordAt_app (s t : str) : s <> [] -> isWordAt (s ++ t) = isWordAt s.
Proof. destruct s; [congruence | reflexivity]. Qed.

(** A joined text around one of its parts: what is before ends with the
    separator and what is after begins with it. *)
Lemma join_around (sep : str) (l : list str) (c : str) :
  In c l ->
  exists A B,
    join sep l = A ++ c ++ B /\
    (A = [] \/ exists A', A = A' ++ sep) /\
    (B = [] \/ exists B', B = sep ++ B').
Proof.
  induction l as [|x l IH]; intros Hin; [contradiction|].
  destruct l as [|y l].
  - destruct Hin as [->|[]]. exists [], []. cbn [join app].
    rewrite app_nil_r. auto.
  - change (join sep (x :: y :: l)) with (x ++ sep ++ join sep (y :: l)).
    destruct Hin as [->|Hin].
    + exists [], (sep ++ join sep (y :: l)). split; [reflexivity|].
      split; [now left | right; eauto].
    + destruct (IH Hin) as (A & B & -> & HA & HB).
      exists (x ++ sep ++ A), B. split; [now rewrite <- !app_assoc|].
      split; [right|exact HB].
      destruct HA as [->|[A' ->]].
      * exists x. now rewrite app_nil_r.
      * exists (x ++ sep ++ A'). now rewrite <- !app_assoc.
Qed.

Lemma ContainsPhrase_inside (k t A B : str) :
  ContainsPhrase k t ->
  isWordAt (rev A) = false ->
  isWordAt B = false ->
  ContainsPhrase k (A ++ t ++ B).
Proof.
  intros (pre & mid & post & -> & Hm & Hpre & Hpost) HA HB.
  exists (A ++ pre), mid, (post ++ B).
  split; [now rewrite <- !app_assoc|]. split; [exact Hm|]. split.
  - rewrite rev_app_distr. destruct (rev pre) as [|c r] eqn:E; [exact HA|].
    exact Hpre.
  - destruct post; [exact HB | exact Hpost].
Qed.

Lemma ContainsPhrase_joined (k : str) (contents : list str) (c : str) :
  In c contents ->
  ContainsPhrase k (toLowerCase c) ->
  ContainsPhrase k (toLowerCase (join (js " ") contents)).
Proof.
  intros Hin Hc.
  destruct (join_around (js " ") contents c Hin) as (A & B & -> & HA & HB).
  rewrite !toLowerCase_app. apply ContainsPhrase_inside; [exact Hc| |].
  - destruct HA as [->|[A' ->]]; [reflexivity|].
    rewrite toLowerCase_app, rev_app_distr. reflexivity.
  - destruct HB as [->|[B' ->]]; [reflexivity|].
    rewrite toLowerCase_app. reflexivity.
Qed.

(** X13: the privacy rule reads every message, whoever wrote it: under an
    enabled policy with plain keywords, if any one message of the
    conversation (a reply of the automation itself included) contains a
    keyword as a whole word or phrase, and the subject text does not begin
    with [!local], the decision is privacy-local. *)
Theorem privacy_keyword_in_any_message (w : World) (cfg : RoutingConfig)
    (messages : list NewMessage) (m carrier : NewMessage) (kw : str) :
  policyOf w = Some cfg ->
  enabled cfg = true ->
  lastUserMessage messages = Some m ->
  forallb plainKeyword (privacyKeywords (routing cfg)) = true ->
  In kw (privacyKeywords (routing cfg)) ->
  In carrier messages ->
  ContainsPhrase (toLowerCase kw) (toLowerCase (content carrier)) ->
  beginsWithLocal (trim (stripMention (content m))) = false ->
  fst (classifyMessages w messages) = Ok OllamaPrivacy.
Proof.
  intros Hp He Hm Hall Hin Hcar Hc Hl. rewrite classifyMessages_policy, Hp.
  rewrite (@classify_enabled cfg messages m He Hm).
  unfold beginsWithLocalDirective. rewrite Hl. cbn [andb].
  assert (Hj : ContainsPhrase (toLowerCase kw)
                 (toLowerCase (join (js " ") (map content messages)))).
  { apply (@ContainsPhrase_joined _ _ (content carrier)); [|exact Hc].
    now apply in_map. }
  now rewrite (@hasPrivacyKeyword_finds messages _ kw Hall Hin Hj).
Qed.

Lemma toLowerCase_join (sep : str) (l : list str) :
  toLowerCase (join sep l) = join (toLowerCase sep) (map toLowerCase l).
Proof.
  induction l as [|x l IH]; [reflexivity|].
  destruct l as [|y l]; [reflexivity|].
  change (join sep (x :: y :: l)) with (x ++ sep ++ join sep (y :: l)).
  rewrite !toLowerCase_app, IH. reflexivity.
Qed.

(** X14: the privacy rule sees the conversation and the keywords through
    their lower-case forms only: two conversations whose contents agree in
    lower case, whoever the senders are, and two keyword lists that agree
    in lower case give the same answer (or the same exception). *)
Theorem privacy_rule_ignores_case_and_sender
    (messages messages' : list NewMessage) (keywords keywords' : list str) :
  map (fun m => toLowerCase (content m)) messages =
  map (fun m => toLowerCase (content m)) messages' ->
  map toLowerCase keywords = map toLowerCase keywords' ->
  hasPrivacyKeyword messages keywords = hasPrivacyKeyword messages' keywords'.
Proof.
  intros Hm Hk. unfold hasPrivacyKeyword.
  rewrite !toLowerCase_join, !map_map, Hm.
  generalize (join (toLowerCase (js " "))
                (map (fun m => toLowerCase (content m)) messages')).
  intros text. revert keywords' Hk.
  induction keywords as [|k ks IH]; intros [|k' ks'] Hk; try discriminate Hk;
    [reflexivity|].
  cbn [map] in Hk. injection Hk as Hk Hks.
  cbn [array_some]. unfold keywordPattern. rewrite Hk.
  destruct (newRegExp _) as [r|e|]; cbn [bind]; try reflexivity.
  destruct (test r text); [reflexivity|]. now apply IH.
Qed.

(** ** The texts that cross the boundary *)

Lemma dropWhile_fixed (p : ascii -> bool) (s : str) :
  match s with [] => True | c :: _ => p c = false end ->
  dropWhile p s = s.
Proof. destruct s as [|c s]; [reflexivity|]. cbn [dropWhile]. now intros ->. Qed.

Lemma trim_fixed (s : str) :
  isSpaceAt s = false -> isSpaceAt (rev s) = false -> trim s = s.
Proof.
  intros Hs He. unfold trim, trimStart, trimEnd.
  rewrite (dropWhile_fixed isWhiteSpace s) by (destruct s; [exact I | exact Hs]).
  rewrite (dropWhile_fixed isWhiteSpace (rev s))
    by (destruct (rev s); [exact I | exact He]).
  apply rev_involutive.
Qed.

Lemma trim_idempotent (s : str) : trim (trim s) = trim s.
Proof. apply trim_fixed; [apply trim_starts | apply trim_endsClean]. Qed.

Lemma queryOllamaTry_trimmed (o : FetchOutcome) (timeout : Z) (text : str) :
  queryOllamaCatch timeout (queryOllamaTry o) = Ok text -> trim text = text.
Proof.
  destruct o as [e|res]; cbn [queryOllamaTry].
  - destruct e; cbn; discriminate.
  - destruct (ok res); cbn [negb]; [|cbn; discriminate].
    destruct (body res) as [e|data].
    + destruct e; cbn; discriminate.
    + destruct data as [|fields|]; cbn [getProperty bind];
        try (cbn; discriminate).
      destruct (truthy _); cbn [negb]; [|cbn; discriminate].
      destruct (lookupField (js "response") fields) as [[| | |t|]|];
        try (cbn; discriminate).
      cbn [queryOllamaCatch]. intros [= <-]. apply trim_idempotent.
Qed.

(** The returned string ends with white space exactly when the response
    part, once trimmed, is empty: it then ends with the separating space. *)
Lemma replyTail_end (r : Reply) :
  trim (reply_text r) = reply_text r ->
  (isSpaceAt (rev (replyTail r)) = true <-> reply_text r = []).
Proof.
  intros Ht. unfold replyTail. rewrite !rev_app_distr.
  destruct (reply_text r) as [|c t] eqn:E.
  - split; [reflexivity|]. intros _. now destruct (indicator r).
  - split; [|discriminate]. intros H. exfalso.
    pose proof (trim_endsClean (c :: t)) as Hc. rewrite Ht in Hc.
    unfold endsClean in Hc.
    rewrite <- app_assoc, isSpaceAt_app in H; [congruence|].
    intros E'. apply (f_equal (@length ascii)) in E'.
    rewrite length_rev in E'. discriminate E'.
Qed.

(** X15: the prompt of every request the dispatcher sends is trimmed, and
    so is the response part of every reply it returns; the returned string
    itself, the indicator, a space and the response, is not always: it ends
    with white space, the separating space, exactly when the response is
    blank. *)
Theorem dispatcher_texts_are_trimmed (net : Network) (w : World)
    (messages : list NewMessage) (groupName : str) :
  (forall sent request,
      requests (snd (tryOllamaRoute net w messages groupName)) =
        requests w ++ sent ->
      In request sent ->
      trim (req_prompt request) = req_prompt request) /\
  (forall reply,
      fst (tryOllamaRoute net w messages groupName) = Ok (Some reply) ->
      trim (reply_text reply) = reply_text reply /\
      (isSpaceAt (rev (replyTail reply)) = true <-> reply_text reply = [])).
Proof.
  pose proof (loadConfig_requests w) as Hreq.
  assert (Hnone : forall sent request,
             requests w = requests w ++ sent -> In request sent -> False).
  { intros sent request H Hin. destruct sent; [contradiction|].
    apply (f_equal (@length OllamaRequest)) in H.
    rewrite length_app in H. cbn [length] in H. lia. }
  destruct (policyOf w) as [cfg|] eqn:Hp.
  - destruct (enabled cfg) eqn:He.
    + rewrite (@dispatch_enabled net w cfg messages groupName Hp He).
      destruct (classify (Some cfg) messages) as [d|e|] eqn:Hc;
        cbn [fst snd]; rewrite ?Hreq;
        try (split; [intros s r H Hin; exfalso; eauto | discriminate]).
      destruct (@classify_ok_subject cfg messages d He Hc) as [m Hm].
      rewrite (@extractLastUserText_bare messages m Hm).
      destruct (isClaude d); cbn [fst snd]; rewrite ?Hreq;
        [split; [intros s r H Hin; exfalso; eauto | discriminate]|].
      split.
      * intros sent request H Hin. cbn [requests] in H.
        apply app_inv_head in H. subst sent.
        destruct Hin as [<-|[]]. cbn [requestFor req_prompt].
        unfold bareText. apply trim_idempotent.
      * intros reply H.
        destruct (queryOllamaCatch _ _) as [t|e|] eqn:Hq; try discriminate H.
        injection H as <-.
        apply queryOllamaTry_trimmed in Hq.
        split; [exact Hq | now apply replyTail_end].
    + rewrite dispatch_off by (unfold policyOff; fold (policyOf w); now rewrite Hp).
      cbn [fst snd]. rewrite Hreq.
      split; [intros s r H Hin; exfalso; eauto | discriminate].
  - rewrite dispatch_off by (unfold policyOff; fold (policyOf w); now rewrite Hp).
    cbn [fst snd]. rewrite Hreq.
    split; [intros s r H Hin; exfalso; eauto | discriminate].
Qed.

(** ** The directive and the prompt *)

Lemma stripMention_starts (c : str) :
  isSpaceAt c = false -> isSpaceAt (stripMention c) = false.
Proof.
  intros H. unfold stripMention.
  destruct c as [|ch rest]; [reflexivity|].
  destruct (Ascii.eqb_spec ch "@") as [->|Hne].
  - destruct (takeWhile notWhiteSpace rest); [exact H|].
    pose proof (dropWhile_head isWhiteSpace (dropWhile notWhiteSpace rest)) as Hh.
    destruct (dropWhile isWhiteSpace _); [reflexivity | exact Hh].
  - destruct ch as [[] [] [] [] [] [] [] []]; try exact H. now contradiction Hne.
Qed.

Lemma startsWith_app (s t prefix : str) :
  startsWith s prefix = true -> startsWith (s ++ t) prefix = true.
Proof.
  revert s. induction prefix as [|p prefix IH]; intros s H.
  - now destruct (s ++ t), s.
  - destruct s as [|c s]; [discriminate H|].
    cbn [startsWith app] in H |- *. apply andb_true_iff in H as [-> H].
    now apply IH.
Qed.

Lemma startsWith_length (s prefix : str) :
  startsWith s prefix = true -> length prefix <= length s.
Proof.
  revert s. induction prefix as [|p prefix IH]; intros s H; [cbn; lia|].
  destruct s as [|c s]; [discriminate H|].
  cbn [startsWith] in H. apply andb_true_iff in H as [_ H].
  apply IH in H. cbn [length]. lia.
Qed.

Lemma dropWhile_app_blank (x blank : str) :
  forallb isWhiteSpace blank = true ->
  exists blank',
    forallb isWhiteSpace blank' = true /\
    dropWhile isWhiteSpace (x ++ blank) = dropWhile isWhiteSpace x ++ blank'.
Proof.
  intros Hb. induction x as [|c x IH].
  - exists []. split; [reflexivity|]. cbn [app dropWhile].
    clear -Hb. induction blank as [|b blank IH]; [reflexivity|].
    cbn [forallb] in Hb. apply andb_true_iff in Hb as [Hc Hb].
    cbn [dropWhile]. rewrite Hc. now apply IH.
  - cbn [app dropWhile]. destruct (isWhiteSpace c); [exact IH|].
    exists blank. auto.
Qed.

Lemma trimEnd_app_blank (x blank : str) :
  forallb isWhiteSpace blank = true -> trimEnd (x ++ blank) = trimEnd x.
Proof.
  intros Hb. unfold trimEnd. rewrite rev_app_distr. f_equal.
  assert (Hr : forallb isWhiteSpace (rev blank) = true).
  { rewrite forallb_forall in *. intros c Hc. apply Hb. now apply in_rev. }
  clear Hb. induction (rev blank) as [|b r IH]; [reflexivity|].
  cbn [forallb] in Hr. apply andb_true_iff in Hr as [Hc Hr].
  cbn [app dropWhile]. rewrite Hc. now apply IH.
Qed.

Lemma trim_app_blank (x blank : str) :
  forallb isWhiteSpace blank = true -> trim (x ++ blank) = trim x.
Proof.
  intros Hb. unfold trim, trimStart.
  destruct (@dropWhile_app_blank x blank Hb) as (blank' & Hb' & ->).
  now apply trimEnd_app_blank.
Qed.

Lemma trim_dropWhile (s : str) : trim (dropWhile isWhiteSpace s) = trim s.
Proof.
  unfold trim, trimStart. f_equal.
  apply dropWhile_fixed. apply dropWhile_head.
Qed.

(** X16: when the content of the subject message does not begin with white
    space and the decision is forced by the directive, the prompt is what
    follows the directive in the mention-stripped text, trimmed: neither the
    mention nor the directive reaches the backend. *)
Theorem forced_prompt_drops_directive (messages : list NewMessage)
    (m : NewMessage) (stripped : str) :
  lastUserMessage messages = Some m ->
  isSpaceAt (content m) = false ->
  mentionStripped messages = Ok stripped ->
  beginsWithLocalDirective stripped = true ->
  extractLastUserText messages = Ok (trim (skipn 6 stripped)).
Proof.
  intros Hm Hs Hst Hl.
  rewrite (@mentionStripped_spec messages m Hm) in Hst. injection Hst as <-.
  rewrite (@extractLastUserText_bare messages m Hm). f_equal.
  unfold bareText, stripLocalPrefix.
  pose proof (@stripMention_starts (content m) Hs) as Hs0.
  set (s0 := stripMention (content m)) in *.
  assert (Htrim : trim s0 = trimEnd s0).
  { unfold trim, trimStart. f_equal. apply dropWhile_fixed.
    destruct s0; [exact I | exact Hs0]. }
  rewrite Htrim in Hl |- *.
  destruct (trimEnd_decompose s0) as [Hd Hb].
  unfold beginsWithLocalDirective in Hl. apply andb_true_iff in Hl as [Hl _].
  assert (Hbegins : beginsWithLocal s0 = true).
  { unfold beginsWithLocal in *. rewrite Hd, toLowerCase_app.
    now apply startsWith_app. }
  rewrite Hbegins, trim_dropWhile.
  assert (Hlen : 6 <= length (trimEnd s0)).
  { unfold beginsWithLocal in Hl. apply startsWith_length in Hl.
    unfold toLowerCase in Hl. rewrite length_map in Hl. exact Hl. }
  rewrite Hd at 1. rewrite skipn_app.
  replace (6 - length (trimEnd s0)) with 0 by lia. cbn [skipn].
  now apply trim_app_blank.
Qed.

(** X17: when the content of the subject message begins with white space,
    neither pattern applies, since both are anchored at the first code
    unit: the bare text is the whole content trimmed, so that a mention or a
    [!local] directive behind the white space stays in the prompt, although
    the directive still forces the local route. *)
Theorem leading_space_keeps_directive (messages : list NewMessage)
    (m : NewMessage) :
  lastUserMessage messages = Some m ->
  isSpaceAt (content m) = true ->
  extractLastUserText messages = Ok (trim (content m)) /\
  mentionStripped messages = Ok (trim (content m)).
Proof.
  intros Hm Hs.
  rewrite (@extractLastUserText_bare messages m Hm),
    (@mentionStripped_spec messages m Hm).
  unfold bareText, stripLocalPrefix, beginsWithLocal.
  destruct (content m) as [|c rest]; [discriminate Hs|].
  cbn [isSpaceAt] in Hs.
  assert (Hstrip : stripMention (c :: rest) = c :: rest)
    by (destruct c as [[] [] [] [] [] [] [] []]; try reflexivity;
        discriminate Hs).
  rewrite Hstrip.
  assert (Hno : startsWith (toLowerCase (c :: rest)) (js "!local") = false).
  { cbn [toLowerCase map js list_ascii_of_string startsWith].
    rewrite <- toLowerChar_whiteSpace in Hs.
    destruct (toLowerChar c) as [[] [] [] [] [] [] [] []]; try reflexivity;
      discriminate Hs. }
  rewrite Hno. auto.
Qed.

(** ** The backend call, when it succeeds *)

(** X18: the backend call returns a text exactly when the fetch resolves
    with a success status, the body parses to an object whose completed flag
    is truthy and whose generated text is a string; the text returned is
    that string trimmed.  Whatever the outcome, the call adds one request,
    with [stream] off, to those sent. *)
Theorem backend_call_success (net : Network) (prompt model url : str)
    (timeout : Z) (w : World) (text : str) :
  (fst (queryOllama net prompt model url timeout w) = Ok text <->
   exists res fields t,
     net (mkRequest url model prompt false timeout) = FetchResolves res /\
     ok res = true /\
     body res = BodyParses (JObject fields) /\
     truthy (lookupField (js "done") fields) = true /\
     lookupField (js "response") fields = Some (VString t) /\
     text = trim t) /\
  requests (snd (queryOllama net prompt model url timeout w)) =
    requests w ++ [mkRequest url model prompt false timeout].
Proof.
  unfold queryOllama. cbn [fst snd requests]. split; [|reflexivity].
  destruct (net _) as [e|res]; cbn [queryOllamaTry].
  - split; [destruct e; cbn; discriminate|].
    intros (r & f & t & H & _). discriminate H.
  - destruct (ok res) eqn:Hok; cbn [negb].
    + destruct (body res) as [e|data] eqn:Hb.
      * split; [destruct e; cbn; discriminate|].
        intros (r & f & t & [= <-] & _ & H & _). congruence.
      * destruct data as [|fields|]; cbn [getProperty bind].
        -- split; [cbn; discriminate|].
           intros (r & f & t & [= <-] & _ & H & _). congruence.
        -- destruct (truthy (lookupField (js "done") fields)) eqn:Hd;
             cbn [negb].
           ++ destruct (lookupField (js "response") fields)
                as [[| | |t|]|] eqn:Hr; cbn [queryOllamaCatch isAbortError];
                try (split; [discriminate|];
                     intros (r & f & t' & [= <-] & _ & H & _ & H' & _);
                     rewrite Hb in H; injection H as <-; congruence).
              split.
              ** intros [= <-]. exists res, fields, t. auto 10.
              ** intros (r & f & t' & [= <-] & _ & H & _ & H' & ->).
                 rewrite Hb in H. injection H as <-. congruence.
           ++ cbn [queryOllamaCatch isAbortError]. split; [discriminate|].
              intros (r & f & t' & [= <-] & _ & H & H' & _).
              rewrite Hb in H. injection H as <-. congruence.
        -- split; [cbn; discriminate|].
           intros (r & f & t & [= <-] & _ & H & _). congruence.
    + split; [cbn; discriminate|].
      intros (r & f & t & [= <-] & H & _). congruence.
Qed.

(** ** The privacy decision, read backwards *)

(** X23: under an enabled policy with plain keywords, on a conversation
    whose subject text has no [!local] directive, the decision is
    privacy-local exactly when some configured keyword, in lower case,
    occurs as a whole word or phrase in the lower-case contents of the
    messages joined by single spaces. *)
Theorem privacy_local_exactly (w : World) (cfg : RoutingConfig)
    (messages : list NewMessage) (m : NewMessage) :
  policyOf w = Some cfg ->
  enabled cfg = true ->
  lastUserMessage messages = Some m ->
  forallb plainKeyword (privacyKeywords (routing cfg)) = true ->
  beginsWithLocalDirective (trim (stripMention (content m))) = false ->
  (fst (classifyMessages w messages) = Ok OllamaPrivacy <->
   exists kw,
     In kw (privacyKeywords (routing cfg)) /\
     ContainsPhrase (toLowerCase kw)
       (toLowerCase (join (js " ") (map content messages)))).
Proof.
  intros Hp He Hm Hplain Hl. rewrite classifyMessages_policy, Hp.
  rewrite (@classify_enabled cfg messages m He Hm), Hl.
  destruct (hasPrivacyKeyword_plain messages _ Hplain) as (b & -> & Hb).
  cbn [bind]. rewrite <- Hb. destruct b.
  - tauto.
  - destruct (isSimpleQuestion_spec cfg (bareText (content m))) as [e [-> _]].
    cbn [bind]. destruct e; split; discriminate.
Qed.

(** ** The order of the keywords *)

Lemma hasPrivacyKeyword_front (messages : list NewMessage)
    (front rest : list str) (kw : str) :
  forallb plainKeyword front = true ->
  In kw front ->
  ContainsPhrase (toLowerCase kw)
    (toLowerCase (join (js " ") (map content messages))) ->
  hasPrivacyKeyword messages (front ++ rest) = Ok true.
Proof.
  unfold hasPrivacyKeyword. intros Hall Hin Hc.
  induction front as [|k ks IH]; [contradiction|].
  cbn [forallb] in Hall. apply andb_true_iff in Hall as [Hk Hks].
  cbn [app array_some]. rewrite (@newRegExp_plainKeyword k Hk). cbn [bind].
  destruct (test (keywordRe k) _) eqn:Et; [reflexivity|].
  destruct Hin as [->|Hin]; [|now apply IH].
  rewrite (@keywordRe_finds kw _ Hk Hc) in Et. discriminate Et.
Qed.

(** X19: the keywords are tried in their configured order and the search
    stops at the first hit: when a plain keyword matches and the keywords
    before it are plain, the decision is privacy-local whatever comes later
    in the list, an ill-formed keyword included, whose pattern is then
    never built. *)
Theorem earlier_keyword_hides_later_ones (w : World) (cfg : RoutingConfig)
    (messages : list NewMessage) (m : NewMessage)
    (front rest : list str) (kw : str) :
  policyOf w = Some cfg ->
  enabled cfg = true ->
  lastUserMessage messages = Some m ->
  privacyKeywords (routing cfg) = front ++ rest ->
  forallb plainKeyword front = true ->
  In kw front ->
  ContainsPhrase (toLowerCase kw)
    (toLowerCase (join (js " ") (map content messages))) ->
  beginsWithLocal (trim (stripMention (content m))) = false ->
  fst (classifyMessages w messages) = Ok OllamaPrivacy.
Proof.
  intros Hp He Hm Hk Hall Hin Hc Hl. rewrite classifyMessages_policy, Hp.
  rewrite (@classify_enabled cfg messages m He Hm).
  unfold beginsWithLocalDirective. rewrite Hl. cbn [andb]. rewrite Hk.
  now rewrite (@hasPrivacyKeyword_front messages front rest kw Hall Hin Hc).
Qed.

(** ** Messages after the subject *)

(** X20: messages that are not written by a user (replies of the
    automation, bot messages), added after a conversation that has a user
    message, do not change the subject message, hence neither the bare text
    nor the mention-stripped text. *)
Theorem trailing_replies_keep_subject (messages replies : list NewMessage) :
  existsb isUser messages = true ->
  forallb notUser replies = true ->
  lastUserMessage (messages ++ replies) = lastUserMessage messages /\
  extractLastUserText (messages ++ replies) = extractLastUserText messages /\
  mentionStripped (messages ++ replies) = mentionStripped messages.
Proof.
  intros Hu Hr.
  assert (H : lastUserMessage (messages ++ replies) = lastUserMessage messages).
  { unfold lastUserMessage. fold isUser.
    rewrite filter_app, (filter_none isUser replies Hr), app_nil_r.
    destruct (filter isUser messages) as [|u us] eqn:Ef; [|reflexivity].
    exfalso. apply existsb_exists in Hu as (x & Hx & Hux).
    assert (Hin : In x (filter isUser messages)) by now apply filter_In.
    rewrite Ef in Hin. contradiction. }
  unfold extractLastUserText, mentionStripped, lastUserContent.
  now rewrite H.
Qed.

(** ** An ill-formed keyword *)

(** X21: when the first configured keyword gives an ill-formed pattern, the
    classifier raises a SyntaxError on every conversation of an enabled
    policy whose subject text has no [!local] directive, and the
    dispatcher, which classifies outside its [try] block, raises it too. *)
Theorem ill_formed_keyword_raises_everywhere (net : Network) (w : World)
    (cfg : RoutingConfig) (messages : list NewMessage) (m : NewMessage)
    (kw : str) (rest : list str) (groupName : str) :
  policyOf w = Some cfg ->
  enabled cfg = true ->
  lastUserMessage messages = Some m ->
  beginsWithLocalDirective (trim (stripMention (content m))) = false ->
  privacyKeywords (routing cfg) = kw :: rest ->
  compilePattern (keywordPattern kw) = PatternSyntaxError ->
  fst (classifyMessages w messages) = Throw (Native SyntaxError) /\
  fst (tryOllamaRoute net w messages groupName) = Throw (Native SyntaxError).
Proof.
  intros Hp He Hm Hl Hk Hbad.
  assert (Hc : classify (Some cfg) messages = Throw (Native SyntaxError)).
  { rewrite (@classify_enabled cfg messages m He Hm), Hl, Hk.
    unfold hasPrivacyKeyword. cbn [array_some]. unfold newRegExp.
    now rewrite Hbad. }
  split; [now rewrite classifyMessages_policy, Hp|].
  now rewrite (@dispatch_enabled net w cfg messages groupName Hp He), Hc.
Qed.

(** ** Plain keywords *)

Lemma queryOllama_modelled (o : FetchOutcome) (timeout : Z) :
  queryOllamaCatch timeout (queryOllamaTry o) <> Unmodelled.
Proof.
  intros H. destruct (queryOllama_outcome o timeout) as (Hfail & _ & Hok).
  destruct Hok as [text Ht]; [|congruence].
  intros Hb. apply Hfail in Hb as [e He]. congruence.
Qed.

(** X22: with keywords that are all plain (no syntax character of the
    pattern grammar, a word character first and last), neither the
    classifier nor the dispatcher ever raises on a non-empty conversation,
    whatever the network does: the classifier gives one of the four
    decisions and the dispatcher a reply or absent. *)
Theorem plain_keywords_never_raise (net : Network) (w : World)
    (cfg : RoutingConfig) (messages : list NewMessage) (groupName : str) :
  policyOf w = Some cfg ->
  messages <> [] ->
  forallb plainKeyword (privacyKeywords (routing cfg)) = true ->
  (exists d, fst (classifyMessages w messages) = Ok d) /\
  (exists r, fst (tryOllamaRoute net w messages groupName) = Ok r).
Proof.
  intros Hp Hne Hall.
  destruct (@classify_total_on_plain_keywords w cfg messages Hp Hne Hall)
    as [d Hd].
  split; [now exists d|].
  rewrite classifyMessages_policy, Hp in Hd.
  destruct (enabled cfg) eqn:He.
  - rewrite (@dispatch_enabled net w cfg messages groupName Hp He), Hd.
    destruct (@classify_ok_subject cfg messages d He Hd) as [m Hm].
    rewrite (@extractLastUserText_bare messages m Hm).
    destruct (isClaude d); cbn [fst]; [eauto|].
    pose proof (queryOllama_modelled
                  (net (requestFor cfg d (bareText (content m))))
                  (timeoutMs (ollama cfg))) as Hq.
    destruct (queryOllamaCatch _ _); [eauto | eauto | congruence].
  - rewrite dispatch_off by (unfold policyOff; fold (policyOf w); now rewrite Hp).
    cbn [fst]. eauto.
Qed.

(* ================================================================== *)
(** * Instances of the further properties *)

Local Open Scope string_scope.

Lemma loaded_policy_survives_file_changes_witness :
  policyOf (withConfigFile None
              (snd (loadConfig (freshWorld (examplePolicy ["ssn"] ["what"])))))
  = Some (examplePolicy ["ssn"] ["what"]).
Proof.
  apply (@loaded_policy_survives_file_changes
           (freshWorld (examplePolicy ["ssn"] ["what"]))
           (examplePolicy ["ssn"] ["what"]) None).
  reflexivity.
Defined.

Lemma failed_load_is_retried_witness :
  loadConfig (mkWorld None None []) = (None, mkWorld None None []) /\
  policyOf (withConfigFile (Some (examplePolicy ["ssn"] ["what"]))
              (snd (loadConfig (mkWorld None None []))))
  = Some (examplePolicy ["ssn"] ["what"]).
Proof.
  apply (@failed_load_is_retried (mkWorld None None [])
           (examplePolicy ["ssn"] ["what"])); reflexivity.
Defined.

Lemma local_answer_is_returned_witness :
  fst (tryOllamaRoute answeringNetwork
         (freshWorld (examplePolicy ["social security"] ["what"]))
         [msg "@Andy my social security number is 123"] (js "family"))
  = Ok (Some (mkReply PrivateIndicator (js "4"))).
Proof.
  apply (@local_answer_is_returned answeringNetwork
           (freshWorld (examplePolicy ["social security"] ["what"]))
           (examplePolicy ["social security"] ["what"])
           [msg "@Andy my social security number is 123"]
           (msg "@Andy my social security number is 123")
           OllamaPrivacy (js "family")
           (mkResponse 200 (js "OK")
              (BodyParses (JObject [(js "response", VString (js "4"));
                                    (js "done", VBool true)])))
           [(js "response", VString (js "4")); (js "done", VBool true)]
           (js "4")); try reflexivity.
  discriminate.
Defined.

Lemma remote_decision_sends_nothing_witness :
  fst (tryOllamaRoute answeringNetwork
         (freshWorld (examplePolicy ["ssn"] ["what"]))
         [msg "@Andy please plan my week in detail"] (js "family")) = Ok None /\
  requests (snd (tryOllamaRoute answeringNetwork
                   (freshWorld (examplePolicy ["ssn"] ["what"]))
                   [msg "@Andy please plan my week in detail"] (js "family")))
  = requests (freshWorld (examplePolicy ["ssn"] ["what"])).
Proof.
  apply (@remote_decision_sends_nothing answeringNetwork
           (freshWorld (examplePolicy ["ssn"] ["what"]))
           (examplePolicy ["ssn"] ["what"])
           [msg "@Andy please plan my week in detail"] (js "family"));
    reflexivity.
Defined.

Lemma empty_conversation_raises_witness :
  fst (classifyMessages (freshWorld (examplePolicy ["ssn"] ["what"])) [])
    = Throw (Native TypeError) /\
  fst (tryOllamaRoute answeringNetwork
         (freshWorld (examplePolicy ["ssn"] ["what"])) [] (js "family"))
    = Throw (Native TypeError) /\
  requests (snd (tryOllamaRoute answeringNetwork
                   (freshWorld (examplePolicy ["ssn"] ["what"])) [] (js "family")))
    = requests (freshWorld (examplePolicy ["ssn"] ["what"])).
Proof.
  apply (@empty_conversation_raises answeringNetwork
           (freshWorld (examplePolicy ["ssn"] ["what"]))
           (examplePolicy ["ssn"] ["what"]) (js "family")); reflexivity.
Defined.

Lemma forced_local_only_by_directive_witness :
  fst (classifyMessages (freshWorld (examplePolicy ["ssn"] ["what"]))
         [msg "@Andy !localhost is down"]) = Ok OllamaForced <->
  beginsWithLocalDirective
    (trim (stripMention (content (msg "@Andy !localhost is down")))) = true.
Proof.
  apply (@forced_local_only_by_directive
           (freshWorld (examplePolicy ["ssn"] ["what"]))
           (examplePolicy ["ssn"] ["what"])
           [msg "@Andy !localhost is down"] (msg "@Andy !localhost is down"));
    reflexivity.
Defined.

Lemma simple_local_only_if_witness :
  enabled (examplePolicy ["ssn"] ["what"]) = true /\
  exists m,
    lastUserMessage [msg "@Andy What is 2+2?"] = Some m /\
    beginsWithLocalDirective (trim (stripMention (content m))) = false /\
    hasPrivacyKeyword [msg "@Andy What is 2+2?"]
      (privacyKeywords (routing (examplePolicy ["ssn"] ["what"]))) = Ok false /\
    simpleCondition (examplePolicy ["ssn"] ["what"]) (bareText (content m)) /\
    (1 <= Z.of_nat (length (tokens (bareText (content m))))
       <= maxWordsForSimple (routing (examplePolicy ["ssn"] ["what"])))%Z.
Proof.
  apply (@simple_local_only_if (freshWorld (examplePolicy ["ssn"] ["what"]))
           (examplePolicy ["ssn"] ["what"]) [msg "@Andy What is 2+2?"]);
    reflexivity.
Defined.

Lemma starters_must_be_lower_case_letters_witness :
  fst (classifyMessages (freshWorld (examplePolicy ["ssn"] ["What"; "who?"]))
         [msg "@Andy What is 2+2?"]) <> Ok OllamaSimple.
Proof.
  apply (@starters_must_be_lower_case_letters
           (freshWorld (examplePolicy ["ssn"] ["What"; "who?"]))
           (examplePolicy ["ssn"] ["What"; "who?"])
           [msg "@Andy What is 2+2?"]); [reflexivity|].
  intros s [<-|[<-|[]]]; reflexivity.
Defined.

Lemma privacy_keyword_in_any_message_witness :
  fst (classifyMessages (freshWorld (examplePolicy ["ssn"] ["what"]))
         [msg "hello"; mkMessage (js "Your SSN is on file.") true false;
          msg "@Andy what time is it?"]) = Ok OllamaPrivacy.
Proof.
  apply (@privacy_keyword_in_any_message
           (freshWorld (examplePolicy ["ssn"] ["what"]))
           (examplePolicy ["ssn"] ["what"])
           [msg "hello"; mkMessage (js "Your SSN is on file.") true false;
            msg "@Andy what time is it?"]
           (msg "@Andy what time is it?")
           (mkMessage (js "Your SSN is on file.") true false)
           (js "ssn")); try reflexivity.
  - left. reflexivity.
  - right. left. reflexivity.
  - exists (js "your "), (js "ssn"), (js " is on file.").
    split; [reflexivity|]. split; [|split; reflexivity].
    do 3 (apply PM_char; [reflexivity|]). apply PM_end.
Defined.

Lemma privacy_rule_ignores_case_and_sender_witness :
  hasPrivacyKeyword [msg "My SSN is 078-05-1120"] [js "ssn"] =
  hasPrivacyKeyword [mkMessage (js "my ssn IS 078-05-1120") true true] [js "SSN"].
Proof.
  apply (@privacy_rule_ignores_case_and_sender
           [msg "My SSN is 078-05-1120"]
           [mkMessage (js "my ssn IS 078-05-1120") true true]
           [js "ssn"] [js "SSN"]); reflexivity.
Defined.

Lemma forced_prompt_drops_directive_witness :
  extractLastUserText [msg "@Andy !LOCAL   tell me a joke  "]
  = Ok (trim (skipn 6 (js "!LOCAL   tell me a joke"))).
Proof.
  apply (@forced_prompt_drops_directive
           [msg "@Andy !LOCAL   tell me a joke  "]
           (msg "@Andy !LOCAL   tell me a joke  ")
           (js "!LOCAL   tell me a joke")); reflexivity.
Defined.

Lemma leading_space_keeps_directive_witness :
  extractLastUserText [msg " !local tell me a joke"]
    = Ok (trim (content (msg " !local tell me a joke"))) /\
  mentionStripped [msg " !local tell me a joke"]
    = Ok (trim (content (msg " !local tell me a joke"))).
Proof.
  apply (@leading_space_keeps_directive
           [msg " !local tell me a joke"] (msg " !local tell me a joke"));
    reflexivity.
Defined.

Lemma earlier_keyword_hides_later_ones_witness :
  fst (classifyMessages (freshWorld (examplePolicy ["ssn"; "("] ["what"]))
         [msg "@Andy my ssn is 078-05-1120"]) = Ok OllamaPrivacy.
Proof.
  apply (@earlier_keyword_hides_later_ones
           (freshWorld (examplePolicy ["ssn"; "("] ["what"]))
           (examplePolicy ["ssn"; "("] ["what"])
           [msg "@Andy my ssn is 078-05-1120"]
           (msg "@Andy my ssn is 078-05-1120")
           [js "ssn"] [js "("] (js "ssn")); try reflexivity.
  - left. reflexivity.
  - exists (js "@andy my "), (js "ssn"), (js " is 078-05-1120").
    split; [reflexivity|]. split; [|split; reflexivity].
    do 3 (apply PM_char; [reflexivity|]). apply PM_end.
Defined.

Lemma trailing_replies_keep_subject_witness :
  lastUserMessage ([msg "@Andy What is 2+2?"]
                   ++ [mkMessage (js "4") true false])%list
    = lastUserMessage [msg "@Andy What is 2+2?"] /\
  extractLastUserText ([msg "@Andy What is 2+2?"]
                       ++ [mkMessage (js "4") true false])%list
    = extractLastUserText [msg "@Andy What is 2+2?"] /\
  mentionStripped ([msg "@Andy What is 2+2?"]
                   ++ [mkMessage (js "4") true false])%list
    = mentionStripped [msg "@Andy What is 2+2?"].
Proof.
  apply (@trailing_replies_keep_subject
           [msg "@Andy What is 2+2?"] [mkMessage (js "4") true false]);
    reflexivity.
Defined.

Lemma ill_formed_keyword_raises_everywhere_witness :
  fst (classifyMessages (freshWorld (examplePolicy ["c++"; "ssn"] ["what"]))
         [msg "@Andy What is 2+2?"]) = Throw (Native SyntaxError) /\
  fst (tryOllamaRoute answeringNetwork
         (freshWorld (examplePolicy ["c++"; "ssn"] ["what"]))
         [msg "@Andy What is 2+2?"] (js "family")) = Throw (Native SyntaxError).
Proof.
  apply (@ill_formed_keyword_raises_everywhere answeringNetwork
           (freshWorld (examplePolicy ["c++"; "ssn"] ["what"]))
           (examplePolicy ["c++"; "ssn"] ["what"])
           [msg "@Andy What is 2+2?"] (msg "@Andy What is 2+2?")
           (js "c++") [js "ssn"] (js "family")); reflexivity.
Defined.

Lemma privacy_local_exactly_witness :
  fst (classifyMessages
         (freshWorld (examplePolicy ["password"; "Social  Security"] ["what"]))
         [msg "@Andy What is my social-security number?"]) = Ok OllamaPrivacy <->
  exists kw,
    In kw (privacyKeywords
             (routing (examplePolicy ["password"; "Social  Security"] ["what"]))) /\
    ContainsPhrase (toLowerCase kw)
      (toLowerCase
         (join (js " ")
            (map content [msg "@Andy What is my social-security number?"]))).
Proof.
  apply (@privacy_local_exactly
           (freshWorld (examplePolicy ["password"; "Social  Security"] ["what"]))
           (examplePolicy ["password"; "Social  Security"] ["what"])
           [msg "@Andy What is my social-security number?"]
           (msg "@Andy What is my social-security number?"));
    reflexivity.
Defined.

Lemma plain_keywords_never_raise_witness :
  (exists d,
      fst (classifyMessages
             (freshWorld (examplePolicy ["ssn"; "social security"] ["what"]))
             [msg "@Andy What is 2+2?"]) = Ok d) /\
  (exists r,
      fst (tryOllamaRoute slowNetwork
             (freshWorld (examplePolicy ["ssn"; "social security"] ["what"]))
             [msg "@Andy What is 2+2?"] (js "family")) = Ok r).
Proof.
  apply (@plain_keywords_never_raise slowNetwork
           (freshWorld (examplePolicy ["ssn"; "social security"] ["what"]))
           (examplePolicy ["ssn"; "social security"] ["what"])
           [msg "@Andy What is 2+2?"] (js "family")); try reflexivity.
  discriminate.
Defined.
